(** * polyfit: incremental least-squares polynomial fitting

    A shallow embedding of [polyfit/polyfit.go] and the properties of its
    fitter: [NewFitting], [Copy], [Add], [Merge] and [Solve].

    Go objects live in an explicit store.  A [*Fitting] is a location of
    the struct store, a [[]float64] is a slice header (array location,
    length, capacity) over the array store, so that aliasing between a
    fitter and its copy, or between the two arguments of [Merge], is
    visible.  Every operation is a function from the store to an outcome:
    a value with the new store, or a Go panic with the store at that
    point. *)

From Stdlib Require Import ZArith List Lia Field.
From Stdlib Require Import Floats.PrimFloat.
From Stdlib Require Floats.SpecFloat Floats.FloatOps Floats.FloatAxioms.
From Stdlib Require QArith.Qcanon.
From stdpp Require Import base option list gmap strings pretty.

Local Open Scope Z_scope.

(** ** float64 arithmetic

    The code only uses the constants [0] and [1] and the four operations
    of [float64].  The embedding is written once over this interface; the
    instance [float64_arith] is IEEE 754 binary64 (what the Go code runs
    on), and [exact_arith] is the field of rationals, in which the laws
    that hold "up to rounding" hold exactly. *)

Class Arith (F : Type) := {
  fzero : F;
  fone : F;
  fadd : F → F → F;
  fsub : F → F → F;
  fmul : F → F → F;
  fdiv : F → F → F
}.

Declare Scope arith_scope.
Delimit Scope arith_scope with F.
Notation "x ⊕ y" := (fadd x y) (at level 50, left associativity) : arith_scope.
Notation "x ⊖ y" := (fsub x y) (at level 50, left associativity) : arith_scope.
Notation "x ⊗ y" := (fmul x y) (at level 40, left associativity) : arith_scope.
Notation "x ⊘ y" := (fdiv x y) (at level 40, left associativity) : arith_scope.

#[export] Instance float64_arith : Arith float := {|
  fzero := PrimFloat.zero;
  fone := PrimFloat.one;
  fadd := PrimFloat.add;
  fsub := PrimFloat.sub;
  fmul := PrimFloat.mul;
  fdiv := PrimFloat.div
|}.

#[export] Instance exact_arith : Arith Qcanon.Qc := {|
  fzero := Qcanon.Q2Qc (QArith_base.Qmake 0 1);
  fone := Qcanon.Q2Qc (QArith_base.Qmake 1 1);
  fadd := Qcanon.Qcplus;
  fsub := Qcanon.Qcminus;
  fmul := Qcanon.Qcmult;
  fdiv := Qcanon.Qcdiv
|}.

(** ** Go's [int] (64 bits, two's complement) *)

Definition int_min : Z := - 2 ^ 63.
Definition int_max : Z := 2 ^ 63 - 1.

(** The value an [int] operation keeps of its mathematical result. *)
Definition wrap (z : Z) : Z := (z + 2 ^ 63) mod 2 ^ 64 - 2 ^ 63.

Definition int_add (a b : Z) : Z := wrap (a + b).
Definition int_sub (a b : Z) : Z := wrap (a - b).
Definition int_mul (a b : Z) : Z := wrap (a * b).

(** ** The store *)

Definition loc := positive.

(** A slice header.  Every slice of this package starts at the first cell
    of its backing array, so no offset is kept. *)
Record slice := Slice {
  sl_arr : loc;
  sl_len : nat;
  sl_cap : nat
}.

Module polyfit.

Record Fitting := mkFitting {
  N : Z;
  Degree : Z;
  (* cache XᵀX *)
  xtx : slice;
  (* cache XᵀY *)
  xty : slice
}.

Definition set_N (f : Fitting) (n : Z) : Fitting :=
  mkFitting n (Degree f) (xtx f) (xty f).
Definition set_xtx (f : Fitting) (s : slice) : Fitting :=
  mkFitting (N f) (Degree f) s (xty f).
Definition set_xty (f : Fitting) (s : slice) : Fitting :=
  mkFitting (N f) (Degree f) (xtx f) s.

(** Run-time panics of Go and of [gonum.org/v1/gonum/mat]. *)
Inductive panic :=
  | IndexOutOfRange          (* runtime error: index out of range *)
  | NilDereference           (* runtime error: invalid memory address *)
  | MakeSliceOutOfRange      (* runtime error: makeslice: len/cap out of range *)
  | DifferentDegree (d1 d2 : Z)  (* panic("different degree: %d %d") *)
  | ErrZeroLength            (* mat: zero length in matrix dimension *)
  | ErrNegativeDimension     (* mat: negative dimension *)
  | ErrShape                 (* mat: dimension mismatch *)
  | ErrIndexOutOfRange       (* mat: index out of range *)
  | ErrRowAccess             (* mat: row index out of range *)
  | SliceBoundsOutOfRange.   (* runtime error: slice bounds out of range *)

(** [gonum.org/v1/gonum/mat] is a dependency of the package, not part of
    it.  Its numerical core, [Dense.Solve] (an LU factorisation with
    partial pivoting), is kept abstract: [mat_solve n a b i] is entry
    [(i, 0)] of the receiver after solving the [n]×[n] system with
    row-major coefficients [a] and right-hand side [b], and
    [mat_solve_err n a b] says whether [Solve] returned a non-nil error
    (a singular or badly conditioned matrix). *)
Class LinSolver (F : Type) := {
  mat_solve : nat → list F → list F → nat → F;
  mat_solve_err : nat → list F → list F → bool
}.

Section Model.

Context {F : Type} {arith : Arith F} {solver : LinSolver F}.
Local Open Scope arith_scope.

Record heap := Heap {
  arrays : gmap loc (list F);
  fittings : gmap loc Fitting
}.

Inductive outcome (A : Type) :=
  | Ok (a : A) (h : heap)
  | Panicked (p : panic) (h : heap).
Arguments Ok {A} a h.
Arguments Panicked {A} p h.

Definition M (A : Type) : Type := heap → outcome A.

Definition ret {A} (a : A) : M A := λ h, Ok a h.

Definition bind {A B} (m : M A) (k : A → M B) : M B :=
  λ h, match m h with
       | Ok a h' => k a h'
       | Panicked p h' => Panicked p h'
       end.

Definition raise {A} (p : panic) : M A := λ h, Panicked p h.

Notation "'let*' v := m 'in' c" := (bind m (λ v, c))
  (at level 10, v name, m at level 100, c at level 200).
Notation "'run' m 'in' c" := (bind m (λ _, c))
  (at level 10, m at level 100, c at level 200).

(** *** Struct cells *)

(** [*p] for a [*Fitting]; a pointer that names no struct is nil. *)
Definition load (p : loc) : M Fitting :=
  λ h, match fittings h !! p with
       | Some f => Ok f h
       | None => Panicked NilDereference h
       end.

Definition store (p : loc) (f : Fitting) : M unit :=
  λ h, match fittings h !! p with
       | Some _ => Ok tt (Heap (arrays h) (<[p := f]> (fittings h)))
       | None => Panicked NilDereference h
       end.

(** [&Fitting{...}] *)
Definition new_struct (f : Fitting) : M loc :=
  λ h, let p := fresh (dom (fittings h)) in
       Ok p (Heap (arrays h) (<[p := f]> (fittings h))).

(** *** Slices *)

(** [make([]float64, len, cap)]: a fresh zeroed array. *)
Definition make (len cap : Z) : M slice :=
  λ h, if decide (0 ≤ len ∧ len ≤ cap) then
         let a := fresh (dom (arrays h)) in
         Ok (Slice a (Z.to_nat len) (Z.to_nat cap))
            (Heap (<[a := replicate (Z.to_nat cap) fzero]> (arrays h)) (fittings h))
       else Panicked MakeSliceOutOfRange h.

(** [s[i]] as a value. *)
Definition index_get (s : slice) (i : Z) : M F :=
  λ h, if decide (0 ≤ i < Z.of_nat (sl_len s)) then
         match arrays h !! sl_arr s ≫= (λ l, l !! Z.to_nat i) with
         | Some v => Ok v h
         | None => Panicked NilDereference h
         end
       else Panicked IndexOutOfRange h.

(** [s[i] = v] *)
Definition index_set (s : slice) (i : Z) (v : F) : M unit :=
  λ h, if decide (0 ≤ i < Z.of_nat (sl_len s)) then
         match arrays h !! sl_arr s with
         | Some l =>
             Ok tt (Heap (<[sl_arr s := <[Z.to_nat i := v]> l]> (arrays h)) (fittings h))
         | None => Panicked NilDereference h
         end
       else Panicked IndexOutOfRange h.

(** The elements [s[0], ..., s[len(s)-1]]. *)
Definition contents (h : heap) (s : slice) : option (list F) :=
  take (sl_len s) <$> arrays h !! sl_arr s.

(** [append(dst, src...)].  When the capacity of [dst] suffices the
    elements are written behind [dst] in its own array; otherwise a new
    array is allocated (Go may give it spare capacity, which nothing here
    observes). *)
Definition append (dst src : slice) : M slice :=
  λ h, match arrays h !! sl_arr dst, contents h src with
       | Some ld, Some ls =>
           if decide (sl_len dst + sl_len src ≤ sl_cap dst)%nat then
             Ok (Slice (sl_arr dst) (sl_len dst + sl_len src) (sl_cap dst))
                (Heap (<[sl_arr dst :=
                           take (sl_len dst) ld ++ ls ++
                           drop (sl_len dst + sl_len src) ld]> (arrays h))
                      (fittings h))
           else
             let a := fresh (dom (arrays h)) in
             Ok (Slice a (sl_len dst + sl_len src) (sl_len dst + sl_len src))
                (Heap (<[a := take (sl_len dst) ld ++ ls]> (arrays h)) (fittings h))
       | _, _ => Panicked NilDereference h
       end.

(** *** Loops *)

(** [count] iterations of [body], on [i], [i+1], ... *)
Fixpoint for_iter (count : nat) (i : Z) (body : Z → M unit) : M unit :=
  match count with
  | O => ret tt
  | S c => run body i in for_iter c (int_add i 1) body
  end.

(** [for i := lo; i < hi; i++ { body }] *)
Definition for_loop (lo hi : Z) (body : Z → M unit) : M unit :=
  for_iter (Z.to_nat (hi - lo)) lo body.


(** *** Caller-owned and local slices

    [xs] and [ys] of [NewFitting] are only read, and [xpows] of [Add]
    never leaves the call, so they are plain lists; indexing and [make]
    panic as on any slice. *)

Definition local_get (l : list F) (i : Z) : M F :=
  if decide (0 ≤ i < Z.of_nat (length l)) then
    match l !! Z.to_nat i with
    | Some v => ret v
    | None => raise IndexOutOfRange
    end
  else raise IndexOutOfRange.

Definition make_local (len : Z) : M (list F) :=
  if decide (0 ≤ len) then ret (replicate (Z.to_nat len) fzero)
  else raise MakeSliceOutOfRange.

(** [v := float64(1); for i := 0; i < m; i++ { xpows[i] = v; v *= x }] *)
Fixpoint fill_xpows (count i : nat) (x v : F) (xpows : list F) : list F :=
  match count with
  | O => xpows
  | S c => fill_xpows c (S i) x (v ⊗ x) (<[i := v]> xpows)
  end.

(** ** The package *)

(** Add a point(x, y) into this fitting. *)
Definition Add (f : loc) (x y : F) : M unit :=
  let* fr := load f in
  let m := int_add (Degree fr) 1 in
  let* xpows0 := make_local m in
  let xpows := fill_xpows (Z.to_nat m) 0 x fone xpows0 in
  run for_loop 0 m (λ i,
        for_loop 0 m (λ j,
          let* fr := load f in
          let k := int_add (int_mul i m) j in
          let* a := index_get (xtx fr) k in
          let* xi := local_get xpows i in
          let* xj := local_get xpows j in
          index_set (xtx fr) k (a ⊕ xi ⊗ xj))) in
  run for_loop 0 m (λ i,
        let* fr := load f in
        let* a := index_get (xty fr) i in
        let* xi := local_get xpows i in
        index_set (xty fr) i (a ⊕ xi ⊗ y)) in
  let* fr := load f in
  store f (set_N fr (int_add (N fr) 1)).

(** NewFitting creates a new polynomial fitting context, with points and
    the degree of the polynomial. *)
Definition NewFitting (xs ys : list F) (degree : Z) : M loc :=
  let n := Z.of_nat (length xs) in
  let m := int_add degree 1 in
  let* sx := make (int_mul m m) (int_mul m m) in
  let* sy := make m m in
  let* f := new_struct (mkFitting 0 degree sx sy) in
  run for_loop 0 (int_mul m m) (λ i,
        let* fr := load f in index_set (xtx fr) i fzero) in
  run for_loop 0 m (λ i,
        let* fr := load f in index_set (xty fr) i fzero) in
  run for_loop 0 n (λ i,
        let* x := local_get xs i in
        let* y := local_get ys i in
        Add f x y) in
  ret f.

(** Copy into a new instance. *)
Definition Copy (f : loc) : M loc :=
  let* fr := load f in
  let* sx := make 0 (Z.of_nat (sl_len (xtx fr))) in
  let* sy := make 0 (Z.of_nat (sl_len (xty fr))) in
  let* b := new_struct (mkFitting (N fr) (Degree fr) sx sy) in
  let* br := load b in
  let* fr := load f in
  let* sx' := append (xtx br) (xtx fr) in
  run store b (set_xtx br sx') in
  let* br := load b in
  let* fr := load f in
  let* sy' := append (xty br) (xty fr) in
  run store b (set_xty br sy') in
  ret b.

(** Merge two sets of sample data. *)
Definition Merge (f b : loc) : M unit :=
  let* fr := load f in
  let* br := load b in
  if decide (Degree fr ≠ Degree br) then
    raise (DifferentDegree (Degree fr) (Degree br))
  else
    run store f (set_N fr (int_add (N fr) (N br))) in
    let* fr := load f in
    let m := int_add (Degree fr) 1 in
    for_loop 0 m (λ i,
      let* fr := load f in
      let* br := load b in
      let* a := index_get (xty fr) i in
      let* c := index_get (xty br) i in
      run index_set (xty fr) i (a ⊕ c) in
      for_loop 0 m (λ j,
        let* fr := load f in
        let* br := load b in
        let k := int_add (int_mul i m) j in
        let* a := index_get (xtx fr) k in
        let* c := index_get (xtx br) k in
        index_set (xtx fr) k (a ⊕ c))).


(** *** The part of gonum's [mat.Dense] that [Solve] uses

    A [Dense] built by [NewDense] is a view of the slice it is given.
    gonum refuses matrices with a zero dimension. *)

Record Dense := mkDense {
  d_rows : Z;
  d_cols : Z;
  d_stride : Z;
  d_data : slice;
  d_caprows : Z;
  d_capcols : Z
}.

(** [mat.NewDense(r, c, data)] for a non-nil [data]. *)
Definition NewDense (r c : Z) (data : slice) : M Dense :=
  if decide (r ≤ 0 ∨ c ≤ 0) then
    if decide (r = 0 ∨ c = 0) then raise ErrZeroLength
    else raise ErrNegativeDimension
  else if decide (int_mul r c ≠ Z.of_nat (sl_len data)) then raise ErrShape
  else ret (mkDense r c c data r c).

(** The slice expression [s[0:hi]]. *)
Definition reslice (s : slice) (hi : Z) : M slice :=
  if decide (0 ≤ hi ≤ Z.of_nat (sl_cap s)) then
    ret (Slice (sl_arr s) (Z.to_nat hi) (sl_cap s))
  else raise SliceBoundsOutOfRange.

(** [m.Slice(0, k, 0, l)]: the leading [k]×[l] block, sharing the data. *)
Definition Dense_Slice (m : Dense) (k l : Z) : M Dense :=
  let mr := d_caprows m in
  let mc := d_capcols m in
  if decide (mr ≤ 0 ∨ mc ≤ 0 ∨ k < 0 ∨ mr < k ∨ l < 0 ∨ mc < l) then
    if decide (0 = k ∨ 0 = l) then raise ErrZeroLength
    else raise ErrIndexOutOfRange
  else
    let* data := reslice (d_data m)
                   (int_add (int_mul (int_sub k 1) (d_stride m)) l) in
    ret (mkDense k l (d_stride m) data mr mc).

(** The leading [rows]×[cols] block of a row-major matrix with rows of
    length [stride]. *)
Definition block (rows cols stride : nat) (l : list F) : list F :=
  flat_map (λ i, map (λ j, default fzero (l !! (i * stride + j)%nat)) (seq 0 cols))
           (seq 0 rows).

(** The entries of a view, row by row. *)
Definition dense_entries (m : Dense) : M (list F) :=
  λ h, match contents h (d_data m) with
       | Some l =>
           Ok (block (Z.to_nat (d_rows m)) (Z.to_nat (d_cols m))
                     (Z.to_nat (d_stride m)) l) h
       | None => Panicked NilDereference h
       end.

(** [var beta mat.Dense; err := beta.Solve(coef, right)] for a one-column
    [right]: the receiver becomes a [rows(coef)]×1 matrix, kept here as the
    list of its entries. *)
Definition Dense_Solve (coef right : Dense) : M (list F * bool) :=
  if decide (d_rows coef ≠ d_rows right) then raise ErrShape
  else
    let* a := dense_entries coef in
    let* b := dense_entries right in
    let n := Z.to_nat (d_cols coef) in
    ret (map (mat_solve n a b) (seq 0 n), mat_solve_err n a b).

(** [beta.At(i, 0)] *)
Definition Dense_At (beta : list F) (i : Z) : M F :=
  if decide (0 ≤ i < Z.of_nat (length beta)) then
    match beta !! Z.to_nat i with
    | Some v => ret v
    | None => raise ErrRowAccess
    end
  else raise ErrRowAccess.

(** *** Closed forms for one, two and three unknowns *)

Definition determinant2 (v : slice) : M F :=
  let* a := index_get v 0 in
  let* b := index_get v 1 in
  let* c := index_get v 2 in
  let* d := index_get v 3 in
  ret (a ⊗ d ⊖ b ⊗ c).

Definition determinant3 (v : slice) : M F :=
  let* a := index_get v 0 in
  let* b := index_get v 1 in
  let* c := index_get v 2 in
  let* d := index_get v 3 in
  let* e := index_get v 4 in
  let* f := index_get v 5 in
  let* g := index_get v 6 in
  let* h := index_get v 7 in
  let* i := index_get v 8 in
  ret (a ⊗ e ⊗ i ⊕ b ⊗ f ⊗ g ⊕ c ⊗ d ⊗ h ⊖ c ⊗ e ⊗ g ⊖ b ⊗ d ⊗ i ⊖ a ⊗ f ⊗ h).

Definition solve1 (v y into : slice) : M unit :=
  let* y0 := index_get y 0 in
  let* v0 := index_get v 0 in
  index_set into 0 (y0 ⊘ v0).

Definition solve2 (v y into : slice) : M unit :=
  let* a := index_get v 0 in
  let* b := index_get v 1 in
  let* c := index_get v 2 in
  let* d := index_get v 3 in
  let* dd := determinant2 v in
  let* y0 := index_get y 0 in
  let* y1 := index_get y 1 in
  let dx1 := y0 ⊗ d ⊖ b ⊗ y1 in
  let dx2 := a ⊗ y1 ⊖ y0 ⊗ c in
  run index_set into 0 (dx1 ⊘ dd) in
  index_set into 1 (dx2 ⊘ dd).

Definition solve3 (v y into : slice) : M unit :=
  let* a := index_get v 0 in
  let* b := index_get v 1 in
  let* c := index_get v 2 in
  let* d := index_get v 3 in
  let* e := index_get v 4 in
  let* f := index_get v 5 in
  let* g := index_get v 6 in
  let* h := index_get v 7 in
  let* i := index_get v 8 in
  let* dd := determinant3 v in
  let* y0 := index_get y 0 in
  let* y1 := index_get y 1 in
  let* y2 := index_get y 2 in
  (* a d g *)
  let dx1 := y0 ⊗ e ⊗ i ⊕ b ⊗ f ⊗ y2 ⊕ c ⊗ y1 ⊗ h
             ⊖ c ⊗ e ⊗ y2 ⊖ b ⊗ y1 ⊗ i ⊖ y0 ⊗ f ⊗ h in
  (* b e h *)
  let dx2 := a ⊗ y1 ⊗ i ⊕ y0 ⊗ f ⊗ g ⊕ c ⊗ d ⊗ y2
             ⊖ c ⊗ y1 ⊗ g ⊖ y0 ⊗ d ⊗ i ⊖ a ⊗ f ⊗ y2 in
  (* c f i *)
  let dx3 := a ⊗ e ⊗ y2 ⊕ b ⊗ y1 ⊗ g ⊕ y0 ⊗ d ⊗ h
             ⊖ y0 ⊗ e ⊗ g ⊖ b ⊗ d ⊗ y2 ⊖ a ⊗ y1 ⊗ h in
  run index_set into 0 (dx1 ⊘ dd) in
  run index_set into 1 (dx2 ⊘ dd) in
  index_set into 2 (dx3 ⊘ dd).

(** The part of [Solve] behind the quick path: gonum's solver on the
    cached matrices, cut down to [N]×[N] when there are fewer points than
    coefficients. *)
Definition Solve_general (f : loc) (m : Z) : M slice :=
  let* fr := load f in
  let* coef := NewDense m m (xtx fr) in
  let* right := NewDense m 1 (xty fr) in
  let* fr := load f in
  let* sliced :=
    (if decide (int_add (Degree fr) 1 > N fr) then
       let m := N fr in
       let* coef := Dense_Slice coef m m in
       let* right := Dense_Slice right m 1 in
       ret (m, coef, right)
     else ret (m, coef, right)) in
  let m := sliced.1.1 in
  let coef := sliced.1.2 in
  let right := sliced.2 in
  let* solved := Dense_Solve coef right in
  let beta := solved.1 in
  (* _ = err *)
  let* fr := load f in
  let* rst := make (int_add (Degree fr) 1) (int_add (Degree fr) 1) in
  run for_loop 0 m (λ i,
        let* v := Dense_At beta i in index_set rst i v) in
  run for_loop m (int_add (Degree fr) 1) (λ i, index_set rst i fzero) in
  ret rst.

(** Solve the equation and returns coefficients of the result polynomial.
    The number of coefficients is f.Degree + 1. *)
Definition Solve (f : loc) : M slice :=
  let* fr := load f in
  let m := int_add (Degree fr) 1 in
  if decide (m ≤ N fr) then
    (* quick path *)
    let* rst := make m m in
    if decide (m = 1) then
      let* fr := load f in
      run solve1 (xtx fr) (xty fr) rst in ret rst
    else if decide (m = 2) then
      let* fr := load f in
      run solve2 (xtx fr) (xty fr) rst in ret rst
    else if decide (m = 3) then
      let* fr := load f in
      run solve3 (xtx fr) (xty fr) rst in ret rst
    else Solve_general f m
  else Solve_general f m.

(** ** What a fitter holds

    [view h p] reads the fitter at [p] out of the store: its two counters
    and the elements of its two caches. *)

Record stats := mkStats {
  s_N : Z;
  s_Degree : Z;
  s_xtx : list F;
  s_xty : list F
}.

Definition view (h : heap) (p : loc) : option stats :=
  f ← fittings h !! p;
  x ← contents h (xtx f);
  y ← contents h (xty f);
  Some (mkStats (N f) (Degree f) x y).

(** [x^n], multiplied up from [1] as the code does. *)
Fixpoint fpow (x : F) (n : nat) : F :=
  match n with
  | O => fone
  | S k => fpow x k ⊗ x
  end.

(** The vector [1, x, x², …, x^d]. *)
Definition powers (d : Z) (x : F) : list F :=
  map (fpow x) (seq 0 (Z.to_nat (d + 1))).

(** The outer product of [u] and [v], row by row. *)
Definition outer (u v : list F) : list F :=
  flat_map (λ a, map (λ b, a ⊗ b) v) u.

Definition vadd (u v : list F) : list F := zip_with fadd u v.

Definition scaled (y : F) (u : list F) : list F := map (λ a, a ⊗ y) u.

(** The statistics after one more point. *)
Definition add_point (st : stats) (x y : F) : stats :=
  mkStats (int_add (s_N st) 1) (s_Degree st)
          (vadd (s_xtx st) (outer (powers (s_Degree st) x) (powers (s_Degree st) x)))
          (vadd (s_xty st) (scaled y (powers (s_Degree st) x))).

(** The statistics of two fitters put together. *)
Definition merge_stats (st1 st2 : stats) : stats :=
  mkStats (int_add (s_N st1) (s_N st2)) (s_Degree st1)
          (vadd (s_xtx st1) (s_xtx st2))
          (vadd (s_xty st1) (s_xty st2)).

(** The statistics of no point at all. *)
Definition empty_stats (d : Z) : stats :=
  mkStats 0 d (replicate (Z.to_nat ((d + 1) * (d + 1))) fzero)
              (replicate (Z.to_nat (d + 1)) fzero).

Definition add_points (st : stats) (pts : list (F * F)) : stats :=
  fold_left (λ st pt, add_point st pt.1 pt.2) pts st.

(** [Add] on each point of a list, in order. *)
Fixpoint Add_all (f : loc) (pts : list (F * F)) : M unit :=
  match pts with
  | [] => ret tt
  | pt :: rest => run Add f pt.1 pt.2 in Add_all f rest
  end.

(** ** Invariant of the store

    Every slice of a fitter covers its whole backing array, the caches
    have the sizes [NewFitting] gave them, no array belongs to two
    caches, and [N] is a Go [int]. *)

Definition backed (h : heap) (s : slice) : Prop :=
  ∃ l, arrays h !! sl_arr s = Some l ∧ length l = sl_len s ∧ sl_cap s = sl_len s.

Definition shaped (f : Fitting) : Prop :=
  0 ≤ Degree f ∧
  (Degree f + 1) * (Degree f + 1) ≤ int_max ∧
  Z.of_nat (sl_len (xtx f)) = (Degree f + 1) * (Degree f + 1) ∧
  Z.of_nat (sl_len (xty f)) = Degree f + 1.

Definition owned (f : Fitting) : list loc := [sl_arr (xtx f); sl_arr (xty f)].

Record wf_heap (h : heap) : Prop := {
  wf_backed : ∀ p f, fittings h !! p = Some f → backed h (xtx f) ∧ backed h (xty f);
  wf_shaped : ∀ p f, fittings h !! p = Some f → shaped f;
  wf_own : ∀ p f, fittings h !! p = Some f → sl_arr (xtx f) ≠ sl_arr (xty f);
  wf_sep : ∀ p q f g, p ≠ q → fittings h !! p = Some f → fittings h !! q = Some g →
           ∀ a b, a ∈ owned f → b ∈ owned g → a ≠ b;
  wf_count : ∀ p f, fittings h !! p = Some f → int_min ≤ N f ≤ int_max
}.

Definition stats_shaped (st : stats) : Prop :=
  0 ≤ s_Degree st ∧ (s_Degree st + 1) * (s_Degree st + 1) ≤ int_max ∧
  Z.of_nat (length (s_xtx st)) = (s_Degree st + 1) * (s_Degree st + 1) ∧
  Z.of_nat (length (s_xty st)) = s_Degree st + 1.

(** ** Linear systems

    An [n]×[n] matrix is the row-major list of its entries, as [xtx] is. *)

Definition entry (n : nat) (A : list F) (r c : nat) : F :=
  default fzero (A !! (r * n + c)%nat).

(** The matrix without its first row and without column [c]. *)
Definition minor (n : nat) (A : list F) (c : nat) : list F :=
  flat_map (λ r, map (λ j, entry n A (S r) (if (j <? c)%nat then j else S j))
                     (seq 0 (n - 1)))
           (seq 0 (n - 1)).

(** [t0 - t1 + t2 - ...] *)
Fixpoint alt_sum (plus : bool) (acc : F) (ts : list F) : F :=
  match ts with
  | [] => acc
  | t :: rest => alt_sum (negb plus) (if plus then acc ⊕ t else acc ⊖ t) rest
  end.

(** The determinant, expanded along the first row. *)
Fixpoint det (n : nat) (A : list F) : F :=
  match n with
  | O => fone
  | S k => alt_sum true fzero
             (map (λ c, entry (S k) A 0 c ⊗ det k (minor (S k) A c)) (seq 0 (S k)))
  end.

(** The matrix with column [c] replaced by the vector [y]. *)
Definition replace_col (n : nat) (A : list F) (c : nat) (y : list F) : list F :=
  flat_map (λ r, map (λ j, if (j =? c)%nat then default fzero (y !! r)
                           else entry n A r j) (seq 0 n))
           (seq 0 n).

(** Cramer's rule: unknown [c] is [det A_c / det A]. *)
Definition cramer (n : nat) (A y : list F) : list F :=
  map (λ c, det n (replace_col n A c y) ⊘ det n A) (seq 0 n).

Definition dot (u v : list F) : F := fold_left fadd (zip_with fmul u v) fzero.

(** The product of the matrix [A] and the vector [b]. *)
Definition mat_vec (n : nat) (A b : list F) : list F :=
  map (λ r, dot (map (entry n A r) (seq 0 n)) b) (seq 0 n).

Definition fsum (l : list F) : F := fold_left fadd l fzero.

(** [n] as a number of the arithmetic: [1 + ... + 1]. *)
Definition fcount (n : nat) : F := fsum (replicate n fone).

(** What [solve1], [solve2] and [solve3] write into [into], as a function
    of the elements of [v] and [y]. *)
Definition closed_form (v y : list F) : list F :=
  match v, y with
  | [v0], [y0] => [y0 ⊘ v0]
  | [a; b; c; d], [y0; y1] =>
      let dd := a ⊗ d ⊖ b ⊗ c in
      let dx1 := y0 ⊗ d ⊖ b ⊗ y1 in
      let dx2 := a ⊗ y1 ⊖ y0 ⊗ c in
      [dx1 ⊘ dd; dx2 ⊘ dd]
  | [a; b; c; d; e; f; g; h; i], [y0; y1; y2] =>
      let dd := a ⊗ e ⊗ i ⊕ b ⊗ f ⊗ g ⊕ c ⊗ d ⊗ h ⊖ c ⊗ e ⊗ g ⊖ b ⊗ d ⊗ i ⊖ a ⊗ f ⊗ h in
      let dx1 := y0 ⊗ e ⊗ i ⊕ b ⊗ f ⊗ y2 ⊕ c ⊗ y1 ⊗ h
                 ⊖ c ⊗ e ⊗ y2 ⊖ b ⊗ y1 ⊗ i ⊖ y0 ⊗ f ⊗ h in
      let dx2 := a ⊗ y1 ⊗ i ⊕ y0 ⊗ f ⊗ g ⊕ c ⊗ d ⊗ y2
                 ⊖ c ⊗ y1 ⊗ g ⊖ y0 ⊗ d ⊗ i ⊖ a ⊗ f ⊗ y2 in
      let dx3 := a ⊗ e ⊗ y2 ⊕ b ⊗ y1 ⊗ g ⊕ y0 ⊗ d ⊗ h
                 ⊖ y0 ⊗ e ⊗ g ⊖ b ⊗ d ⊗ y2 ⊖ a ⊗ y1 ⊗ h in
      [dx1 ⊘ dd; dx2 ⊘ dd; dx3 ⊘ dd]
  | _, _ => []
  end.

(** What the general path of [Solve] returns for [n] equations and
    [m] coefficients: the solver's answer for the leading block, then
    zeros. *)
Definition solved_block (n m : nat) (v y : list F) : list F :=
  map (mat_solve n (block n n m v) (block n 1 1 y)) (seq 0 n) ++
  replicate (m - n) fzero.

(** What [Solve] returns for a fitter with counters as in [f] and caches
    holding [v] and [y]: the closed form on the quick path, the solver's
    answer otherwise. *)
Definition solution (f : Fitting) (v y : list F) : list F :=
  if decide (Degree f + 1 ≤ N f ∧ Degree f ≤ 2) then closed_form v y
  else solved_block (Z.to_nat (Z.min (Degree f + 1) (N f)))
                    (Z.to_nat (Degree f + 1)) v y.

(** [mix k new old]: an array being rewritten from the left, the first [k]
    cells already new. *)
Definition mix (k : nat) (new old : list F) : list F := take k new ++ drop k old.

(** The store after the fitter [f] at [p] got a new count and new cache
    contents. *)
Definition put_fitter (h : heap) (p : loc) (f : Fitting) (n : Z) (nx ny : list F) : heap :=
  Heap (<[sl_arr (xty f) := ny]> (<[sl_arr (xtx f) := nx]> (arrays h)))
       (<[p := set_N f n]> (fittings h)).

(** The store after a fitter holding [st] was allocated at [b], with its
    caches at [a1] and [a2]. *)
Definition with_fitter (h : heap) (b a1 a2 : loc) (st : stats) : heap :=
  Heap (<[a2 := s_xty st]> (<[a1 := s_xtx st]> (arrays h)))
       (<[b := mkFitting (s_N st) (s_Degree st)
                 (Slice a1 (length (s_xtx st)) (length (s_xtx st)))
                 (Slice a2 (length (s_xty st)) (length (s_xty st)))]> (fittings h)).

(** Where the next fitter and its two caches are allocated. *)
Definition fresh_fitter (h : heap) : loc := fresh (dom (fittings h)).
Definition fresh_xtx (h : heap) : loc := fresh (dom (arrays h)).
Definition fresh_xty (h : heap) : loc := fresh ({[fresh_xtx h]} ∪ dom (arrays h)).

(** The store an operation leaves behind, whether it returned or
    panicked. *)
Definition final_heap {A} (o : outcome A) : heap :=
  match o with
  | Ok _ h => h
  | Panicked _ h => h
  end.

End Model.

Arguments Ok {F A} a h.
Arguments Panicked {F A} p h.

(** ** Instances for the examples *)

(** A stand-in for gonum's solver: Cramer's rule with the determinant
    above, never reporting an error. *)
Definition cramer_solver {F : Type} {arith : Arith F} : LinSolver F := {|
  mat_solve n a b i := default fzero (cramer n a b !! i);
  mat_solve_err n a b := false
|}.

(** A stand-in that reports every system as singular and leaves zeros
    in the receiver. *)
Definition refusing_solver {F : Type} {arith : Arith F} : LinSolver F := {|
  mat_solve n a b i := fzero;
  mat_solve_err n a b := true
|}.

Definition empty_heap {F : Type} : heap (F:=F) := Heap ∅ ∅.

(** The store after [NewFitting(xs, ys, degree)] in an empty program. *)
Definition after_NewFitting {F : Type} {arith : Arith F}
    (xs ys : list F) (degree : Z) : heap (F:=F) :=
  final_heap (NewFitting xs ys degree empty_heap).

(** The first and the second fitter allocated in an empty program. *)
Definition first_fitter : loc := 1%positive.
Definition second_fitter : loc := 2%positive.

(** The store after two calls of [NewFitting]. *)
Definition after_two {F : Type} {arith : Arith F}
    (xsA ysA : list F) (dA : Z) (xsB ysB : list F) (dB : Z) : heap (F:=F) :=
  final_heap (NewFitting xsB ysB dB (after_NewFitting xsA ysA dA)).

Definition points_stats {F : Type} {arith : Arith F}
    (xs ys : list F) (degree : Z) : stats (F:=F) :=
  add_points (empty_stats degree) (zip xs ys).

(** The line example of the package documentation: the points (1, 0) and
    (2, 1), degree 1. *)
Definition line_xs : list float := [1; 2]%float.
Definition line_ys : list float := [0; 1]%float.

(** Scenario S2 of the specification: 0, 15, 33, 50 at x = 0, 1, 2, 3. *)
Definition S2_xs : list float := [0; 1; 2; 3]%float.
Definition S2_ys : list float := [0; 15; 33; 50]%float.

Definition rat (a : Z) (b : positive) : Qcanon.Qc := Qcanon.Q2Qc (QArith_base.Qmake a b).
Definition S2_xs_exact : list Qcanon.Qc := [rat 0 1; rat 1 1; rat 2 1; rat 3 1].
Definition S2_ys_exact : list Qcanon.Qc := [rat 0 1; rat 15 1; rat 33 1; rat 50 1].


(** The parabola y = x² at x = 1000, 1001, 1002, 1003. *)
Definition squares_xs : list float := [1000; 1001; 1002; 1003]%float.
Definition squares_ys : list float := [1000000; 1002001; 1004004; 1006009]%float.

(** ** Printing

    [fmt.Sprintf] and [strings.Join] belong to Go's standard library.
    ["%d"] is the decimal numeral of an [int]; of ["%3.3f"] only the text
    it yields for a number is needed, and is a parameter. *)

Class Printer (F : Type) := {
  sprintf_3_3f : F → string
}.

(** [strings.Join(elems, sep)] *)
Fixpoint Join (elems : list string) (sep : string) : string :=
  match elems with
  | [] => ""
  | [s] => s
  | s :: rest => s +:+ sep +:+ Join rest sep
  end.

Definition newline : string := String (Ascii.ascii_of_nat 10) "".

Section Printing.

Context {F : Type} {arith : Arith F} {printer : Printer F}.

Notation "'let*' v := m 'in' c" := (bind m (λ v, c))
  (at level 10, v name, m at level 100, c at level 200).

(** A loop that carries a local variable: [count] iterations of [body],
    on [i], [i+1], ..., each from the value the last one left. *)
Fixpoint for_fold {A} (count : nat) (i : Z) (body : Z → A → M (F:=F) A) (acc : A) : M A :=
  match count with
  | O => ret acc
  | S c => let* acc' := body i acc in for_fold c (int_add i 1) body acc'
  end.

Definition for_range {A} (lo hi : Z) (body : Z → A → M (F:=F) A) (acc : A) : M A :=
  for_fold (Z.to_nat (hi - lo)) lo body acc.

Definition matrixStrings (f : loc) (mat : slice) : M (list string) :=
  let* fr := load f in
  let m := int_add (Degree fr) 1 in
  for_range 0 m (λ i ss,
    let* line := for_range 0 m (λ j line,
                   let* v := index_get mat (int_add (int_mul i m) j) in
                   ret (line ++ [sprintf_3_3f v])) [] in
    let linestr := Join line " " in
    ret (ss ++ [linestr])) [].

(** String converts the object into human readable format. *)
Definition String (f : loc) : M string :=
  let* fr := load f in
  let m := int_add (Degree fr) 1 in
  let ss := [] in
  let* fr := load f in
  let* xtx := matrixStrings f (xtx fr) in
  let* fr := load f in
  let ss := ss ++ ["n=" +:+ pretty (N fr) +:+ " degree=" +:+ pretty (Degree fr)] in
  let ss := ss ++ xtx in
  let ss := ss ++ [""] in
  let* ss := for_range 0 m (λ i ss,
               let* fr := load f in
               let* v := index_get (xty fr) i in
               ret (ss ++ [sprintf_3_3f v])) ss in
  ret (Join ss newline).

End Printing.

(** A stand-in for ["%3.3f"] on float64, for the examples: the decimal
    numeral with three digits behind the point, rounded to nearest, ties
    to even. *)
Definition pad3 (n : Z) : string :=
  if n <? 10 then "00" +:+ pretty n
  else if n <? 100 then "0" +:+ pretty n
  else pretty n.

Definition round_half_even (num den : Z) : Z :=
  let q := num / den in
  let r := num mod den in
  if 2 * r <? den then q
  else if den <? 2 * r then q + 1
  else if Z.even q then q else q + 1.

Definition thousandths (m : positive) (e : Z) : Z :=
  if 0 <=? e then Z.pos m * 2 ^ e * 1000
  else round_half_even (Z.pos m * 1000) (2 ^ (- e)).

Definition float64_3f (v : float) : string :=
  match FloatOps.Prim2SF v with
  | SpecFloat.S754_nan => "NaN"
  | SpecFloat.S754_infinity s => if s then "-Inf" else "+Inf"
  | SpecFloat.S754_zero s => (if s then "-" else "") +:+ "0.000"
  | SpecFloat.S754_finite s m e =>
      let t := thousandths m e in
      (if s then "-" else "") +:+ pretty (t / 1000) +:+ "." +:+ pad3 (t mod 1000)
  end.

Definition float64_printer : Printer float := {| sprintf_3_3f := float64_3f |}.

(** The store after three calls of [NewFitting], and the third fitter. *)
Definition third_fitter : loc := 3%positive.

Definition after_three {F : Type} {arith : Arith F}
    (xsA ysA : list F) (dA : Z) (xsB ysB : list F) (dB : Z)
    (xsC ysC : list F) (dC : Z) : heap (F:=F) :=
  final_heap (NewFitting xsC ysC dC (after_two xsA ysA dA xsB ysB dB)).

(** ** Notions for the contents of the caches *)

Section Notions.

Context {F : Type} {arith : Arith F}.
Local Open Scope arith_scope.

(** A row-major [n]×[n] matrix that equals its transpose. *)
Definition symmetric (n : nat) (A : list F) : Prop :=
  ∀ r c : nat, (r < n)%nat → (c < n)%nat → entry n A r c = entry n A c r.

(** [t] summed over the points from the left, [((0 + t p₀) + t p₁) + …],
    the order in which repeated [Add] accumulates. *)
Definition sum_over (pts : list (F * F)) (t : F * F → F) : F :=
  fold_left (λ acc pt, acc ⊕ t pt) pts fzero.

End Notions.


(* ------------------------------------------------------------------ *)
(** * Properties *)

Section Properties.

Context {F : Type} {arith : Arith F} {solver : LinSolver F}.
Local Open Scope arith_scope.

Notation "'let*' v := m 'in' c" := (bind m (λ v, c))
  (at level 10, v name, m at level 100, c at level 200).
Notation "'run' m 'in' c" := (bind m (λ _, c))
  (at level 10, m at level 100, c at level 200).

Implicit Types (h : heap (F:=F)) (p q : loc) (f g : Fitting) (s : slice)
  (l : list F) (i j k : Z) (x y : F) (st : stats (F:=F)).

(** ** Machine integers *)

Lemma wrap_id z : int_min ≤ z ≤ int_max → wrap z = z.
Proof.
  unfold int_min, int_max, wrap. intros Hz.
  rewrite Z.mod_small; lia.
Qed.

Lemma int_add_id a b : int_min ≤ a + b ≤ int_max → int_add a b = a + b.
Proof. apply wrap_id. Qed.

Lemma int_mul_id a b : int_min ≤ a * b ≤ int_max → int_mul a b = a * b.
Proof. apply wrap_id. Qed.

Lemma int_sub_id a b : int_min ≤ a - b ≤ int_max → int_sub a b = a - b.
Proof. apply wrap_id. Qed.

Lemma int_bounds : int_min < 0 ∧ 0 < int_max ∧ int_min = - int_max - 1.
Proof. unfold int_min, int_max. lia. Qed.

Lemma wrap_range z : int_min ≤ wrap z ≤ int_max.
Proof.
  unfold wrap, int_min, int_max.
  pose proof (Z.mod_pos_bound (z + 2 ^ 63) (2 ^ 64) ltac:(lia)). lia.
Qed.

Lemma wrap_add_l a b : wrap (wrap a + b) = wrap (a + b).
Proof.
  unfold wrap.
  replace ((a + 2 ^ 63) mod 2 ^ 64 - 2 ^ 63 + b + 2 ^ 63)
    with ((a + 2 ^ 63) mod 2 ^ 64 + b) by lia.
  rewrite Zplus_mod_idemp_l. f_equal. f_equal. lia.
Qed.

Lemma wrap_add_r a b : wrap (a + wrap b) = wrap (a + b).
Proof. rewrite (Z.add_comm a (wrap b)), wrap_add_l. f_equal. lia. Qed.

Lemma int_add_assoc a b c : int_add a (int_add b c) = int_add (int_add a b) c.
Proof.
  unfold int_add. rewrite wrap_add_l, wrap_add_r. f_equal. lia.
Qed.

(** ** The monad *)

Lemma bind_Ok {A B} (m : M A) (c : A → M B) h a h' :
  m h = Ok a h' → bind m c h = c a h'.
Proof. unfold bind. intros ->. reflexivity. Qed.

Lemma bind_Panicked {A B} (m : M A) (c : A → M B) h e h' :
  m h = Panicked e h' → bind m c h = Panicked e h'.
Proof. unfold bind. intros ->. reflexivity. Qed.

Lemma bind_ret {A B} (a : A) (c : A → M (F:=F) B) : bind (ret a) c = c a.
Proof. reflexivity. Qed.

Lemma bind_assoc {A B C} (m : M A) (c : A → M B) (c' : B → M C) h :
  bind (bind m c) c' h = bind m (λ a, bind (c a) c') h.
Proof. unfold bind. destruct (m h); reflexivity. Qed.

(** ** Store primitives *)

Lemma load_Ok h p f : fittings h !! p = Some f → load p h = Ok f h.
Proof. unfold load. intros ->. reflexivity. Qed.

Lemma store_Ok h p f g :
  fittings h !! p = Some f →
  store p g h = Ok tt (Heap (arrays h) (<[p := g]> (fittings h))).
Proof. unfold store. intros ->. reflexivity. Qed.

Lemma index_get_Ok h s i l v :
  arrays h !! sl_arr s = Some l →
  0 ≤ i < Z.of_nat (sl_len s) →
  l !! Z.to_nat i = Some v →
  index_get s i h = Ok v h.
Proof.
  intros Ha Hi Hv. unfold index_get.
  rewrite decide_True by done. rewrite Ha. simpl. rewrite Hv. reflexivity.
Qed.

Lemma index_set_Ok h s i l v :
  arrays h !! sl_arr s = Some l →
  0 ≤ i < Z.of_nat (sl_len s) →
  index_set s i v h =
    Ok tt (Heap (<[sl_arr s := <[Z.to_nat i := v]> l]> (arrays h)) (fittings h)).
Proof.
  intros Ha Hi. unfold index_set.
  rewrite decide_True by done. rewrite Ha. reflexivity.
Qed.

Lemma local_get_Ok l i v h :
  0 ≤ i → l !! Z.to_nat i = Some v → local_get l i h = Ok v h.
Proof.
  intros Hi Hv. unfold local_get.
  assert (Z.to_nat i < length l)%nat by (eapply lookup_lt_Some; eauto).
  rewrite decide_True by lia. rewrite Hv. reflexivity.
Qed.

Lemma local_get_out l i h :
  Z.of_nat (length l) ≤ i → local_get l i h = Panicked IndexOutOfRange h.
Proof. intros Hi. unfold local_get. rewrite decide_False by lia. reflexivity. Qed.

(** ** Arrays rewritten from the left *)

Lemma mix_0 (new old : list F) : mix 0 new old = old.
Proof. reflexivity. Qed.

Lemma mix_all (new old : list F) :
  length new = length old → mix (length old) new old = new.
Proof.
  intros E. unfold mix. rewrite drop_all, app_nil_r.
  apply take_ge. lia.
Qed.

Lemma length_mix n (new old : list F) :
  length new = length old → length (mix n new old) = length old.
Proof.
  intros E. unfold mix. rewrite length_app, length_take, length_drop. lia.
Qed.

Lemma lookup_mix_ge n m (new old : list F) :
  length new = length old → (n ≤ m)%nat → mix n new old !! m = old !! m.
Proof.
  intros E Hle. unfold mix.
  destruct (decide (n ≤ length old)%nat) as [Hn|Hn].
  - rewrite lookup_app_r; rewrite length_take; [|lia].
    rewrite lookup_drop. f_equal. lia.
  - rewrite drop_ge, app_nil_r by lia. rewrite take_ge by lia.
    rewrite !lookup_ge_None_2; [done| lia | lia].
Qed.

Lemma lookup_mix_lt n m (new old : list F) :
  (m < n)%nat → length new = length old → mix n new old !! m = new !! m.
Proof.
  intros Hlt E. unfold mix.
  destruct (decide (m < length new)%nat) as [Hm|Hm].
  - rewrite lookup_app_l by (rewrite length_take; lia).
    apply lookup_take_lt. lia.
  - rewrite take_ge, drop_ge, app_nil_r by lia. done.
Qed.

Lemma insert_mix n (new old : list F) v :
  length new = length old → new !! n = Some v →
  <[n := v]> (mix n new old) = mix (S n) new old.
Proof.
  intros E Hv.
  assert (n < length new)%nat as Hn by (eapply lookup_lt_Some; eauto).
  apply list_eq. intros m.
  destruct (decide (m = n)) as [->|Hne].
  - rewrite list_lookup_insert_eq by (rewrite length_mix; lia).
    rewrite lookup_mix_lt by lia. done.
  - rewrite list_lookup_insert_ne by done.
    destruct (decide (m < n)%nat).
    + rewrite !lookup_mix_lt by lia. done.
    + rewrite !lookup_mix_ge by lia. done.
Qed.

(** ** Loops *)

Lemma for_iter_inv (I : nat → heap → Prop) count i0 body h :
  int_min ≤ i0 → i0 + Z.of_nat count ≤ int_max →
  I 0%nat h →
  (∀ n h1, (n < count)%nat → I n h1 →
     ∃ h2, body (i0 + Z.of_nat n) h1 = Ok tt h2 ∧ I (S n) h2) →
  ∃ h', for_iter count i0 body h = Ok tt h' ∧ I count h'.
Proof.
  revert I i0 h. induction count as [|c IH]; intros I i0 h Hlo Hhi H0 Hstep.
  - exists h. split; [reflexivity | exact H0].
  - destruct (Hstep 0%nat h ltac:(lia) H0) as (h1 & Hb & H1).
    replace (i0 + Z.of_nat 0) with i0 in Hb by lia.
    destruct (IH (λ n, I (S n)) (i0 + 1) h1) as (h' & Hrun & HI); [lia | lia | exact H1 | |].
    + intros n h2 Hn Hn2.
      destruct (Hstep (S n) h2 ltac:(lia) Hn2) as (h3 & Hb3 & H3).
      exists h3. split; [|exact H3].
      rewrite <- Hb3. f_equal. lia.
    + exists h'. split; [|exact HI].
      simpl. rewrite (bind_Ok _ _ _ _ _ Hb).
      rewrite int_add_id by lia. exact Hrun.
Qed.

Lemma for_loop_inv (I : Z → heap → Prop) lo hi body h :
  int_min ≤ lo → lo ≤ hi → hi ≤ int_max →
  I lo h →
  (∀ i h1, lo ≤ i < hi → I i h1 → ∃ h2, body i h1 = Ok tt h2 ∧ I (i + 1) h2) →
  ∃ h', for_loop lo hi body h = Ok tt h' ∧ I hi h'.
Proof.
  intros Hlo Hle Hhi H0 Hstep. unfold for_loop.
  destruct (for_iter_inv (λ n, I (lo + Z.of_nat n)) (Z.to_nat (hi - lo)) lo body h)
    as (h' & Hrun & HI); [lia | lia | | |].
  - replace (lo + Z.of_nat 0) with lo by lia. exact H0.
  - intros n h1 Hn Hn1.
    destruct (Hstep (lo + Z.of_nat n) h1 ltac:(lia) Hn1) as (h2 & Hb & H2).
    exists h2. split; [exact Hb|].
    replace (lo + Z.of_nat (S n)) with (lo + Z.of_nat n + 1) by lia. exact H2.
  - exists h'. split; [exact Hrun|].
    replace (lo + Z.of_nat (Z.to_nat (hi - lo))) with hi in HI by lia. exact HI.
Qed.

Lemma for_loop_empty lo hi body h : hi ≤ lo → for_loop lo hi body h = Ok tt h.
Proof.
  intros Hle. unfold for_loop.
  replace (Z.to_nat (hi - lo)) with 0%nat by lia. reflexivity.
Qed.

Lemma for_iter_panics (I : nat → heap → Prop) (Q : heap → Prop) count n0 i0 body h e :
  int_min ≤ i0 → i0 + Z.of_nat count ≤ int_max → (n0 < count)%nat →
  I 0%nat h →
  (∀ n h1, (n < n0)%nat → I n h1 →
     ∃ h2, body (i0 + Z.of_nat n) h1 = Ok tt h2 ∧ I (S n) h2) →
  (∀ h1, I n0 h1 → ∃ h2, body (i0 + Z.of_nat n0) h1 = Panicked e h2 ∧ Q h2) →
  ∃ h', for_iter count i0 body h = Panicked e h' ∧ Q h'.
Proof.
  revert I count i0 h. induction n0 as [|n0 IH]; intros I count i0 h Hlo Hhi Hlt H0 Hstep Hbad.
  - destruct count as [|c]; [lia|].
    destruct (Hbad h H0) as (h2 & Hb & HQ).
    replace (i0 + Z.of_nat 0) with i0 in Hb by lia.
    exists h2. split; [|exact HQ]. simpl. apply bind_Panicked. exact Hb.
  - destruct count as [|c]; [lia|].
    destruct (Hstep 0%nat h ltac:(lia) H0) as (h1 & Hb & H1).
    replace (i0 + Z.of_nat 0) with i0 in Hb by lia.
    destruct (IH (λ n, I (S n)) c (i0 + 1) h1) as (h' & Hrun & HQ); [lia | lia | lia | exact H1 | | |].
    + intros n h2 Hn Hn2.
      destruct (Hstep (S n) h2 ltac:(lia) Hn2) as (h3 & Hb3 & H3).
      exists h3. split; [|exact H3]. rewrite <- Hb3. f_equal. lia.
    + intros h2 Hn2. destruct (Hbad h2 Hn2) as (h3 & Hb3 & H3).
      exists h3. split; [|exact H3]. rewrite <- Hb3. f_equal. lia.
    + exists h'. split; [|exact HQ].
      simpl. rewrite (bind_Ok _ _ _ _ _ Hb).
      rewrite int_add_id by lia. exact Hrun.
Qed.

(** ** Powers and outer products *)

Lemma fill_xpows_spec c n x l :
  length l = (n + c)%nat →
  fill_xpows c n x (fpow x n) l = take n l ++ map (fpow x) (seq n c).
Proof.
  revert n l. induction c as [|c IH]; intros n l Hl; simpl.
  - rewrite app_nil_r. symmetry. apply take_ge. lia.
  - change (fpow x n ⊗ x) with (fpow x (S n)).
    rewrite IH by (rewrite length_insert; lia).
    rewrite (take_S_r _ _ (fpow x n)) by (apply list_lookup_insert_eq; lia).
    rewrite take_insert_ge by lia.
    rewrite <- app_assoc. reflexivity.
Qed.

Lemma fill_xpows_powers d x :
  0 ≤ d + 1 →
  fill_xpows (Z.to_nat (d + 1)) 0 x fone (replicate (Z.to_nat (d + 1)) fzero) = powers d x.
Proof.
  intros Hd. change fone with (fpow x 0).
  rewrite fill_xpows_spec by (rewrite length_replicate; lia).
  reflexivity.
Qed.

Lemma length_powers d x : length (powers d x) = Z.to_nat (d + 1).
Proof. unfold powers. rewrite length_map, length_seq. reflexivity. Qed.

Lemma lookup_powers d x n :
  (n < Z.to_nat (d + 1))%nat → powers d x !! n = Some (fpow x n).
Proof.
  intros Hn. unfold powers. rewrite list_lookup_fmap.
  rewrite lookup_seq_lt by done. reflexivity.
Qed.

Lemma length_outer (u v : list F) : length (outer u v) = (length u * length v)%nat.
Proof.
  unfold outer. induction u as [|a u IH]; simpl; [reflexivity|].
  rewrite length_app, length_map, IH. reflexivity.
Qed.

Lemma lookup_outer (u v : list F) n m a b :
  u !! n = Some a → v !! m = Some b →
  outer u v !! (n * length v + m)%nat = Some (a ⊗ b).
Proof.
  unfold outer. revert n. induction u as [|a' u IH]; intros n Ha Hb; [done|].
  assert (m < length v)%nat by (eapply lookup_lt_Some; eauto).
  destruct n as [|n]; simpl in *.
  - injection Ha as ->.
    rewrite lookup_app_l by (rewrite length_map; lia).
    rewrite list_lookup_fmap, Hb. reflexivity.
  - rewrite lookup_app_r by (rewrite length_map; lia).
    rewrite length_map.
    replace (length v + n * length v + m - length v)%nat with (n * length v + m)%nat by lia.
    apply IH; done.
Qed.

Lemma length_vadd (u v : list F) : length v = length u → length (vadd u v) = length u.
Proof. intros E. unfold vadd. rewrite length_zip_with. lia. Qed.

Lemma lookup_vadd (u v : list F) n a b :
  u !! n = Some a → v !! n = Some b → vadd u v !! n = Some (a ⊕ b).
Proof. intros Ha Hb. unfold vadd. rewrite lookup_zip_with, Ha. simpl. rewrite Hb. reflexivity. Qed.

(** ** [Add] *)

Tactic Notation "loop_inv" constr(I) "as" simple_intropattern(pat) :=
  match goal with
  | |- context [bind (for_loop ?lo ?hi ?body) _ ?h] =>
      destruct (for_loop_inv I lo hi body h) as pat
  | |- context [for_loop ?lo ?hi ?body ?h] =>
      destruct (for_loop_inv I lo hi body h) as pat
  end.

Lemma shaped_bounds f :
  shaped f →
  0 ≤ Degree f ∧ int_add (Degree f) 1 = Degree f + 1 ∧
  Degree f + 1 ≤ int_max ∧ (Degree f + 1) * (Degree f + 1) ≤ int_max.
Proof.
  intros (Hd & Hm & _ & _). pose proof int_bounds.
  assert (Degree f + 1 ≤ (Degree f + 1) * (Degree f + 1)) by nia.
  repeat split; try lia. apply int_add_id. lia.
Qed.

Lemma cell_index i j m :
  0 ≤ i < m → 0 ≤ j < m → m * m ≤ int_max →
  int_add (int_mul i m) j = i * m + j ∧ 0 ≤ i * m + j < m * m ∧
  Z.to_nat (i * m + j) = (Z.to_nat i * Z.to_nat m + Z.to_nat j)%nat.
Proof.
  intros Hi Hj Hm. pose proof int_bounds.
  assert (0 ≤ i * m) by nia.
  assert (i * m + j < m * m) by nia.
  rewrite int_mul_id by nia. rewrite int_add_id by lia.
  repeat split; try lia.
Qed.

Lemma Add_run h p f lx ly x y :
  wf_heap h → fittings h !! p = Some f →
  arrays h !! sl_arr (xtx f) = Some lx → arrays h !! sl_arr (xty f) = Some ly →
  Add p x y h =
    Ok tt (put_fitter h p f (int_add (N f) 1)
             (vadd lx (outer (powers (Degree f) x) (powers (Degree f) x)))
             (vadd ly (scaled y (powers (Degree f) x)))).
Proof.
  intros Hwf Hp Hx Hy. unfold put_fitter.
  destruct (wf_backed _ Hwf _ _ Hp) as [(lx' & Hx' & Hlx & _) (ly' & Hy' & Hly & _)].
  rewrite Hx in Hx'. rewrite Hy in Hy'. simplify_eq.
  pose proof (wf_shaped _ Hwf _ _ Hp) as Hsh.
  pose proof (wf_own _ Hwf _ _ Hp) as Hne.
  destruct (shaped_bounds _ Hsh) as (Hd & Hm & Hmmax & Hmm).
  destruct Hsh as (_ & _ & Hlenx & Hleny).
  pose proof int_bounds as [Hmin Hmax].
  destruct h as [ars fits]. simpl in *.
  unfold Add.
  erewrite bind_Ok by (apply load_Ok; exact Hp). rewrite Hm.
  unfold make_local. rewrite decide_True by lia. rewrite bind_ret.
  rewrite fill_xpows_powers by lia.
  set (m := Degree f + 1) in *.
  set (xp := powers (Degree f) x).
  set (newx := vadd lx' (outer xp xp)).
  set (newy := vadd ly' (scaled y xp)).
  assert (length xp = Z.to_nat m) as Hxp by apply length_powers.
  assert (length newx = length lx') as Hnewx.
  { apply length_vadd. rewrite length_outer, Hxp. nia. }
  assert (length newy = length ly') as Hnewy.
  { apply length_vadd. unfold scaled. rewrite length_map. lia. }
  (* the XᵀX loop *)
  loop_inv (λ i h1, h1 = Heap (<[sl_arr (xtx f) := mix (Z.to_nat (i * m)) newx lx']> ars) fits)
    as (h1 & Hrun1 & ->); [lia | lia | lia | | |].
  { simpl. rewrite insert_id by done. reflexivity. }
  { intros i h1 Hi ->.
    cbv beta.
    loop_inv (λ j h2, h2 = Heap (<[sl_arr (xtx f) := mix (Z.to_nat (i * m + j)) newx lx']> ars) fits)
      as (h2 & Hrun2 & ->); [lia | lia | lia | | |].
    - rewrite Z.add_0_r. reflexivity.
    - intros j h2 Hj ->.
      destruct (cell_index i j m Hi Hj Hmm) as (Hk & Hkr & Hkn).
      assert (is_Some (lx' !! Z.to_nat (i * m + j))) as [a Ha].
      { apply lookup_lt_is_Some. lia. }
      eexists. split.
      + erewrite bind_Ok by (apply load_Ok; exact Hp). cbv zeta. rewrite Hk.
        erewrite bind_Ok; cycle 1.
        { eapply index_get_Ok; [apply lookup_insert_eq | lia |].
          rewrite lookup_mix_ge by lia. exact Ha. }
        erewrite bind_Ok; cycle 1.
        { apply local_get_Ok; [lia|]. apply lookup_powers. lia. }
        erewrite bind_Ok; cycle 1.
        { apply local_get_Ok; [lia|]. apply lookup_powers. lia. }
        erewrite index_set_Ok; [| apply lookup_insert_eq | lia].
        simpl. reflexivity.
      + f_equal. rewrite insert_insert_eq. f_equal.
        replace (Z.to_nat (i * m + (j + 1))) with (S (Z.to_nat (i * m + j))) by lia.
        apply insert_mix; [done|].
        apply lookup_vadd; [done|].
        rewrite Hkn. rewrite <- Hxp. apply lookup_outer; apply lookup_powers; lia.
    - exists (Heap (<[sl_arr (xtx f) := mix (Z.to_nat (i * m + m)) newx lx']> ars) fits).
      split; [exact Hrun2|]. do 3 f_equal. lia. }
  rewrite (bind_Ok _ _ _ _ _ Hrun1).
  replace (mix (Z.to_nat (m * m)) newx lx') with newx
    by (rewrite <- Hlenx, Nat2Z.id, <- Hlx; symmetry; apply mix_all; done).
  (* the XᵀY loop *)
  loop_inv (λ i h1, h1 = Heap (<[sl_arr (xty f) := mix (Z.to_nat i) newy ly']>
                          (<[sl_arr (xtx f) := newx]> ars)) fits)
    as (h3 & Hrun3 & ->); [lia | lia | lia | | |].
  { simpl. rewrite (insert_id (<[_ := _]> _) (sl_arr (xty f)) ly'); [done|].
    rewrite lookup_insert_ne by done. done. }
  { intros i h1 Hi ->.
    assert (is_Some (ly' !! Z.to_nat i)) as [a Ha].
    { apply lookup_lt_is_Some. lia. }
    eexists. split.
    - erewrite bind_Ok by (apply load_Ok; exact Hp).
      erewrite bind_Ok; cycle 1.
      { eapply index_get_Ok; [apply lookup_insert_eq | lia |].
        rewrite lookup_mix_ge by lia. exact Ha. }
      erewrite bind_Ok; cycle 1.
      { apply local_get_Ok; [lia|]. apply lookup_powers. lia. }
      erewrite index_set_Ok; [| apply lookup_insert_eq | lia].
      simpl. reflexivity.
    - f_equal. rewrite insert_insert_eq. f_equal.
      replace (Z.to_nat (i + 1)) with (S (Z.to_nat i)) by lia.
      apply insert_mix; [done|].
      apply lookup_vadd; [done|].
      unfold scaled, xp. rewrite list_lookup_fmap, lookup_powers by lia. done. }
  rewrite (bind_Ok _ _ _ _ _ Hrun3).
  replace (mix (Z.to_nat m) newy ly') with newy
    by (rewrite <- Hleny, Nat2Z.id, <- Hly; symmetry; apply mix_all; done).
  erewrite bind_Ok by (apply load_Ok; exact Hp).
  erewrite store_Ok by exact Hp. reflexivity.
Qed.

(** ** Views and the invariant under updates *)

Lemma contents_backed h s l :
  arrays h !! sl_arr s = Some l → length l = sl_len s → contents h s = Some l.
Proof.
  intros Ha Hl. unfold contents. rewrite Ha. simpl.
  rewrite take_ge by lia. reflexivity.
Qed.

Lemma view_Some h p f lx ly :
  fittings h !! p = Some f →
  arrays h !! sl_arr (xtx f) = Some lx → length lx = sl_len (xtx f) →
  arrays h !! sl_arr (xty f) = Some ly → length ly = sl_len (xty f) →
  view h p = Some (mkStats (N f) (Degree f) lx ly).
Proof.
  intros Hp Hx Hlx Hy Hly. unfold view. rewrite Hp. simpl.
  rewrite (contents_backed _ _ _ Hx Hlx). simpl.
  rewrite (contents_backed _ _ _ Hy Hly). reflexivity.
Qed.

Lemma view_None h p : fittings h !! p = None → view h p = None.
Proof. intros Hp. unfold view. rewrite Hp. reflexivity. Qed.

(** A fitter of a well-formed store, opened up. *)
Lemma wf_open h p f :
  wf_heap h → fittings h !! p = Some f →
  ∃ lx ly,
    arrays h !! sl_arr (xtx f) = Some lx ∧ length lx = sl_len (xtx f) ∧
    arrays h !! sl_arr (xty f) = Some ly ∧ length ly = sl_len (xty f) ∧
    view h p = Some (mkStats (N f) (Degree f) lx ly).
Proof.
  intros Hwf Hp.
  destruct (wf_backed _ Hwf _ _ Hp) as [(lx & Hx & Hlx & _) (ly & Hy & Hly & _)].
  exists lx, ly. repeat split; try done. by apply view_Some.
Qed.

Lemma view_inv h p st :
  wf_heap h → view h p = Some st →
  ∃ f, fittings h !! p = Some f ∧ N f = s_N st ∧ Degree f = s_Degree st ∧
       arrays h !! sl_arr (xtx f) = Some (s_xtx st) ∧
       arrays h !! sl_arr (xty f) = Some (s_xty st) ∧
       length (s_xtx st) = sl_len (xtx f) ∧ length (s_xty st) = sl_len (xty f).
Proof.
  intros Hwf Hv.
  destruct (fittings h !! p) as [f|] eqn:Hp; [|by rewrite view_None in Hv].
  destruct (wf_open _ _ _ Hwf Hp) as (lx & ly & Hx & Hlx & Hy & Hly & Hv').
  rewrite Hv in Hv'. injection Hv' as ->. exists f. simpl. done.
Qed.

Lemma owned_xtx f : sl_arr (xtx f) ∈ owned f.
Proof. unfold owned. apply elem_of_cons. by left. Qed.

Lemma owned_xty f : sl_arr (xty f) ∈ owned f.
Proof. unfold owned. rewrite !elem_of_cons. right. by left. Qed.

Lemma owned_inv a f : a ∈ owned f → a = sl_arr (xtx f) ∨ a = sl_arr (xty f).
Proof. unfold owned. rewrite !elem_of_cons, elem_of_nil. tauto. Qed.

Lemma put_fitter_wf h p f n nx ny :
  wf_heap h → fittings h !! p = Some f →
  length nx = sl_len (xtx f) → length ny = sl_len (xty f) →
  int_min ≤ n ≤ int_max →
  wf_heap (put_fitter h p f n nx ny).
Proof.
  intros Hwf Hp Hnx Hny Hrange.
  pose proof (wf_own _ Hwf _ _ Hp) as Hne.
  assert (∀ q g, <[p := set_N f n]> (fittings h) !! q = Some g →
            ∃ g', fittings h !! q = Some g' ∧ xtx g = xtx g' ∧ xty g = xty g' ∧
                  Degree g = Degree g' ∧ int_min ≤ N g ≤ int_max) as Hback.
  { intros q g Hq. destruct (decide (p = q)) as [->|Hpq].
    - rewrite lookup_insert_eq in Hq. injection Hq as <-. exists f. done.
    - rewrite lookup_insert_ne in Hq by done. exists g.
      pose proof (wf_count _ Hwf _ _ Hq). done. }
  assert (∀ s, backed h s → backed (put_fitter h p f n nx ny) s) as Hbk.
  { intros s (l & Hl & Hlen & Hcap). unfold backed, put_fitter. simpl.
    destruct (wf_backed _ Hwf _ _ Hp) as [(lx & Hx & Hlx & Hcx) (ly & Hy & Hly & Hcy)].
    destruct (decide (sl_arr s = sl_arr (xty f))) as [E|NE].
    { rewrite E, lookup_insert_eq. exists ny. rewrite E, Hy in Hl. simplify_eq. split; [done|]. split; lia. }
    rewrite lookup_insert_ne by done.
    destruct (decide (sl_arr s = sl_arr (xtx f))) as [E|NE'].
    { rewrite E, lookup_insert_eq. exists nx. rewrite E, Hx in Hl. simplify_eq. split; [done|]. split; lia. }
    rewrite lookup_insert_ne by done. exists l. done. }
  split.
  - intros q g Hq. destruct (Hback _ _ Hq) as (g' & Hq' & -> & -> & _).
    destruct (wf_backed _ Hwf _ _ Hq'). split; by apply Hbk.
  - intros q g Hq. destruct (Hback _ _ Hq) as (g' & Hq' & Ex & Ey & Ed & _).
    pose proof (wf_shaped _ Hwf _ _ Hq') as Hs. unfold shaped in *.
    rewrite Ex, Ey, Ed. exact Hs.
  - intros q g Hq. destruct (Hback _ _ Hq) as (g' & Hq' & -> & -> & _).
    by eapply wf_own.
  - intros q1 q2 g1 g2 Hne12 Hq1 Hq2 a b Ha Hb.
    destruct (Hback _ _ Hq1) as (g1' & Hq1' & Ex1 & Ey1 & _).
    destruct (Hback _ _ Hq2) as (g2' & Hq2' & Ex2 & Ey2 & _).
    unfold owned in Ha, Hb. rewrite Ex1, Ey1 in Ha. rewrite Ex2, Ey2 in Hb.
    by eapply (wf_sep _ Hwf q1 q2 g1' g2').
  - intros q g Hq. destruct (Hback _ _ Hq) as (g' & _ & _ & _ & _ & HN). exact HN.
Qed.

Lemma view_put_fitter_eq h p f n nx ny :
  wf_heap h → fittings h !! p = Some f →
  length nx = sl_len (xtx f) → length ny = sl_len (xty f) →
  view (put_fitter h p f n nx ny) p = Some (mkStats n (Degree f) nx ny).
Proof.
  intros Hwf Hp Hnx Hny.
  pose proof (wf_own _ Hwf _ _ Hp) as Hne.
  apply (view_Some _ _ (set_N f n)); simpl; try done.
  - apply lookup_insert_eq.
  - rewrite lookup_insert_ne by done. apply lookup_insert_eq.
  - apply lookup_insert_eq.
Qed.

Lemma view_put_fitter_ne h p q f n nx ny :
  wf_heap h → fittings h !! p = Some f → q ≠ p →
  view (put_fitter h p f n nx ny) q = view h q.
Proof.
  intros Hwf Hp Hne. unfold view, put_fitter. simpl.
  rewrite lookup_insert_ne by done.
  destruct (fittings h !! q) as [g|] eqn:Hq; [|done]. simpl.
  pose proof (wf_sep _ Hwf q p g f Hne Hq Hp) as Hsep.
  unfold contents. simpl.
  rewrite !lookup_insert_ne; [done | ..];
    apply not_eq_sym, Hsep; first [apply owned_xtx | apply owned_xty].
Qed.

Lemma fittings_put_fitter_ne h p q f n nx ny :
  q ≠ p → fittings (put_fitter h p f n nx ny) !! q = fittings h !! q.
Proof. intros Hne. unfold put_fitter. simpl. by rewrite lookup_insert_ne. Qed.

Lemma backed_dom h s : backed h s → sl_arr s ∈ dom (arrays h).
Proof. intros (l & Hl & _). apply elem_of_dom. eauto. Qed.

Lemma with_fitter_wf h b a1 a2 st :
  wf_heap h →
  b ∉ dom (fittings h) → a1 ∉ dom (arrays h) → a2 ∉ dom (arrays h) → a1 ≠ a2 →
  0 ≤ s_Degree st → (s_Degree st + 1) * (s_Degree st + 1) ≤ int_max →
  Z.of_nat (length (s_xtx st)) = (s_Degree st + 1) * (s_Degree st + 1) →
  Z.of_nat (length (s_xty st)) = s_Degree st + 1 →
  int_min ≤ s_N st ≤ int_max →
  wf_heap (with_fitter h b a1 a2 st).
Proof.
  intros Hwf Hb Ha1 Ha2 Hne Hd Hmax Hlx Hly Hrange.
  assert (∀ q g, fittings h !! q = Some g →
            q ≠ b ∧ ∀ a, a ∈ owned g → a ≠ a1 ∧ a ≠ a2 ∧
              arrays (with_fitter h b a1 a2 st) !! a = arrays h !! a) as Hold.
  { intros q g Hq. split.
    { intros ->. apply Hb, elem_of_dom. eauto. }
    intros a Ha.
    assert (a ∈ dom (arrays h)) as Hdom.
    { destruct (wf_backed _ Hwf _ _ Hq) as [Hx Hy].
      destruct (owned_inv _ _ Ha) as [->| ->]; by apply backed_dom. }
    assert (a ≠ a1) by (intros ->; done).
    assert (a ≠ a2) by (intros ->; done).
    unfold with_fitter. simpl. rewrite !lookup_insert_ne by done. done. }
  assert (∀ q g, fittings (with_fitter h b a1 a2 st) !! q = Some g →
            (q = b ∧ g = mkFitting (s_N st) (s_Degree st)
                 (Slice a1 (length (s_xtx st)) (length (s_xtx st)))
                 (Slice a2 (length (s_xty st)) (length (s_xty st))))
            ∨ (q ≠ b ∧ fittings h !! q = Some g)) as Hcase.
  { intros q g Hq. unfold with_fitter in Hq. simpl in Hq.
    destruct (decide (b = q)) as [->|Hbq].
    - rewrite lookup_insert_eq in Hq. left. by injection Hq as <-.
    - rewrite lookup_insert_ne in Hq by done. right. done. }
  split.
  - intros q g Hq. destruct (Hcase _ _ Hq) as [[-> ->]|[Hqb Hq']]; simpl.
    + split.
      * exists (s_xtx st). simpl. rewrite lookup_insert_ne by done.
        rewrite lookup_insert_eq. done.
      * exists (s_xty st). simpl. rewrite lookup_insert_eq. done.
    + destruct (Hold _ _ Hq') as [_ Hown].
      destruct (wf_backed _ Hwf _ _ Hq') as [(lx & Hx & Hrest) (ly & Hy & Hrest')].
      split.
      * exists lx. split; [|done].
        destruct (Hown _ (owned_xtx g)) as (_ & _ & ->). done.
      * exists ly. split; [|done].
        destruct (Hown _ (owned_xty g)) as (_ & _ & ->). done.
  - intros q g Hq. destruct (Hcase _ _ Hq) as [[-> ->]|[Hqb Hq']].
    + unfold shaped. simpl. done.
    + by eapply wf_shaped.
  - intros q g Hq. destruct (Hcase _ _ Hq) as [[-> ->]|[Hqb Hq']]; simpl; [done|].
    by eapply wf_own.
  - intros q1 q2 g1 g2 Hne12 Hq1 Hq2 a c Ha Hc.
    destruct (Hcase _ _ Hq1) as [[-> ->]|[Hq1b Hq1']];
    destruct (Hcase _ _ Hq2) as [[-> ->]|[Hq2b Hq2']]; try done.
    + destruct (Hold _ _ Hq2') as [_ Hown]. destruct (Hown _ Hc) as (Hc1 & Hc2 & _).
      destruct (owned_inv _ _ Ha) as [->| ->]; simpl; done.
    + destruct (Hold _ _ Hq1') as [_ Hown]. destruct (Hown _ Ha) as (Ha1' & Ha2' & _).
      destruct (owned_inv _ _ Hc) as [->| ->]; simpl; done.
    + by eapply (wf_sep _ Hwf q1 q2 g1 g2).
  - intros q g Hq. destruct (Hcase _ _ Hq) as [[-> ->]|[Hqb Hq']]; simpl; [done|].
    by eapply wf_count.
Qed.

Lemma view_with_fitter_eq h b a1 a2 st :
  a1 ≠ a2 → view (with_fitter h b a1 a2 st) b = Some st.
Proof.
  intros Hne. destruct st as [n d lx ly].
  eapply (view_Some _ _ (mkFitting _ _ _ _)); simpl;
    [apply lookup_insert_eq
    | rewrite lookup_insert_ne by done; apply lookup_insert_eq
    | done
    | apply lookup_insert_eq
    | done].
Qed.

Lemma view_with_fitter_ne h b a1 a2 st q :
  wf_heap h → b ∉ dom (fittings h) → a1 ∉ dom (arrays h) → a2 ∉ dom (arrays h) →
  q ≠ b → view (with_fitter h b a1 a2 st) q = view h q.
Proof.
  intros Hwf Hb Ha1 Ha2 Hne. unfold view, with_fitter. simpl.
  rewrite lookup_insert_ne by done.
  destruct (fittings h !! q) as [g|] eqn:Hq; [|done]. simpl.
  destruct (wf_backed _ Hwf _ _ Hq) as [Hx%backed_dom Hy%backed_dom].
  unfold contents. simpl.
  rewrite !lookup_insert_ne; [done | | | |]; intros ->; done.
Qed.

(** ** [Merge] *)

Lemma index_get_Ok' h s i v :
  0 ≤ i < Z.of_nat (sl_len s) →
  arrays h !! sl_arr s ≫= (λ l, l !! Z.to_nat i) = Some v →
  index_get s i h = Ok v h.
Proof.
  intros Hi Hv. unfold index_get.
  rewrite decide_True by done. rewrite Hv. reflexivity.
Qed.

(** Reading any array while the two caches of a fitter are being
    rewritten: a cell the rewriting has not reached holds its old value. *)
Lemma lookup_rewriting (ars : gmap loc (list F)) ax ay cx cy b lx ly lb n :
  ax ≠ ay →
  ars !! ax = Some lx → ars !! ay = Some ly → ars !! b = Some lb →
  (b = ax → cx !! n = lx !! n) → (b = ay → cy !! n = ly !! n) →
  <[ay := cy]> (<[ax := cx]> ars) !! b ≫= (λ l, l !! n) = lb !! n.
Proof.
  intros Hne Hx Hy Hb Hcx Hcy.
  destruct (decide (ay = b)) as [<-|Hyb].
  { rewrite lookup_insert_eq. simpl. rewrite Hcy by done. congruence. }
  rewrite lookup_insert_ne by done.
  destruct (decide (ax = b)) as [<-|Hxb].
  { rewrite lookup_insert_eq. simpl. rewrite Hcx by done. congruence. }
  rewrite lookup_insert_ne by done. rewrite Hb. reflexivity.
Qed.

Lemma Merge_run h p q f g lx ly gx gy :
  wf_heap h → fittings h !! p = Some f → fittings h !! q = Some g →
  Degree f = Degree g →
  arrays h !! sl_arr (xtx f) = Some lx → arrays h !! sl_arr (xty f) = Some ly →
  arrays h !! sl_arr (xtx g) = Some gx → arrays h !! sl_arr (xty g) = Some gy →
  Merge p q h =
    Ok tt (put_fitter h p f (int_add (N f) (N g)) (vadd lx gx) (vadd ly gy)).
Proof.
  intros Hwf Hp Hq Hdeg Hx Hy Hgx Hgy.
  destruct (wf_backed _ Hwf _ _ Hp) as [(lx' & Hx' & Hlx & _) (ly' & Hy' & Hly & _)].
  rewrite Hx in Hx'. rewrite Hy in Hy'. simplify_eq.
  destruct (wf_backed _ Hwf _ _ Hq) as [(gx' & Hgx' & Hlgx & _) (gy' & Hgy' & Hlgy & _)].
  rewrite Hgx in Hgx'. rewrite Hgy in Hgy'. simplify_eq.
  pose proof (wf_own _ Hwf _ _ Hp) as Hne.
  pose proof (wf_shaped _ Hwf _ _ Hp) as Hsh.
  pose proof (wf_shaped _ Hwf _ _ Hq) as (_ & _ & Hlengx & Hlengy).
  destruct (shaped_bounds _ Hsh) as (Hd & Hm & Hmmax & Hmm).
  destruct Hsh as (_ & _ & Hlenx & Hleny).
  pose proof int_bounds as [Hmin Hmax].
  rewrite <- Hdeg in Hlengx, Hlengy.
  destruct h as [ars fits]. simpl in *.
  unfold Merge, put_fitter. simpl.
  erewrite bind_Ok by (apply load_Ok; exact Hp).
  erewrite bind_Ok by (apply load_Ok; exact Hq).
  rewrite decide_False by (intros Hc; apply Hc; exact Hdeg).
  erewrite bind_Ok by (eapply store_Ok; exact Hp). simpl.
  set (f1 := set_N f (int_add (N f) (N g))).
  set (fits1 := <[p := f1]> fits).
  assert (fits1 !! p = Some f1) as Hp1 by apply lookup_insert_eq.
  assert (∃ g1, fits1 !! q = Some g1 ∧ xtx g1 = xtx g ∧ xty g1 = xty g) as (g1 & Hq1 & Egx & Egy).
  { destruct (decide (p = q)) as [<-|Hpq].
    - exists f1. split; [done|]. rewrite Hp in Hq. by injection Hq as <-.
    - exists g. unfold fits1. rewrite lookup_insert_ne by done. done. }
  assert (sl_arr (xty g) ≠ sl_arr (xtx f) ∧ sl_arr (xtx g) ≠ sl_arr (xty f)) as [Hs1 Hs2].
  { destruct (decide (q = p)) as [->|Hqp].
    - rewrite Hp in Hq. injection Hq as <-. split; [by apply not_eq_sym | done].
    - pose proof (wf_sep _ Hwf q p g f Hqp Hq Hp) as Hsep.
      split; apply Hsep; first [apply owned_xtx | apply owned_xty]. }
  erewrite bind_Ok by (apply load_Ok; exact Hp1).
  change (Degree f1) with (Degree f). rewrite Hm.
  set (m := Degree f + 1) in *.
  set (newx := vadd lx' gx').
  set (newy := vadd ly' gy').
  assert (length newx = length lx') as Hnewx by (apply length_vadd; lia).
  assert (length newy = length ly') as Hnewy by (apply length_vadd; lia).
  loop_inv (λ i h1, h1 = Heap (<[sl_arr (xty f) := mix (Z.to_nat i) newy ly']>
                           (<[sl_arr (xtx f) := mix (Z.to_nat (i * m)) newx lx']> ars)) fits1)
    as (h1 & Hrun1 & ->); [lia | lia | lia | | |].
  { simpl. rewrite (insert_id ars) by done. rewrite insert_id by done. reflexivity. }
  { intros i h1 Hi ->. cbv beta.
    assert (is_Some (ly' !! Z.to_nat i)) as [a Ha] by (apply lookup_lt_is_Some; lia).
    assert (is_Some (gy' !! Z.to_nat i)) as [c Hc] by (apply lookup_lt_is_Some; lia).
    erewrite bind_Ok by (apply load_Ok; exact Hp1).
    erewrite bind_Ok by (apply load_Ok; exact Hq1).
    erewrite bind_Ok; cycle 1.
    { eapply index_get_Ok; [apply lookup_insert_eq | simpl; lia |].
      rewrite lookup_mix_ge by lia. exact Ha. }
    erewrite bind_Ok; cycle 1.
    { apply index_get_Ok'; [rewrite Egy; lia|]. rewrite Egy. simpl.
      rewrite <- Hc.
      eapply (lookup_rewriting ars _ _ _ _ _ lx' ly'); try done.
      intros _. rewrite lookup_mix_ge by lia. done. }
    erewrite bind_Ok; cycle 1.
    { eapply index_set_Ok; [apply lookup_insert_eq | simpl; lia]. }
    simpl. rewrite insert_insert_eq.
    replace (<[Z.to_nat i := a ⊕ c]> (mix (Z.to_nat i) newy ly'))
      with (mix (S (Z.to_nat i)) newy ly')
      by (symmetry; apply insert_mix; [done | by apply lookup_vadd]).
    loop_inv (λ j h2, h2 = Heap (<[sl_arr (xty f) := mix (S (Z.to_nat i)) newy ly']>
                           (<[sl_arr (xtx f) := mix (Z.to_nat (i * m + j)) newx lx']> ars)) fits1)
      as (h2 & Hrun2 & ->); [lia | lia | lia | | |].
    - rewrite Z.add_0_r. reflexivity.
    - intros j h2 Hj ->. cbv beta.
      destruct (cell_index i j m Hi Hj Hmm) as (Hk & Hkr & Hkn).
      assert (is_Some (lx' !! Z.to_nat (i * m + j))) as [a' Ha'] by (apply lookup_lt_is_Some; lia).
      assert (is_Some (gx' !! Z.to_nat (i * m + j))) as [c' Hc'] by (apply lookup_lt_is_Some; lia).
      eexists. split.
      + erewrite bind_Ok by (apply load_Ok; exact Hp1).
        erewrite bind_Ok by (apply load_Ok; exact Hq1).
        cbv zeta. rewrite Hk.
        erewrite bind_Ok; cycle 1.
        { eapply index_get_Ok; [simpl; rewrite lookup_insert_ne by done; apply lookup_insert_eq | simpl; lia |].
          rewrite lookup_mix_ge by lia. exact Ha'. }
        erewrite bind_Ok; cycle 1.
        { apply index_get_Ok'; [rewrite Egx; lia|]. rewrite Egx. simpl.
          rewrite <- Hc'.
          eapply (lookup_rewriting ars _ _ _ _ _ lx' ly'); try done.
          intros _. rewrite lookup_mix_ge by lia. done. }
        eapply index_set_Ok; [simpl; rewrite lookup_insert_ne by done; apply lookup_insert_eq | simpl; lia].
      + simpl. f_equal. rewrite (insert_insert_ne _ (sl_arr (xtx f))) by done.
        rewrite insert_insert_eq. f_equal. f_equal.
        replace (Z.to_nat (i * m + (j + 1))) with (S (Z.to_nat (i * m + j))) by lia.
        apply insert_mix; [done | by apply lookup_vadd].
    - eexists. split; [exact Hrun2|].
      replace (Z.to_nat (i + 1)) with (S (Z.to_nat i)) by lia.
      do 4 f_equal. lia. }
  rewrite Hrun1. f_equal. f_equal.
  replace (mix (Z.to_nat (m * m)) newx lx') with newx
    by (rewrite <- Hlenx, Nat2Z.id, <- Hlx; symmetry; apply mix_all; done).
  replace (mix (Z.to_nat m) newy ly') with newy
    by (rewrite <- Hleny, Nat2Z.id, <- Hly; symmetry; apply mix_all; done).
  reflexivity.
Qed.

(** ** [Copy] *)

Lemma make_Ok h len cap :
  0 ≤ len ≤ cap →
  make len cap h =
    Ok (Slice (fresh (dom (arrays h))) (Z.to_nat len) (Z.to_nat cap))
       (Heap (<[fresh (dom (arrays h)) := replicate (Z.to_nat cap) fzero]> (arrays h))
             (fittings h)).
Proof. intros Hl. unfold make. rewrite decide_True by lia. reflexivity. Qed.

Lemma append_in_place h dst src ld ls :
  arrays h !! sl_arr dst = Some ld → contents h src = Some ls →
  (sl_len dst + sl_len src ≤ sl_cap dst)%nat →
  append dst src h =
    Ok (Slice (sl_arr dst) (sl_len dst + sl_len src) (sl_cap dst))
       (Heap (<[sl_arr dst := take (sl_len dst) ld ++ ls ++
                               drop (sl_len dst + sl_len src) ld]> (arrays h))
             (fittings h)).
Proof.
  intros Hd Hs Hc. unfold append. rewrite Hd, Hs.
  rewrite decide_True by done. reflexivity.
Qed.

Lemma fresh_insert_dom (ars : gmap loc (list F)) a l :
  fresh (dom (<[a := l]> ars)) ≠ a ∧ fresh (dom (<[a := l]> ars)) ∉ dom ars.
Proof.
  pose proof (is_fresh (dom (<[a := l]> ars))) as Hf.
  generalize dependent (fresh (dom (<[a := l]> ars))). intros c Hf.
  rewrite dom_insert_L in Hf.
  split; intros E; apply Hf.
  - apply elem_of_union_l, elem_of_singleton. exact E.
  - apply elem_of_union_r. exact E.
Qed.

Lemma Copy_run h p f lx ly :
  wf_heap h → fittings h !! p = Some f →
  arrays h !! sl_arr (xtx f) = Some lx → arrays h !! sl_arr (xty f) = Some ly →
  ∃ b a1 a2,
    b = fresh_fitter h ∧ a1 = fresh_xtx h ∧ a2 = fresh_xty h ∧
    (b ∉ dom (fittings h)) ∧ (a1 ∉ dom (arrays h)) ∧ (a2 ∉ dom (arrays h)) ∧ a1 ≠ a2 ∧
    Copy p h = Ok b (with_fitter h b a1 a2 (mkStats (N f) (Degree f) lx ly)).
Proof.
  intros Hwf Hp Hx Hy.
  destruct (wf_backed _ Hwf _ _ Hp) as [(lx' & Hx' & Hlx & _) (ly' & Hy' & Hly & _)].
  rewrite Hx in Hx'. rewrite Hy in Hy'. simplify_eq.
  destruct h as [ars fits]. simpl in *.
  set (zx := replicate (Z.to_nat (Z.of_nat (sl_len (xtx f)))) fzero).
  set (zy := replicate (Z.to_nat (Z.of_nat (sl_len (xty f)))) fzero).
  set (a1 := fresh (dom ars)).
  set (a2 := fresh (dom (<[a1 := zx]> ars))).
  set (b := fresh (dom fits)).
  assert (a1 ∉ dom ars) as Ha1 by apply is_fresh.
  assert (a2 ≠ a1 ∧ a2 ∉ dom ars) as [Ha21 Ha2] by apply fresh_insert_dom.
  assert (b ∉ dom fits) as Hb by apply is_fresh.
  assert (p ≠ b) as Hpb.
  { intros ->. apply Hb, elem_of_dom. eauto. }
  assert (sl_arr (xtx f) ≠ a1 ∧ sl_arr (xtx f) ≠ a2 ∧
          sl_arr (xty f) ≠ a1 ∧ sl_arr (xty f) ≠ a2) as (Hn1 & Hn2 & Hn3 & Hn4).
  { repeat split; intros E;
      first [ solve [apply Ha1; rewrite <- E; apply elem_of_dom; eauto]
            | solve [apply Ha2; rewrite <- E; apply elem_of_dom; eauto] ]. }
  exists b, a1, a2.
  split; [reflexivity|]. split; [reflexivity|].
  split; [unfold a2, fresh_xty, fresh_xtx; simpl; by rewrite dom_insert_L|].
  split; [done|]. split; [done|]. split; [done|]. split; [by apply not_eq_sym|].
  unfold Copy.
  erewrite bind_Ok by (apply load_Ok; exact Hp).
  erewrite bind_Ok by (apply make_Ok; lia). simpl. fold a1 zx.
  erewrite bind_Ok by (apply make_Ok; lia). simpl. fold a2 zy.
  unfold new_struct at 1. unfold bind at 1. simpl. fold b.
  set (b0 := mkFitting (N f) (Degree f)
               (Slice a1 (Z.to_nat 0) (Z.to_nat (Z.of_nat (sl_len (xtx f)))))
               (Slice a2 (Z.to_nat 0) (Z.to_nat (Z.of_nat (sl_len (xty f)))))).
  erewrite bind_Ok by (apply load_Ok; simpl; apply lookup_insert_eq).
  erewrite bind_Ok by (apply load_Ok; simpl; rewrite lookup_insert_ne by done; exact Hp).
  erewrite bind_Ok; cycle 1.
  { eapply append_in_place; simpl.
    - rewrite lookup_insert_ne by done. apply lookup_insert_eq.
    - apply contents_backed; simpl; [|exact Hlx].
      rewrite !lookup_insert_ne by done. exact Hx.
    - lia. }
  erewrite bind_Ok by (eapply store_Ok; simpl; apply lookup_insert_eq).
  simpl. rewrite insert_insert_eq.
  erewrite bind_Ok by (apply load_Ok; simpl; apply lookup_insert_eq).
  erewrite bind_Ok by (apply load_Ok; simpl; rewrite lookup_insert_ne by done; exact Hp).
  erewrite bind_Ok; cycle 1.
  { eapply append_in_place; simpl.
    - rewrite lookup_insert_ne by done. apply lookup_insert_eq.
    - apply contents_backed; simpl; [|exact Hly].
      rewrite !lookup_insert_ne by done. exact Hy.
    - lia. }
  erewrite bind_Ok by (eapply store_Ok; simpl; apply lookup_insert_eq).
  simpl. rewrite insert_insert_eq.
  unfold ret, with_fitter. simpl. f_equal. f_equal.
  - rewrite !drop_ge by (unfold zx, zy; rewrite length_replicate; lia).
    rewrite !app_nil_r.
    apply map_eq. intros c.
    destruct (decide (a2 = c)) as [<-|Hc2]; [by rewrite !lookup_insert_eq|].
    destruct (decide (a1 = c)) as [<-|Hc1].
    { rewrite lookup_insert_ne by done. rewrite lookup_insert_eq.
      rewrite lookup_insert_ne by done. by rewrite lookup_insert_eq. }
    by rewrite !lookup_insert_ne by done.
  - unfold set_xty, set_xtx. simpl. do 2 f_equal.
    + f_equal; lia.
    + f_equal; lia.
Qed.

(** ** [Add] and [Merge] on the statistics *)

Lemma Add_spec h p st x y :
  wf_heap h → view h p = Some st →
  ∃ h', Add p x y h = Ok tt h' ∧ wf_heap h' ∧
        view h' p = Some (add_point st x y) ∧
        (∀ q, q ≠ p → view h' q = view h q ∧ fittings h' !! q = fittings h !! q) ∧
        (∀ f, fittings h !! p = Some f →
              fittings h' !! p = Some (set_N f (int_add (N f) 1))).
Proof.
  intros Hwf Hv.
  destruct (view_inv _ _ _ Hwf Hv) as (f & Hp & HN & HD & Hx & Hy & Hlx & Hly).
  pose proof (wf_shaped _ Hwf _ _ Hp) as (Hd & _ & Hsx & Hsy).
  assert (length (vadd (s_xtx st) (outer (powers (Degree f) x) (powers (Degree f) x)))
          = sl_len (xtx f)) as Hnx.
  { rewrite length_vadd; [done|]. rewrite length_outer, !length_powers. nia. }
  assert (length (vadd (s_xty st) (scaled y (powers (Degree f) x))) = sl_len (xty f)) as Hny.
  { rewrite length_vadd; [done|]. unfold scaled. rewrite length_map, length_powers. lia. }
  eexists. split; [by apply Add_run|].
  split; [apply put_fitter_wf; try done; apply wrap_range|].
  split; [|split].
  - rewrite view_put_fitter_eq by done. unfold add_point. rewrite HN, HD. reflexivity.
  - intros q Hq. split; [by apply view_put_fitter_ne | by apply fittings_put_fitter_ne].
  - intros f' Hp'. rewrite Hp in Hp'. injection Hp' as <-.
    unfold put_fitter. simpl. apply lookup_insert_eq.
Qed.

Lemma Merge_spec h p q stp stq :
  wf_heap h → view h p = Some stp → view h q = Some stq →
  s_Degree stp = s_Degree stq →
  ∃ h', Merge p q h = Ok tt h' ∧ wf_heap h' ∧
        view h' p = Some (merge_stats stp stq) ∧
        (∀ r, r ≠ p → view h' r = view h r ∧ fittings h' !! r = fittings h !! r) ∧
        (∀ f, fittings h !! p = Some f →
              fittings h' !! p = Some (set_N f (int_add (s_N stp) (s_N stq)))).
Proof.
  intros Hwf Hvp Hvq Hdeg.
  destruct (view_inv _ _ _ Hwf Hvp) as (f & Hp & HN & HD & Hx & Hy & Hlx & Hly).
  destruct (view_inv _ _ _ Hwf Hvq) as (g & Hq & HNg & HDg & Hgx & Hgy & Hlgx & Hlgy).
  pose proof (wf_shaped _ Hwf _ _ Hp) as (Hd & _ & Hsx & Hsy).
  pose proof (wf_shaped _ Hwf _ _ Hq) as (_ & _ & Hsgx & Hsgy).
  assert (Degree f = Degree g) as Hfg by congruence.
  assert (length (vadd (s_xtx stp) (s_xtx stq)) = sl_len (xtx f)) as Hnx.
  { rewrite length_vadd; [done|]. rewrite Hfg in Hsx. lia. }
  assert (length (vadd (s_xty stp) (s_xty stq)) = sl_len (xty f)) as Hny.
  { rewrite length_vadd; [done|]. rewrite Hfg in Hsy. lia. }
  eexists. split; [by eapply Merge_run|].
  split; [apply put_fitter_wf; try done; apply wrap_range|].
  split; [|split].
  - rewrite view_put_fitter_eq by done. unfold merge_stats. rewrite HN, HD, HNg. reflexivity.
  - intros r Hr. split; [by apply view_put_fitter_ne | by apply fittings_put_fitter_ne].
  - intros f' Hp'. rewrite Hp in Hp'. injection Hp' as <-.
    unfold put_fitter. simpl. rewrite HN, HNg. apply lookup_insert_eq.
Qed.

(** [Merge] either returns or panics before it has written anything. *)
Lemma Merge_cases h p q f :
  wf_heap h → fittings h !! p = Some f →
  match fittings h !! q with
  | None => Merge p q h = Panicked NilDereference h
  | Some g =>
      if decide (Degree f = Degree g) then ∃ h', Merge p q h = Ok tt h'
      else Merge p q h = Panicked (DifferentDegree (Degree f) (Degree g)) h
  end.
Proof.
  intros Hwf Hp. destruct (fittings h !! q) as [g|] eqn:Hq.
  - destruct (decide (Degree f = Degree g)) as [E|NE].
    + destruct (wf_open _ _ _ Hwf Hp) as (lx & ly & _ & _ & _ & _ & Hvp).
      destruct (wf_open _ _ _ Hwf Hq) as (gx & gy & _ & _ & _ & _ & Hvq).
      destruct (Merge_spec _ _ _ _ _ Hwf Hvp Hvq E) as (h' & Hrun & _).
      eauto.
    + unfold Merge.
      erewrite bind_Ok by (apply load_Ok; exact Hp).
      erewrite bind_Ok by (apply load_Ok; exact Hq).
      rewrite decide_True by done. reflexivity.
  - unfold Merge.
    erewrite bind_Ok by (apply load_Ok; exact Hp).
    apply bind_Panicked. unfold load. rewrite Hq. reflexivity.
Qed.

(** ** [NewFitting] *)

Lemma for_loop_panics (I : Z → heap → Prop) (Q : heap → Prop) lo hi k0 body h e :
  int_min ≤ lo → lo ≤ k0 < hi → hi ≤ int_max →
  I lo h →
  (∀ i h1, lo ≤ i < k0 → I i h1 → ∃ h2, body i h1 = Ok tt h2 ∧ I (i + 1) h2) →
  (∀ h1, I k0 h1 → ∃ h2, body k0 h1 = Panicked e h2 ∧ Q h2) →
  ∃ h', for_loop lo hi body h = Panicked e h' ∧ Q h'.
Proof.
  intros Hlo Hk Hhi Hinit Hstep Hbad. unfold for_loop.
  apply (for_iter_panics (λ n, I (lo + Z.of_nat n)) Q _ (Z.to_nat (k0 - lo))); try lia.
  - replace (lo + Z.of_nat 0) with lo by lia. exact Hinit.
  - intros n h1 Hn Hn1.
    destruct (Hstep (lo + Z.of_nat n) h1 ltac:(lia) Hn1) as (h2 & Hb & H2).
    exists h2. split; [exact Hb|].
    replace (lo + Z.of_nat (S n)) with (lo + Z.of_nat n + 1) by lia. exact H2.
  - replace (lo + Z.of_nat (Z.to_nat (k0 - lo))) with k0 by lia. exact Hbad.
Qed.

Lemma empty_stats_shaped d :
  0 ≤ d → (d + 1) * (d + 1) ≤ int_max → stats_shaped (empty_stats d).
Proof.
  intros Hd Hm. unfold stats_shaped, empty_stats. simpl.
  rewrite !length_replicate. repeat split; try lia.
Qed.

Lemma add_point_shaped st x y : stats_shaped st → stats_shaped (add_point st x y).
Proof.
  intros (Hd & Hm & Hx & Hy). unfold stats_shaped, add_point. simpl.
  repeat split; try done.
  - rewrite length_vadd; [done|]. rewrite length_outer, !length_powers. nia.
  - rewrite length_vadd; [done|]. unfold scaled. rewrite length_map, length_powers. lia.
Qed.

Lemma add_points_shaped st pts : stats_shaped st → stats_shaped (add_points st pts).
Proof.
  revert st. induction pts as [|pt pts IH]; intros st Hs; [done|].
  simpl. apply IH. by apply add_point_shaped.
Qed.

Lemma add_points_Degree st pts : s_Degree (add_points st pts) = s_Degree st.
Proof.
  revert st. induction pts as [|pt pts IH]; intros st; [done|].
  simpl. rewrite IH. reflexivity.
Qed.

Lemma add_points_snoc st pts pt :
  add_points st (pts ++ [pt]) = add_point (add_points st pts) pt.1 pt.2.
Proof. unfold add_points. rewrite fold_left_app. reflexivity. Qed.

Lemma with_fitter_shaped_wf h b a1 a2 st :
  wf_heap h →
  b ∉ dom (fittings h) → a1 ∉ dom (arrays h) → a2 ∉ dom (arrays h) → a1 ≠ a2 →
  stats_shaped st → int_min ≤ s_N st ≤ int_max →
  wf_heap (with_fitter h b a1 a2 st).
Proof. intros Hwf Hb Ha1 Ha2 Hne (Hd & Hm & Hx & Hy) HN. by apply with_fitter_wf. Qed.

Lemma add_points_N_range d pts :
  int_min ≤ s_N (add_points (empty_stats d) pts) ≤ int_max.
Proof.
  induction pts as [|pt pts IH] using rev_ind.
  - simpl. pose proof int_bounds. lia.
  - rewrite add_points_snoc. simpl. apply wrap_range.
Qed.

Lemma put_with_fitter h b a1 a2 st f n nx ny :
  a1 ≠ a2 →
  f = mkFitting (s_N st) (s_Degree st)
        (Slice a1 (length (s_xtx st)) (length (s_xtx st)))
        (Slice a2 (length (s_xty st)) (length (s_xty st))) →
  length nx = length (s_xtx st) → length ny = length (s_xty st) →
  put_fitter (with_fitter h b a1 a2 st) b f n nx ny =
  with_fitter h b a1 a2 (mkStats n (s_Degree st) nx ny).
Proof.
  intros Hne -> Hnx Hny. unfold put_fitter, with_fitter. simpl. f_equal.
  - apply map_eq. intros c.
    destruct (decide (a2 = c)) as [<-|Hc2]; [by rewrite !lookup_insert_eq|].
    destruct (decide (a1 = c)) as [<-|Hc1].
    { rewrite lookup_insert_ne by done. rewrite lookup_insert_eq.
      rewrite lookup_insert_ne by done. by rewrite lookup_insert_eq. }
    by rewrite !lookup_insert_ne by done.
  - rewrite insert_insert_eq. unfold set_N. simpl. rewrite Hnx, Hny. reflexivity.
Qed.

Lemma Add_with_fitter h b a1 a2 st x y :
  wf_heap (with_fitter h b a1 a2 st) → a1 ≠ a2 → stats_shaped st →
  Add b x y (with_fitter h b a1 a2 st) =
    Ok tt (with_fitter h b a1 a2 (add_point st x y)).
Proof.
  intros Hwf Hne Hs.
  pose proof (add_point_shaped st x y Hs) as (_ & _ & Hx' & Hy').
  destruct Hs as (_ & _ & Hx & Hy).
  erewrite Add_run; [| exact Hwf | apply lookup_insert_eq | |]; simpl.
  - f_equal. apply put_with_fitter; [done | done | |]; simpl in *; lia.
  - rewrite lookup_insert_ne by done. apply lookup_insert_eq.
  - apply lookup_insert_eq.
Qed.

Lemma zip_take_snoc (xs ys : list F) n x y :
  xs !! n = Some x → ys !! n = Some y →
  take (S n) (zip xs ys) = take n (zip xs ys) ++ [(x, y)].
Proof.
  intros Hx Hy. apply take_S_r.
  rewrite lookup_zip_with, Hx. simpl. rewrite Hy. reflexivity.
Qed.

(** The store [NewFitting] has built when it starts to add the points. *)
Lemma NewFitting_init h d :
  0 ≤ d → (d + 1) * (d + 1) ≤ int_max →
  ∃ b a1 a2,
    b = fresh_fitter h ∧ a1 = fresh_xtx h ∧ a2 = fresh_xty h ∧
    (b ∉ dom (fittings h)) ∧ (a1 ∉ dom (arrays h)) ∧ (a2 ∉ dom (arrays h)) ∧ a1 ≠ a2 ∧
    ∀ (c : loc → M loc),
      (let* sx := make (int_mul (int_add d 1) (int_add d 1))
                       (int_mul (int_add d 1) (int_add d 1)) in
       let* sy := make (int_add d 1) (int_add d 1) in
       let* fp := new_struct (mkFitting 0 d sx sy) in
       run for_loop 0 (int_mul (int_add d 1) (int_add d 1)) (λ i,
             let* fr := load fp in index_set (xtx fr) i fzero) in
       run for_loop 0 (int_add d 1) (λ i,
             let* fr := load fp in index_set (xty fr) i fzero) in
       c fp) h
      = c b (with_fitter h b a1 a2 (empty_stats d)).
Proof.
  intros Hd Hmm. pose proof int_bounds as [Hmin Hmax].
  assert (d + 1 ≤ (d + 1) * (d + 1)) by nia.
  rewrite int_add_id by lia. rewrite int_mul_id by lia.
  destruct h as [ars fits]. simpl.
  set (m := d + 1) in *.
  set (zx := replicate (Z.to_nat (m * m)) fzero).
  set (zy := replicate (Z.to_nat m) fzero).
  set (a1 := fresh (dom ars)).
  set (a2 := fresh (dom (<[a1 := zx]> ars))).
  set (b := fresh (dom fits)).
  assert (a1 ∉ dom ars) as Ha1 by apply is_fresh.
  assert (a2 ≠ a1 ∧ a2 ∉ dom ars) as [Ha21 Ha2] by apply fresh_insert_dom.
  assert (b ∉ dom fits) as Hb by apply is_fresh.
  exists b, a1, a2.
  split; [reflexivity|]. split; [reflexivity|].
  split; [unfold a2, fresh_xty, fresh_xtx; simpl; by rewrite dom_insert_L|].
  split; [done|]. split; [done|]. split; [done|]. split; [by apply not_eq_sym|].
  intros c.
  erewrite bind_Ok by (apply make_Ok; lia). simpl. fold a1 zx.
  erewrite bind_Ok by (apply make_Ok; lia). simpl. fold a2 zy.
  unfold new_struct at 1. unfold bind at 1. simpl. fold b.
  set (fb := mkFitting 0 d (Slice a1 (Z.to_nat (m * m)) (Z.to_nat (m * m)))
                           (Slice a2 (Z.to_nat m) (Z.to_nat m))).
  set (h1 := Heap (<[a2 := zy]> (<[a1 := zx]> ars)) (<[b := fb]> fits)).
  assert (fittings h1 !! b = Some fb) as Hfb by apply lookup_insert_eq.
  loop_inv (λ (i : Z) h2, h2 = h1) as (h2 & Hrun2 & ->); [lia | lia | lia | done | |].
  { intros i h2 Hi ->. exists h1. split; [|done].
    erewrite bind_Ok by (apply load_Ok; exact Hfb).
    erewrite index_set_Ok; cycle 1.
    { simpl. rewrite lookup_insert_ne by done. apply lookup_insert_eq. }
    { simpl. lia. }
    unfold h1. simpl. f_equal. f_equal.
    unfold zx. rewrite insert_replicate. fold zx.
    rewrite (insert_insert_ne _ a1) by done. rewrite insert_insert_eq.
    reflexivity. }
  rewrite (bind_Ok _ _ _ _ _ Hrun2).
  loop_inv (λ (i : Z) h2, h2 = h1) as (h3 & Hrun3 & ->); [lia | lia | lia | done | |].
  { intros i h2 Hi ->. exists h1. split; [|done].
    erewrite bind_Ok by (apply load_Ok; exact Hfb).
    erewrite index_set_Ok; cycle 1.
    { simpl. apply lookup_insert_eq. }
    { simpl. lia. }
    unfold h1. simpl. f_equal. f_equal.
    unfold zy. rewrite insert_replicate. fold zy.
    rewrite insert_insert_eq. reflexivity. }
  rewrite (bind_Ok _ _ _ _ _ Hrun3).
  f_equal. unfold h1, with_fitter, empty_stats, fb. simpl.
  fold m. rewrite !length_replicate. reflexivity.
Qed.

Lemma NewFitting_run h xs ys d :
  wf_heap h → 0 ≤ d → (d + 1) * (d + 1) ≤ int_max →
  Z.of_nat (length xs) ≤ int_max →
  ∃ b a1 a2,
    b = fresh_fitter h ∧ a1 = fresh_xtx h ∧ a2 = fresh_xty h ∧
    (b ∉ dom (fittings h)) ∧ (a1 ∉ dom (arrays h)) ∧ (a2 ∉ dom (arrays h)) ∧ a1 ≠ a2 ∧
    let done_with n := with_fitter h b a1 a2
                         (add_points (empty_stats d) (take n (zip xs ys))) in
    if decide (length xs ≤ length ys)%nat
    then NewFitting xs ys d h = Ok b (done_with (length xs))
    else NewFitting xs ys d h = Panicked IndexOutOfRange (done_with (length ys)).
Proof.
  intros Hwf Hd Hmm Hn. pose proof int_bounds as [Hmin Hmax].
  destruct (NewFitting_init h d Hd Hmm)
    as (b & a1 & a2 & Eb & Ea1 & Ea2 & Hb & Ha1 & Ha2 & Hne & Hinit).
  exists b, a1, a2.
  split; [done|]. split; [done|]. split; [done|].
  split; [done|]. split; [done|]. split; [done|]. split; [done|].
  cbv zeta. unfold NewFitting. rewrite Hinit.
  set (H0 := with_fitter h b a1 a2).
  assert (∀ n, stats_shaped (add_points (empty_stats d) (take n (zip xs ys)))) as Hshape.
  { intros n. apply add_points_shaped. by apply empty_stats_shaped. }
  assert (∀ n, wf_heap (H0 (add_points (empty_stats d) (take n (zip xs ys))))) as Hwfn.
  { intros n. apply with_fitter_shaped_wf; try done. apply add_points_N_range. }
  assert (∀ i h1, 0 ≤ i < Z.of_nat (length xs) → i < Z.of_nat (length ys) →
            h1 = H0 (add_points (empty_stats d) (take (Z.to_nat i) (zip xs ys))) →
            ∃ h2, (let* x := local_get xs i in let* y := local_get ys i in Add b x y) h1
                    = Ok tt h2 ∧
                  h2 = H0 (add_points (empty_stats d) (take (Z.to_nat (i + 1)) (zip xs ys))))
    as Hstep.
  { intros i h1 Hi Hiy ->.
    assert (is_Some (xs !! Z.to_nat i)) as [x Hx] by (apply lookup_lt_is_Some; lia).
    assert (is_Some (ys !! Z.to_nat i)) as [y Hy] by (apply lookup_lt_is_Some; lia).
    eexists. split; [|reflexivity].
    erewrite bind_Ok by (apply local_get_Ok; [lia | exact Hx]).
    erewrite bind_Ok by (apply local_get_Ok; [lia | exact Hy]).
    unfold H0. rewrite Add_with_fitter; [| apply Hwfn | done | apply Hshape].
    replace (Z.to_nat (i + 1)) with (S (Z.to_nat i)) by lia.
    rewrite (zip_take_snoc _ _ _ _ _ Hx Hy), add_points_snoc. reflexivity. }
  destruct (decide (length xs ≤ length ys)%nat) as [Hle|Hgt].
  - loop_inv (λ i h1, h1 = H0 (add_points (empty_stats d) (take (Z.to_nat i) (zip xs ys))))
      as (h1 & Hrun & ->); [lia | lia | lia | done | |].
    { intros i h1 Hi HI. apply Hstep; [done | lia | done]. }
    rewrite (bind_Ok _ _ _ _ _ Hrun). rewrite Nat2Z.id. reflexivity.
  - destruct (for_loop_panics
      (λ i h1, h1 = H0 (add_points (empty_stats d) (take (Z.to_nat i) (zip xs ys))))
      (λ h1, h1 = H0 (add_points (empty_stats d) (take (length ys) (zip xs ys))))
      0 (Z.of_nat (length xs)) (Z.of_nat (length ys))
      (λ i, let* x := local_get xs i in let* y := local_get ys i in Add b x y)
      (H0 (empty_stats d)) IndexOutOfRange) as (h1 & Hrun & ->); [lia | lia | lia | done | | |].
    { intros i h1 Hi HI. apply Hstep; [lia | lia | done]. }
    { intros h1 ->.
      assert (is_Some (xs !! length ys)) as [x Hx] by (apply lookup_lt_is_Some; lia).
      eexists. split; [|reflexivity].
      erewrite bind_Ok by (apply local_get_Ok; [lia | rewrite Nat2Z.id; exact Hx]).
      apply bind_Panicked. rewrite Nat2Z.id. apply local_get_out. lia. }
    apply bind_Panicked. exact Hrun.
Qed.

(** ** [Solve]: the closed forms *)

Lemma determinant2_Ok h s a b c d :
  arrays h !! sl_arr s = Some [a; b; c; d] → sl_len s = 4%nat →
  determinant2 s h = Ok (a ⊗ d ⊖ b ⊗ c) h.
Proof.
  intros Hs Hl. unfold determinant2.
  do 4 (erewrite bind_Ok by
    (eapply index_get_Ok; [eassumption | rewrite Hl; lia | reflexivity])).
  reflexivity.
Qed.

Lemma determinant3_Ok h s (a b c d e r t u w : F) :
  arrays h !! sl_arr s = Some [a; b; c; d; e; r; t; u; w] → sl_len s = 9%nat →
  determinant3 s h =
    Ok (a ⊗ e ⊗ w ⊕ b ⊗ r ⊗ t ⊕ c ⊗ d ⊗ u ⊖ c ⊗ e ⊗ t ⊖ b ⊗ d ⊗ w ⊖ a ⊗ r ⊗ u) h.
Proof.
  intros Hs Hl. unfold determinant3.
  do 9 (erewrite bind_Ok by
    (eapply index_get_Ok; [eassumption | rewrite Hl; lia | reflexivity])).
  reflexivity.
Qed.

(** The three solvers write [closed_form] over whatever [into] held. *)
Lemma solve1_Ok h (v sy into : slice) (lv ly cur : list F) :
  arrays h !! sl_arr v = Some lv → arrays h !! sl_arr sy = Some ly →
  arrays h !! sl_arr into = Some cur →
  length lv = 1%nat → length ly = 1%nat → length cur = 1%nat →
  sl_len v = 1%nat → sl_len sy = 1%nat → sl_len into = 1%nat →
  solve1 v sy into h =
    Ok tt (Heap (<[sl_arr into := closed_form lv ly]> (arrays h)) (fittings h)).
Proof.
  intros Hv Hy Hi Hlv Hly Hlc Hsv Hsy Hsi.
  destruct lv as [|v0 [|]]; try discriminate.
  destruct ly as [|y0 [|]]; try discriminate.
  destruct cur as [|c0 [|]]; try discriminate.
  unfold solve1.
  do 2 (erewrite bind_Ok by
    (eapply index_get_Ok; [eassumption | lia | reflexivity])).
  erewrite index_set_Ok by (first [eassumption | lia]). reflexivity.
Qed.

Lemma solve2_Ok h (v sy into : slice) (lv ly cur : list F) :
  arrays h !! sl_arr v = Some lv → arrays h !! sl_arr sy = Some ly →
  arrays h !! sl_arr into = Some cur →
  length lv = 4%nat → length ly = 2%nat → length cur = 2%nat →
  sl_len v = 4%nat → sl_len sy = 2%nat → sl_len into = 2%nat →
  solve2 v sy into h =
    Ok tt (Heap (<[sl_arr into := closed_form lv ly]> (arrays h)) (fittings h)).
Proof.
  intros Hv Hy Hi Hlv Hly Hlc Hsv Hsy Hsi.
  destruct lv as [|a [|b [|c [|d [|]]]]]; try discriminate.
  destruct ly as [|y0 [|y1 [|]]]; try discriminate.
  destruct cur as [|c0 [|c1 [|]]]; try discriminate.
  unfold solve2.
  do 4 (erewrite bind_Ok by
    (eapply index_get_Ok; [eassumption | lia | reflexivity])).
  erewrite bind_Ok by (eapply determinant2_Ok; eassumption).
  do 2 (erewrite bind_Ok by
    (eapply index_get_Ok; [eassumption | lia | reflexivity])).
  erewrite bind_Ok by (eapply index_set_Ok; [eassumption | lia]).
  erewrite index_set_Ok by (first [simpl; apply lookup_insert_eq | lia]).
  simpl. rewrite insert_insert_eq. reflexivity.
Qed.

Lemma solve3_Ok h (v sy into : slice) (lv ly cur : list F) :
  arrays h !! sl_arr v = Some lv → arrays h !! sl_arr sy = Some ly →
  arrays h !! sl_arr into = Some cur →
  length lv = 9%nat → length ly = 3%nat → length cur = 3%nat →
  sl_len v = 9%nat → sl_len sy = 3%nat → sl_len into = 3%nat →
  solve3 v sy into h =
    Ok tt (Heap (<[sl_arr into := closed_form lv ly]> (arrays h)) (fittings h)).
Proof.
  intros Hv Hy Hi Hlv Hly Hlc Hsv Hsy Hsi.
  destruct lv as [|a [|b [|c [|d [|e [|f' [|g' [|h' [|i' [|]]]]]]]]]]; try discriminate.
  destruct ly as [|y0 [|y1 [|y2 [|]]]]; try discriminate.
  destruct cur as [|c0 [|c1 [|c2 [|]]]]; try discriminate.
  unfold solve3.
  do 9 (erewrite bind_Ok by
    (eapply index_get_Ok; [eassumption | lia | reflexivity])).
  erewrite bind_Ok by (eapply determinant3_Ok; eassumption).
  do 3 (erewrite bind_Ok by
    (eapply index_get_Ok; [eassumption | lia | reflexivity])).
  erewrite bind_Ok by (eapply index_set_Ok; [eassumption | lia]).
  erewrite bind_Ok by (eapply index_set_Ok; [simpl; apply lookup_insert_eq | lia]).
  erewrite index_set_Ok by (first [simpl; apply lookup_insert_eq | lia]).
  simpl. rewrite !insert_insert_eq. reflexivity.
Qed.

Lemma Solve_quick h p f lx ly :
  wf_heap h → fittings h !! p = Some f →
  arrays h !! sl_arr (xtx f) = Some lx → arrays h !! sl_arr (xty f) = Some ly →
  Degree f ≤ 2 → Degree f + 1 ≤ N f →
  Solve p h =
    Ok (Slice (fresh (dom (arrays h))) (Z.to_nat (Degree f + 1)) (Z.to_nat (Degree f + 1)))
       (Heap (<[fresh (dom (arrays h)) := closed_form lx ly]> (arrays h)) (fittings h)).
Proof.
  intros Hwf Hp Hx Hy Hd2 HN.
  destruct (wf_backed _ Hwf _ _ Hp) as [(lx' & Hx' & Hlx & _) (ly' & Hy' & Hly & _)].
  rewrite Hx in Hx'. rewrite Hy in Hy'. simplify_eq.
  pose proof (wf_shaped _ Hwf _ _ Hp) as Hsh.
  destruct (shaped_bounds _ Hsh) as (Hd & Hm & Hmmax & Hmm).
  destruct Hsh as (_ & _ & Hlenx & Hleny).
  pose proof int_bounds as [Hmin Hmax].
  destruct h as [ars fits]. simpl in *.
  set (a := fresh (dom ars)).
  assert (a ∉ dom ars) as Ha by apply is_fresh.
  assert (a ≠ sl_arr (xtx f) ∧ a ≠ sl_arr (xty f)) as [Hax Hay].
  { split; intros E; apply Ha; rewrite E; apply elem_of_dom; eauto. }
  unfold Solve.
  erewrite bind_Ok by (apply load_Ok; exact Hp). rewrite Hm.
  rewrite decide_True by lia.
  erewrite bind_Ok by (apply make_Ok; lia). simpl. fold a.
  assert (Degree f = 0 ∨ Degree f = 1 ∨ Degree f = 2) as [E|[E|E]] by lia;
    rewrite E in *; simpl in *.
  - erewrite bind_Ok by (apply load_Ok; exact Hp).
    erewrite bind_Ok; cycle 1.
    { eapply (solve1_Ok _ _ _ (Slice a 1 1)); simpl;
        [ rewrite lookup_insert_ne by done; exact Hx
        | rewrite lookup_insert_ne by done; exact Hy
        | apply lookup_insert_eq | lia | lia | done | lia | lia | done ]. }
    simpl. rewrite insert_insert_eq. reflexivity.
  - erewrite bind_Ok by (apply load_Ok; exact Hp).
    erewrite bind_Ok; cycle 1.
    { eapply (solve2_Ok _ _ _ (Slice a 2 2)); simpl;
        [ rewrite lookup_insert_ne by done; exact Hx
        | rewrite lookup_insert_ne by done; exact Hy
        | apply lookup_insert_eq | lia | lia | done | lia | lia | done ]. }
    simpl. rewrite insert_insert_eq. reflexivity.
  - erewrite bind_Ok by (apply load_Ok; exact Hp).
    erewrite bind_Ok; cycle 1.
    { eapply (solve3_Ok _ _ _ (Slice a 3 3)); simpl;
        [ rewrite lookup_insert_ne by done; exact Hx
        | rewrite lookup_insert_ne by done; exact Hy
        | apply lookup_insert_eq | lia | lia | done | lia | lia | done ]. }
    simpl. rewrite insert_insert_eq. reflexivity.
Qed.

(** ** [Solve]: the general path *)

Lemma block_ext rows cols stride (l1 l2 : list F) :
  (∀ r c, (r < rows)%nat → (c < cols)%nat →
     l1 !! (r * stride + c)%nat = l2 !! (r * stride + c)%nat) →
  block rows cols stride l1 = block rows cols stride l2.
Proof.
  intros Hext. unfold block. rewrite !flat_map_concat_map. f_equal.
  apply map_ext_in. intros r Hr%in_seq.
  apply map_ext_in. intros c Hc%in_seq.
  rewrite Hext by lia. reflexivity.
Qed.

Lemma block_take rows cols stride n (l : list F) :
  (∀ r c, (r < rows)%nat → (c < cols)%nat → (r * stride + c < n)%nat) →
  block rows cols stride (take n l) = block rows cols stride l.
Proof.
  intros Hn. apply block_ext. intros r c Hr Hc.
  apply lookup_take_lt. by apply Hn.
Qed.

Lemma solved_block_length n m (v w : list F) :
  (n ≤ m)%nat → length (solved_block n m v w) = m.
Proof.
  intros Hn. unfold solved_block.
  rewrite length_app, length_map, length_seq, length_replicate. lia.
Qed.

Lemma dense_entries_Ok h (D : Dense) lx n c m :
  arrays h !! sl_arr (d_data D) = Some lx →
  d_rows D = Z.of_nat n → d_cols D = Z.of_nat c → d_stride D = Z.of_nat m →
  (∀ r u : nat, (r < n)%nat → (u < c)%nat → (r * m + u < sl_len (d_data D))%nat) →
  dense_entries D h = Ok (block n c m lx) h.
Proof.
  intros Hx Hr Hc Hs Hin. unfold dense_entries, contents. rewrite Hx. simpl.
  rewrite Hr, Hc, Hs, !Nat2Z.id. rewrite block_take by done. reflexivity.
Qed.

(** From the call of gonum's solver to the end of [Solve]. *)
Lemma Solve_finish h p f lx ly (coef right : Dense) (n : nat) :
  wf_heap h → fittings h !! p = Some f →
  arrays h !! sl_arr (xtx f) = Some lx → arrays h !! sl_arr (xty f) = Some ly →
  (n ≤ Z.to_nat (Degree f + 1))%nat →
  sl_arr (d_data coef) = sl_arr (xtx f) → sl_arr (d_data right) = sl_arr (xty f) →
  d_rows coef = Z.of_nat n → d_cols coef = Z.of_nat n → d_stride coef = Degree f + 1 →
  d_rows right = Z.of_nat n → d_cols right = 1 → d_stride right = 1 →
  (∀ r u : nat, (r < n)%nat → (u < n)%nat →
     (r * Z.to_nat (Degree f + 1) + u < sl_len (d_data coef))%nat) →
  (n ≤ sl_len (d_data right))%nat →
  (let* solved := Dense_Solve coef right in
   let beta := solved.1 in
   let* fr := load p in
   let* rst := make (int_add (Degree fr) 1) (int_add (Degree fr) 1) in
   run for_loop 0 (Z.of_nat n) (λ i,
         let* v := Dense_At beta i in index_set rst i v) in
   run for_loop (Z.of_nat n) (int_add (Degree fr) 1) (λ i, index_set rst i fzero) in
   ret rst) h =
  Ok (Slice (fresh (dom (arrays h))) (Z.to_nat (Degree f + 1)) (Z.to_nat (Degree f + 1)))
     (Heap (<[fresh (dom (arrays h)) :=
               solved_block n (Z.to_nat (Degree f + 1)) lx ly]> (arrays h))
           (fittings h)).
Proof.
  intros Hwf Hp Hx Hy Hn Hcx Hcy Hcr Hcc Hcs Hrr Hrc Hrs Hinx Hiny.
  pose proof (wf_shaped _ Hwf _ _ Hp) as Hsh.
  destruct (shaped_bounds _ Hsh) as (Hd & Hm & Hmmax & Hmm).
  pose proof int_bounds as [Hmin Hmax].
  destruct h as [ars fits]. simpl in *.
  set (m := Z.to_nat (Degree f + 1)) in *.
  set (a := fresh (dom ars)).
  unfold Dense_Solve. rewrite decide_False by (intros Hc; apply Hc; congruence).
  erewrite bind_Ok; cycle 1.
  { erewrite bind_Ok; cycle 1.
    { eapply (dense_entries_Ok _ coef lx n n m); simpl; try done.
      - by rewrite Hcx.
      - rewrite Hcs. unfold m. lia. }
    erewrite bind_Ok; cycle 1.
    { eapply (dense_entries_Ok _ right ly n 1 1); simpl; try done.
      - by rewrite Hcy.
      - intros r u Hr Hu. lia. }
    reflexivity. }
  cbv zeta. simpl fst.
  rewrite Hcc, Nat2Z.id.
  set (beta := map (mat_solve n (block n n m lx) (block n 1 1 ly)) (seq 0 n)).
  assert (length beta = n) as Hbeta by (unfold beta; rewrite length_map, length_seq; done).
  erewrite bind_Ok by (apply load_Ok; exact Hp). rewrite Hm.
  erewrite bind_Ok by (apply make_Ok; lia). simpl. fold a. fold m.
  set (zeros := replicate m fzero).
  set (newr := solved_block n m lx ly).
  assert (newr = beta ++ replicate (m - n) fzero) as Enewr by reflexivity.
  assert (length newr = length zeros) as Hlen.
  { unfold newr, zeros. rewrite solved_block_length by done. by rewrite length_replicate. }
  assert (length zeros = m) as Hz by apply length_replicate.
  loop_inv (λ i h1, h1 = Heap (<[a := mix (Z.to_nat i) newr zeros]> ars) fits)
    as (h1 & Hrun1 & ->); [lia | lia | lia | done | |].
  { intros i h1 Hi ->.
    assert (is_Some (beta !! Z.to_nat i)) as [v Hv] by (apply lookup_lt_is_Some; lia).
    eexists. split.
    - unfold Dense_At. rewrite decide_True by lia. rewrite Hv. rewrite bind_ret.
      erewrite index_set_Ok by (first [simpl; apply lookup_insert_eq | simpl; lia]).
      reflexivity.
    - simpl. rewrite insert_insert_eq. do 2 f_equal.
      replace (Z.to_nat (i + 1)) with (S (Z.to_nat i)) by lia.
      apply insert_mix; [done|].
      rewrite Enewr. rewrite lookup_app_l by lia. exact Hv. }
  rewrite (bind_Ok _ _ _ _ _ Hrun1).
  replace (mix (Z.to_nat (Z.of_nat n)) newr zeros) with newr; cycle 1.
  { rewrite Nat2Z.id. unfold mix. rewrite Enewr at 2.
    rewrite take_app_length' by done.
    unfold zeros. rewrite drop_replicate. exact Enewr. }
  loop_inv (λ (i : Z) h1, h1 = Heap (<[a := newr]> ars) fits)
    as (h2 & Hrun2 & ->); [lia | lia | lia | done | |].
  { intros i h1 Hi ->. eexists. split.
    - erewrite index_set_Ok by (first [simpl; apply lookup_insert_eq | simpl; lia]).
      reflexivity.
    - simpl. rewrite insert_insert_eq. do 2 f_equal.
      apply list_insert_id. rewrite Enewr.
      rewrite lookup_app_r by lia. apply lookup_replicate_2. lia. }
  rewrite (bind_Ok _ _ _ _ _ Hrun2). reflexivity.
Qed.

Lemma Solve_finish_Z h p f lx ly (coef right : Dense) (nz : Z) :
  wf_heap h → fittings h !! p = Some f →
  arrays h !! sl_arr (xtx f) = Some lx → arrays h !! sl_arr (xty f) = Some ly →
  0 ≤ nz ≤ Degree f + 1 →
  sl_arr (d_data coef) = sl_arr (xtx f) → sl_arr (d_data right) = sl_arr (xty f) →
  d_rows coef = nz → d_cols coef = nz → d_stride coef = Degree f + 1 →
  d_rows right = nz → d_cols right = 1 → d_stride right = 1 →
  (nz - 1) * (Degree f + 1) + nz ≤ Z.of_nat (sl_len (d_data coef)) →
  nz ≤ Z.of_nat (sl_len (d_data right)) →
  (let* solved := Dense_Solve coef right in
   let beta := solved.1 in
   let* fr := load p in
   let* rst := make (int_add (Degree fr) 1) (int_add (Degree fr) 1) in
   run for_loop 0 nz (λ i,
         let* v := Dense_At beta i in index_set rst i v) in
   run for_loop nz (int_add (Degree fr) 1) (λ i, index_set rst i fzero) in
   ret rst) h =
  Ok (Slice (fresh (dom (arrays h))) (Z.to_nat (Degree f + 1)) (Z.to_nat (Degree f + 1)))
     (Heap (<[fresh (dom (arrays h)) :=
               solved_block (Z.to_nat nz) (Z.to_nat (Degree f + 1)) lx ly]> (arrays h))
           (fittings h)).
Proof.
  intros Hwf Hp Hx Hy Hn Hcx Hcy Hcr Hcc Hcs Hrr Hrc Hrs Hinx Hiny.
  remember (Z.to_nat nz) as n eqn:En.
  assert (nz = Z.of_nat n) as -> by lia.
  apply Solve_finish; try done; try lia.
  intros r u Hr Hu.
  pose proof (wf_shaped _ Hwf _ _ Hp) as (Hd & _).
  nia.
Qed.

Lemma Solve_general_run h p f lx ly :
  wf_heap h → fittings h !! p = Some f →
  arrays h !! sl_arr (xtx f) = Some lx → arrays h !! sl_arr (xty f) = Some ly →
  1 ≤ N f →
  Solve_general p (Degree f + 1) h =
    Ok (Slice (fresh (dom (arrays h))) (Z.to_nat (Degree f + 1)) (Z.to_nat (Degree f + 1)))
       (Heap (<[fresh (dom (arrays h)) :=
                 solved_block (Z.to_nat (Z.min (Degree f + 1) (N f)))
                              (Z.to_nat (Degree f + 1)) lx ly]> (arrays h))
             (fittings h)).
Proof.
  intros Hwf Hp Hx Hy HN.
  destruct (wf_backed _ Hwf _ _ Hp) as [(lx' & Hx' & Hlx & Hcx) (ly' & Hy' & Hly & Hcy)].
  rewrite Hx in Hx'. rewrite Hy in Hy'. simplify_eq.
  pose proof (wf_shaped _ Hwf _ _ Hp) as Hsh.
  destruct (shaped_bounds _ Hsh) as (Hd & Hm & Hmmax & Hmm).
  destruct Hsh as (_ & _ & Hlenx & Hleny).
  pose proof int_bounds as [Hmin Hmax].
  unfold Solve_general.
  erewrite bind_Ok by (apply load_Ok; exact Hp).
  unfold NewDense.
  rewrite (decide_False (P := Degree f + 1 ≤ 0 ∨ Degree f + 1 ≤ 0)) by lia.
  rewrite (decide_False (P := Degree f + 1 ≤ 0 ∨ 1 ≤ 0)) by lia.
  rewrite (int_mul_id (Degree f + 1) (Degree f + 1)) by lia.
  rewrite (int_mul_id (Degree f + 1) 1) by lia.
  rewrite decide_False by (intros Hc; apply Hc; lia).
  rewrite decide_False by (intros Hc; apply Hc; lia).
  rewrite !bind_ret.
  erewrite bind_Ok by (apply load_Ok; exact Hp). rewrite Hm.
  destruct (decide (Degree f + 1 > N f)) as [Hlt|Hge].
  - (* fewer points than coefficients *)
    assert (0 ≤ (N f - 1) * (Degree f + 1)) by nia.
    assert ((N f - 1) * (Degree f + 1) + N f ≤ (Degree f + 1) * (Degree f + 1)) by nia.
    unfold Dense_Slice, reslice. simpl.
    rewrite decide_False by lia.
    rewrite int_sub_id by lia. rewrite int_mul_id by lia. rewrite int_add_id by lia.
    rewrite decide_True by lia. rewrite !bind_ret.
    rewrite (decide_False (P := Degree f + 1 ≤ 0 ∨ 1 ≤ 0 ∨ _)) by lia.
    rewrite int_mul_id by lia. rewrite int_add_id by lia.
    rewrite decide_True by lia. rewrite !bind_ret.
    cbv zeta. simpl fst. simpl snd.
    replace (Z.min (Degree f + 1) (N f)) with (N f) by lia.
    apply Solve_finish_Z; simpl; try done; lia.
  - rewrite !bind_ret. cbv zeta. simpl fst. simpl snd.
    replace (Z.min (Degree f + 1) (N f)) with (Degree f + 1) by lia.
    apply Solve_finish_Z; simpl; try done; nia.
Qed.

(** ** Allocation leaves the fitters alone *)

Lemma alloc_wf h a l :
  wf_heap h → a ∉ dom (arrays h) →
  wf_heap (Heap (<[a := l]> (arrays h)) (fittings h)).
Proof.
  intros Hwf Ha.
  assert (∀ s, backed h s → backed (Heap (<[a := l]> (arrays h)) (fittings h)) s) as Hbk.
  { intros s Hs. pose proof (backed_dom _ _ Hs) as Hdom.
    destruct Hs as (ls & Hls & Hrest). exists ls. split; [|done]. simpl.
    rewrite lookup_insert_ne; [done|]. intros ->. done. }
  split; simpl.
  - intros q g Hq. destruct (wf_backed _ Hwf _ _ Hq). split; by apply Hbk.
  - intros q g Hq. by eapply wf_shaped.
  - intros q g Hq. by eapply wf_own.
  - intros q1 q2 g1 g2 Hne Hq1 Hq2. by eapply (wf_sep _ Hwf q1 q2).
  - intros q g Hq. by eapply wf_count.
Qed.

Lemma alloc_view h a l q :
  wf_heap h → a ∉ dom (arrays h) →
  view (Heap (<[a := l]> (arrays h)) (fittings h)) q = view h q.
Proof.
  intros Hwf Ha. unfold view. simpl.
  destruct (fittings h !! q) as [g|] eqn:Hq; [|done]. simpl.
  destruct (wf_backed _ Hwf _ _ Hq) as [Hx%backed_dom Hy%backed_dom].
  unfold contents. simpl.
  rewrite !lookup_insert_ne; [done | |]; intros ->; done.
Qed.

Lemma fresh_ne (ars : gmap loc (list F)) c l : ars !! c = Some l → fresh (dom ars) ≠ c.
Proof.
  intros Hc E. apply (is_fresh (dom ars)). rewrite E. apply elem_of_dom. eauto.
Qed.

(** ** [Solve] *)

Lemma Solve_underdetermined h p f lx ly :
  wf_heap h → fittings h !! p = Some f →
  arrays h !! sl_arr (xtx f) = Some lx → arrays h !! sl_arr (xty f) = Some ly →
  1 ≤ N f < Degree f + 1 →
  Solve p h =
    Ok (Slice (fresh (dom (arrays h))) (Z.to_nat (Degree f + 1)) (Z.to_nat (Degree f + 1)))
       (Heap (<[fresh (dom (arrays h)) :=
                 solved_block (Z.to_nat (N f)) (Z.to_nat (Degree f + 1)) lx ly]> (arrays h))
             (fittings h)).
Proof.
  intros Hwf Hp Hx Hy HN.
  destruct (shaped_bounds _ (wf_shaped _ Hwf _ _ Hp)) as (Hd & Hm & _).
  unfold Solve. erewrite bind_Ok by (apply load_Ok; exact Hp). rewrite Hm.
  rewrite decide_False by lia.
  rewrite (Solve_general_run _ _ _ _ _ Hwf Hp Hx Hy) by lia.
  replace (Z.min (Degree f + 1) (N f)) with (N f) by lia. reflexivity.
Qed.

Lemma Solve_high_degree h p f lx ly :
  wf_heap h → fittings h !! p = Some f →
  arrays h !! sl_arr (xtx f) = Some lx → arrays h !! sl_arr (xty f) = Some ly →
  3 ≤ Degree f → Degree f + 1 ≤ N f →
  let m := Z.to_nat (Degree f + 1) in
  let a0 := fresh (dom (arrays h)) in
  let a := fresh (dom (<[a0 := replicate m fzero]> (arrays h))) in
  Solve p h =
    Ok (Slice a m m)
       (Heap (<[a := solved_block m m lx ly]> (<[a0 := replicate m fzero]> (arrays h)))
             (fittings h)).
Proof.
  intros Hwf Hp Hx Hy Hd3 HN m a0 a.
  destruct (shaped_bounds _ (wf_shaped _ Hwf _ _ Hp)) as (Hd & Hm & _).
  assert (a0 ∉ dom (arrays h)) as Ha0 by apply is_fresh.
  unfold Solve. erewrite bind_Ok by (apply load_Ok; exact Hp). rewrite Hm.
  rewrite decide_True by lia.
  erewrite bind_Ok by (apply make_Ok; lia).
  rewrite !decide_False by lia.
  erewrite Solve_general_run; simpl.
  - replace (Z.min (Degree f + 1) (N f)) with (Degree f + 1) by lia. reflexivity.
  - by apply alloc_wf.
  - exact Hp.
  - rewrite lookup_insert_ne; [done|]. by eapply fresh_ne.
  - rewrite lookup_insert_ne; [done|]. by eapply fresh_ne.
  - lia.
Qed.

(** On a fitter without points the N×N block is empty, and gonum's
    [Slice] computes a negative bound for the data. *)
Lemma Solve_no_points h p f :
  wf_heap h → fittings h !! p = Some f → N f = 0 →
  Solve p h = Panicked SliceBoundsOutOfRange h.
Proof.
  intros Hwf Hp HN.
  pose proof (wf_shaped _ Hwf _ _ Hp) as Hsh.
  destruct (shaped_bounds _ Hsh) as (Hd & Hm & Hmmax & Hmm).
  destruct Hsh as (_ & _ & Hlenx & Hleny).
  pose proof int_bounds as [Hmin Hmax].
  unfold Solve. erewrite bind_Ok by (apply load_Ok; exact Hp). rewrite Hm.
  rewrite decide_False by lia.
  unfold Solve_general.
  erewrite bind_Ok by (apply load_Ok; exact Hp).
  unfold NewDense.
  rewrite (decide_False (P := Degree f + 1 ≤ 0 ∨ Degree f + 1 ≤ 0)) by lia.
  rewrite (decide_False (P := Degree f + 1 ≤ 0 ∨ 1 ≤ 0)) by lia.
  rewrite (int_mul_id (Degree f + 1) (Degree f + 1)) by lia.
  rewrite (int_mul_id (Degree f + 1) 1) by lia.
  rewrite decide_False by (intros Hc; apply Hc; lia).
  rewrite decide_False by (intros Hc; apply Hc; lia).
  rewrite !bind_ret.
  erewrite bind_Ok by (apply load_Ok; exact Hp). rewrite Hm.
  rewrite decide_True by lia.
  unfold Dense_Slice at 1. simpl. rewrite HN.
  rewrite decide_False by lia.
  unfold reslice.
  rewrite int_sub_id by lia. rewrite int_mul_id by lia. rewrite int_add_id by lia.
  rewrite decide_False by lia.
  reflexivity.
Qed.

(** ** Constructors on the statistics *)

Lemma zip_take_length (xs ys : list F) : take (length xs) (zip xs ys) = zip xs ys.
Proof. apply take_ge. rewrite length_zip_with. lia. Qed.

Lemma add_points_N d (pts : list (F * F)) :
  Z.of_nat (length pts) ≤ int_max →
  s_N (add_points (empty_stats d) pts) = Z.of_nat (length pts).
Proof.
  pose proof int_bounds.
  induction pts as [|pt pts IH] using rev_ind; intros Hn; [done|].
  rewrite length_app in *. simpl in *.
  rewrite add_points_snoc. simpl. rewrite IH by lia.
  rewrite int_add_id by lia. lia.
Qed.

Lemma NewFitting_spec h xs ys d :
  wf_heap h → 0 ≤ d → (d + 1) * (d + 1) ≤ int_max →
  Z.of_nat (length xs) ≤ int_max → (length xs ≤ length ys)%nat →
  ∃ b h', NewFitting xs ys d h = Ok b h' ∧
    b = fresh_fitter h ∧
    h' = with_fitter h b (fresh_xtx h) (fresh_xty h)
           (add_points (empty_stats d) (zip xs ys)) ∧
    (b ∉ dom (fittings h)) ∧ wf_heap h' ∧
    view h' b = Some (add_points (empty_stats d) (zip xs ys)) ∧
    (∀ q, q ≠ b → view h' q = view h q ∧ fittings h' !! q = fittings h !! q).
Proof.
  intros Hwf Hd Hm Hn Hle.
  destruct (NewFitting_run h xs ys d Hwf Hd Hm Hn)
    as (b & a1 & a2 & Eb & Ea1 & Ea2 & Hb & Ha1 & Ha2 & Hne & Hrun).
  cbv zeta in Hrun. rewrite decide_True in Hrun by done.
  rewrite zip_take_length in Hrun.
  exists b. eexists. split; [exact Hrun|].
  split; [done|]. split; [by rewrite Ea1, Ea2|]. split; [done|].
  split; [|split].
  - apply with_fitter_shaped_wf; try done.
    + apply add_points_shaped. by apply empty_stats_shaped.
    + apply add_points_N_range.
  - by apply view_with_fitter_eq.
  - intros q Hq. split; [by apply view_with_fitter_ne|].
    unfold with_fitter. simpl. by rewrite lookup_insert_ne.
Qed.

Lemma Copy_spec h p st :
  wf_heap h → view h p = Some st →
  ∃ b h', Copy p h = Ok b h' ∧
    b = fresh_fitter h ∧ h' = with_fitter h b (fresh_xtx h) (fresh_xty h) st ∧
    (b ∉ dom (fittings h)) ∧ b ≠ p ∧ wf_heap h' ∧
    view h' b = Some st ∧
    (∀ q, q ≠ b → view h' q = view h q ∧ fittings h' !! q = fittings h !! q).
Proof.
  intros Hwf Hv.
  destruct (view_inv _ _ _ Hwf Hv) as (f & Hp & HN & HD & Hx & Hy & Hlx & Hly).
  destruct (Copy_run h p f _ _ Hwf Hp Hx Hy)
    as (b & a1 & a2 & Eb & Ea1 & Ea2 & Hb & Ha1 & Ha2 & Hne & Hrun).
  pose proof (wf_shaped _ Hwf _ _ Hp) as (Hd & Hm & Hsx & Hsy).
  pose proof (wf_count _ Hwf _ _ Hp) as Hcount.
  rewrite HN, HD in Hrun.
  replace (mkStats (s_N st) (s_Degree st) (s_xtx st) (s_xty st)) with st in Hrun
    by (by destruct st).
  exists b. eexists. split; [exact Hrun|].
  split; [done|]. split; [by rewrite Ea1, Ea2|]. split; [done|].
  split. { intros ->. apply Hb, elem_of_dom. eauto. }
  split; [|split].
  - apply with_fitter_wf; try done; rewrite <- ?HD, <- ?HN; try done; lia.
  - by apply view_with_fitter_eq.
  - intros q Hq. split; [by apply view_with_fitter_ne|].
    unfold with_fitter. simpl. by rewrite lookup_insert_ne.
Qed.

Lemma fresh_locs h :
  (fresh_fitter h ∉ dom (fittings h)) ∧ (fresh_xtx h ∉ dom (arrays h)) ∧
  (fresh_xty h ∉ dom (arrays h)) ∧ fresh_xtx h ≠ fresh_xty h.
Proof.
  split; [apply is_fresh|]. split; [apply is_fresh|].
  pose proof (is_fresh ({[fresh_xtx h]} ∪ dom (arrays h))) as Hf.
  fold (fresh_xty h) in Hf.
  split; [intros E | intros E]; apply Hf.
  - by apply elem_of_union_r.
  - apply elem_of_union_l, elem_of_singleton. by symmetry.
Qed.

Lemma Add_all_with_fitter h b a1 a2 st pts :
  wf_heap h →
  b ∉ dom (fittings h) → a1 ∉ dom (arrays h) → a2 ∉ dom (arrays h) → a1 ≠ a2 →
  stats_shaped st → int_min ≤ s_N st ≤ int_max →
  Add_all b pts (with_fitter h b a1 a2 st) =
    Ok tt (with_fitter h b a1 a2 (add_points st pts)).
Proof.
  intros Hwf Hb Ha1 Ha2 Hne. revert st.
  induction pts as [|pt pts IH]; intros st Hs HN; [reflexivity|].
  simpl. erewrite bind_Ok; cycle 1.
  { apply Add_with_fitter; [|done|done]. by apply with_fitter_shaped_wf. }
  apply IH; [by apply add_point_shaped | apply wrap_range].
Qed.

(** [NewFitting] is [NewFitting] without points followed by [Add] on each
    pair, in order. *)
Lemma NewFitting_as_Add_all h xs ys d :
  wf_heap h → 0 ≤ d → (d + 1) * (d + 1) ≤ int_max →
  Z.of_nat (length xs) ≤ int_max → (length xs ≤ length ys)%nat →
  NewFitting xs ys d h =
    (let* b := NewFitting [] [] d in
     run Add_all b (zip xs ys) in
     ret b) h.
Proof.
  intros Hwf Hd Hm Hn Hle. pose proof int_bounds.
  destruct (NewFitting_spec h xs ys d Hwf Hd Hm Hn Hle)
    as (b & h1 & Hrun & Eb & Eh & Hb & _).
  destruct (NewFitting_spec h [] [] d Hwf Hd Hm) as (b' & h2 & Hrun' & Eb' & Eh' & _);
    [simpl; lia | done |].
  destruct (fresh_locs h) as (_ & Ha1 & Ha2 & Hne).
  rewrite Hrun. rewrite (bind_Ok _ _ _ _ _ Hrun').
  subst b' h1 h2. rewrite <- Eb.
  erewrite bind_Ok; cycle 1.
  { apply Add_all_with_fitter; try done; first [by apply empty_stats_shaped | simpl; lia]. }
  reflexivity.
Qed.

(** ** [Solve] on a fitter that holds points *)

Lemma closed_form_length (v w : list F) n :
  (1 ≤ n ≤ 3)%nat → length w = n → length v = (n * n)%nat →
  length (closed_form v w) = n.
Proof.
  intros Hn Hw Hv.
  assert (n = 1 ∨ n = 2 ∨ n = 3)%nat as [->|[->| ->]] by lia.
  - destruct w as [|y0 [|]]; try discriminate.
    destruct v as [|v0 [|]]; try discriminate. reflexivity.
  - destruct w as [|y0 [|y1 [|]]]; try discriminate.
    destruct v as [|a [|b [|c [|d [|]]]]]; try discriminate. reflexivity.
  - destruct w as [|y0 [|y1 [|y2 [|]]]]; try discriminate.
    destruct v as [|a [|b [|c [|d [|e [|r [|t [|u [|z [|]]]]]]]]]]; try discriminate.
    reflexivity.
Qed.

Lemma solution_length f (v w : list F) :
  shaped f → 1 ≤ N f →
  length v = sl_len (xtx f) → length w = sl_len (xty f) →
  length (solution f v w) = Z.to_nat (Degree f + 1).
Proof.
  intros (Hd & Hm & Hx & Hy) HN Hv Hw. unfold solution.
  destruct (decide _) as [[H1 H2]|Hno].
  - apply closed_form_length; lia.
  - apply solved_block_length. lia.
Qed.

Lemma Solve_returns h p f lx ly :
  wf_heap h → fittings h !! p = Some f →
  arrays h !! sl_arr (xtx f) = Some lx → arrays h !! sl_arr (xty f) = Some ly →
  1 ≤ N f →
  ∃ s h', Solve p h = Ok s h' ∧
    contents h' s = Some (solution f lx ly) ∧
    sl_len s = Z.to_nat (Degree f + 1) ∧
    (sl_arr s ∉ dom (arrays h)) ∧
    wf_heap h' ∧ fittings h' = fittings h ∧ (∀ q, view h' q = view h q).
Proof.
  intros Hwf Hp Hx Hy HN.
  destruct (wf_backed _ Hwf _ _ Hp) as [(lx' & Hx' & Hlx & _) (ly' & Hy' & Hly & _)].
  rewrite Hx in Hx'. rewrite Hy in Hy'. simplify_eq.
  pose proof (wf_shaped _ Hwf _ _ Hp) as Hsh.
  pose proof (solution_length f lx' ly' Hsh HN Hlx Hly) as Hlen.
  set (a0 := fresh (dom (arrays h))).
  assert (a0 ∉ dom (arrays h)) as Ha0 by apply is_fresh.
  unfold solution in *.
  destruct (decide (Degree f + 1 ≤ N f ∧ Degree f ≤ 2)) as [[H1 H2]|Hno].
  - eexists _, _. split; [by apply Solve_quick|]. simpl.
    split. { apply contents_backed; simpl; [apply lookup_insert_eq | done]. }
    split; [done|]. split; [done|].
    split; [by apply alloc_wf|]. split; [done|].
    intros q. by apply alloc_view.
  - destruct (decide (N f < Degree f + 1)) as [Hlt|Hge].
    + eexists _, _. split; [apply Solve_underdetermined; try done; lia|]. simpl.
      replace (Z.min (Degree f + 1) (N f)) with (N f) in * by lia.
      split. { apply contents_backed; simpl; [apply lookup_insert_eq | done]. }
      split; [done|]. split; [done|].
      split; [by apply alloc_wf|]. split; [done|].
      intros q. by apply alloc_view.
    + replace (Z.min (Degree f + 1) (N f)) with (Degree f + 1) in * by lia.
      pose proof (Solve_high_degree h p f lx' ly' Hwf Hp Hx Hy ltac:(lia) ltac:(lia)) as Hrun.
      cbv zeta in Hrun. fold a0 in Hrun.
      set (zeros := replicate (Z.to_nat (Degree f + 1)) fzero) in *.
      set (h1 := Heap (<[a0 := zeros]> (arrays h)) (fittings h)).
      assert (wf_heap h1) as Hwf1 by (by apply alloc_wf).
      set (a := fresh (dom (<[a0 := zeros]> (arrays h)))) in *.
      assert (a ∉ dom (arrays h1)) as Ha by apply is_fresh.
      assert (a ∉ dom (arrays h)) as Ha'.
      { intros Hin. apply Ha. unfold h1. simpl. rewrite dom_insert_L.
        by apply elem_of_union_r. }
      eexists _, _. split; [exact Hrun|]. simpl.
      split. { apply contents_backed; simpl; [apply lookup_insert_eq | done]. }
      split; [done|]. split; [done|].
      split; [by apply (alloc_wf h1)|]. split; [done|].
      intros q. rewrite (alloc_view h1) by done. by apply alloc_view.
Qed.

End Properties.

(* ------------------------------------------------------------------ *)
(** * Laws that hold when the arithmetic is exact

    float64 addition is not associative, so the statistics of a merge
    and of one long run of [Add] agree only up to rounding, and the
    closed forms solve the normal equations only up to rounding.  The
    statements below hold in every arithmetic whose operations obey the
    usual laws, the rationals among them. *)

Section Additive.

Context {F : Type} {arith : Arith F}.
Local Open Scope arith_scope.

Hypothesis fadd_assoc : ∀ a b c : F, a ⊕ (b ⊕ c) = (a ⊕ b) ⊕ c.
Hypothesis fadd_zero_r : ∀ a : F, a ⊕ fzero = a.

Implicit Types (st : stats (F:=F)).

Lemma vadd_assoc (u v w : list F) : vadd u (vadd v w) = vadd (vadd u v) w.
Proof.
  unfold vadd. revert v w. induction u as [|a u IH]; intros [|b v] [|c w]; simpl; try done.
  f_equal; [apply fadd_assoc | apply IH].
Qed.

Lemma vadd_zeros (u : list F) n : n = length u → vadd u (replicate n fzero) = u.
Proof.
  intros ->. unfold vadd. induction u as [|a u IH]; simpl; [done|].
  f_equal; [apply fadd_zero_r | apply IH].
Qed.

Lemma merge_add_point st1 st2 (x y : F) :
  s_Degree st1 = s_Degree st2 →
  merge_stats st1 (add_point st2 x y) = add_point (merge_stats st1 st2) x y.
Proof.
  intros Hd. unfold merge_stats, add_point. simpl. rewrite Hd.
  f_equal; [apply int_add_assoc | apply vadd_assoc | apply vadd_assoc].
Qed.

Lemma merge_add_points st1 st2 pts :
  s_Degree st1 = s_Degree st2 →
  merge_stats st1 (add_points st2 pts) = add_points (merge_stats st1 st2) pts.
Proof.
  revert st2. induction pts as [|pt pts IH]; intros st2 Hd; [done|].
  simpl. rewrite IH by done. f_equal. by apply merge_add_point.
Qed.

Lemma merge_empty st d :
  stats_shaped st → s_Degree st = d → int_min ≤ s_N st ≤ int_max →
  merge_stats st (empty_stats d) = st.
Proof.
  intros (Hd & Hm & Hx & Hy) <- HN. destruct st as [n d lx ly]. simpl in *.
  unfold merge_stats, empty_stats. simpl. f_equal.
  - unfold int_add. rewrite Z.add_0_r. by apply wrap_id.
  - apply vadd_zeros. lia.
  - apply vadd_zeros. lia.
Qed.

(** The statistics of two sets of points, merged, are the statistics of all
    the points. *)
Lemma merge_stats_app d ptsA ptsB :
  0 ≤ d → (d + 1) * (d + 1) ≤ int_max →
  merge_stats (add_points (empty_stats d) ptsA) (add_points (empty_stats d) ptsB)
  = add_points (empty_stats d) (ptsA ++ ptsB).
Proof.
  intros Hd Hm.
  rewrite merge_add_points by (rewrite add_points_Degree; reflexivity).
  rewrite merge_empty; first last.
  - apply add_points_N_range.
  - apply add_points_Degree.
  - apply add_points_shaped. by apply empty_stats_shaped.
  - unfold add_points. rewrite fold_left_app. reflexivity.
Qed.

End Additive.

Section Exact.

Context {F : Type} {arith : Arith F}.
Variables (fopp finv : F → F).
Hypothesis Fth : field_theory fzero fone fadd fmul fsub fopp fdiv finv eq.
Add Field Ffield : Fth.
Local Open Scope arith_scope.

Ltac by_entries :=
  repeat match goal with
         | |- cons _ _ = cons _ _ => apply (f_equal2 cons)
         | |- nil = nil => reflexivity
         end.

Lemma closed_form_cramer (v w : list F) :
  (length w = 1 ∨ length w = 2 ∨ length w = 3)%nat →
  length v = (length w * length w)%nat →
  closed_form v w = cramer (length w) v w.
Proof.
  intros [Hw|[Hw|Hw]] Hv; rewrite Hw in Hv; rewrite Hw.
  - destruct w as [|y0 [|]]; try discriminate.
    destruct v as [|v0 [|]]; try discriminate.
    cbn. by_entries; apply (f_equal2 fdiv); ring.
  - destruct w as [|y0 [|y1 [|]]]; try discriminate.
    destruct v as [|a [|b [|c [|d [|]]]]]; try discriminate.
    cbn. by_entries; apply (f_equal2 fdiv); ring.
  - destruct w as [|y0 [|y1 [|y2 [|]]]]; try discriminate.
    destruct v as [|a [|b [|c [|d [|e [|r [|t [|u [|z [|]]]]]]]]]]; try discriminate.
    cbn. by_entries; apply (f_equal2 fdiv); ring.
Qed.

Lemma closed_form_solves (v w : list F) :
  (length w = 1 ∨ length w = 2 ∨ length w = 3)%nat →
  length v = (length w * length w)%nat →
  det (length w) v ≠ fzero →
  mat_vec (length w) v (closed_form v w) = w.
Proof.
  intros [Hw|[Hw|Hw]] Hv; rewrite Hw in Hv; rewrite Hw.
  - destruct w as [|y0 [|]]; try discriminate.
    destruct v as [|v0 [|]]; try discriminate.
    cbn. intros Hdet. by_entries. field. intros E. apply Hdet. rewrite E. ring.
  - destruct w as [|y0 [|y1 [|]]]; try discriminate.
    destruct v as [|a [|b [|c [|d [|]]]]]; try discriminate.
    cbn. intros Hdet.
    assert (a ⊗ d ⊖ b ⊗ c ≠ fzero) as Hdd.
    { intros E. apply Hdet. etransitivity; [|exact E]. ring. }
    by_entries; field; exact Hdd.
  - destruct w as [|y0 [|y1 [|y2 [|]]]]; try discriminate.
    destruct v as [|a [|b [|c [|d [|e [|r [|t [|u [|z [|]]]]]]]]]]; try discriminate.
    cbn. intros Hdet.
    assert (a ⊗ e ⊗ z ⊕ b ⊗ r ⊗ t ⊕ c ⊗ d ⊗ u ⊖ c ⊗ e ⊗ t ⊖ b ⊗ d ⊗ z ⊖ a ⊗ r ⊗ u ≠ fzero) as Hdd.
    { intros E. apply Hdet. etransitivity; [|exact E]. ring. }
    by_entries; field; exact Hdd.
Qed.

(** With degree 0 the two caches hold the number of points and the sum of
    the y values. *)
Lemma fsum_snoc (l : list F) a : fsum (l ++ [a]) = fsum l ⊕ a.
Proof. unfold fsum. rewrite fold_left_app. reflexivity. Qed.

Lemma degree0_statistics (pts : list (F * F)) :
  s_xtx (add_points (empty_stats 0) pts) = [fcount (length pts)] ∧
  s_xty (add_points (empty_stats 0) pts) = [fsum (map snd pts)].
Proof.
  induction pts as [|pt pts [IHx IHy]] using rev_ind; [done|].
  rewrite add_points_snoc. unfold add_point. simpl.
  rewrite add_points_Degree. simpl.
  rewrite IHx, IHy. rewrite length_app, map_app. simpl.
  replace (length pts + 1)%nat with (S (length pts)) by lia.
  unfold fcount. rewrite replicate_S_end, !fsum_snoc.
  split; cbn; f_equal; ring.
Qed.

Lemma closed_form_mean (pts : list (F * F)) :
  closed_form (s_xtx (add_points (empty_stats 0) pts))
              (s_xty (add_points (empty_stats 0) pts))
  = [fsum (map snd pts) ⊘ fcount (length pts)].
Proof. destruct (degree0_statistics pts) as [-> ->]. reflexivity. Qed.

End Exact.

(* ------------------------------------------------------------------ *)
(** * The fitter's contract *)

Section Claims.

Context {F : Type} {arith : Arith F} {solver : LinSolver F}.
Local Open Scope arith_scope.

Notation "'let*' v := m 'in' c" := (bind m (λ v, c))
  (at level 10, v name, m at level 100, c at level 200).
Notation "'run' m 'in' c" := (bind m (λ _, c))
  (at level 10, m at level 100, c at level 200).

Implicit Types (h : heap (F:=F)) (p q : loc) (f g : Fitting) (s : slice)
  (l : list F) (i j k : Z) (x y : F) (st : stats (F:=F)).

Lemma entry_vadd_outer (A u : list F) (a b : F) r c :
  length A = (length u * length u)%nat →
  u !! r = Some a → u !! c = Some b →
  entry (length u) (vadd A (outer u u)) r c = entry (length u) A r c ⊕ a ⊗ b.
Proof.
  intros HA Hr Hc.
  pose proof (lookup_lt_Some _ _ _ Hr). pose proof (lookup_lt_Some _ _ _ Hc).
  assert (is_Some (A !! (r * length u + c)%nat)) as [v Hv].
  { apply lookup_lt_is_Some. nia. }
  unfold entry.
  rewrite (lookup_vadd _ _ _ v (a ⊗ b)); [| done | by apply lookup_outer].
  rewrite Hv. reflexivity.
Qed.

(** C2. For a fitter of degree d and a point (x, y), [Add(x, y)] adds the
    outer product of [1, x, x², …, x^d] with itself to the cached matrix
    XᵀX (entry (r, c) grows by x^r·x^c), adds that vector scaled by y to
    XᵀY (entry r grows by x^r·y), increments N by one (as a Go int, so by
    exactly one unless N is the largest int) and leaves Degree and every
    other fitter unchanged. *)
Theorem Add_accumulates_point h p st x y :
  wf_heap h → view h p = Some st →
  ∃ h' st',
    Add p x y h = Ok tt h' ∧ view h' p = Some st' ∧
    s_xtx st' = vadd (s_xtx st) (outer (powers (s_Degree st) x) (powers (s_Degree st) x)) ∧
    s_xty st' = vadd (s_xty st) (scaled y (powers (s_Degree st) x)) ∧
    (∀ r c : nat, (Z.of_nat r ≤ s_Degree st) → (Z.of_nat c ≤ s_Degree st) →
       let n := Z.to_nat (s_Degree st + 1) in
       entry n (s_xtx st') r c = entry n (s_xtx st) r c ⊕ fpow x r ⊗ fpow x c ∧
       default fzero (s_xty st' !! r) = default fzero (s_xty st !! r) ⊕ fpow x r ⊗ y) ∧
    s_N st' = int_add (s_N st) 1 ∧
    (s_N st < int_max → s_N st' = s_N st + 1) ∧
    s_Degree st' = s_Degree st ∧
    wf_heap h' ∧
    (∀ q, q ≠ p → view h' q = view h q).
Proof.
  intros Hwf Hv.
  destruct (Add_spec h p st x y Hwf Hv) as (h' & Hrun & Hwf' & Hv' & Hframe & _).
  destruct (view_inv _ _ _ Hwf Hv) as (f & Hp & HN & HD & Hx & Hy & Hlx & Hly).
  pose proof (wf_shaped _ Hwf _ _ Hp) as (Hd & Hm & Hsx & Hsy).
  pose proof (wf_count _ Hwf _ _ Hp) as Hcount.
  exists h', (add_point st x y).
  split; [exact Hrun|]. split; [exact Hv'|].
  split; [reflexivity|]. split; [reflexivity|].
  split; [|split; [reflexivity|split; [|split; [reflexivity|split; [exact Hwf'|]]]]].
  - intros r c Hr Hc n. simpl.
    assert (length (powers (s_Degree st) x) = n) as Hpn by apply length_powers.
    split.
    + rewrite <- Hpn. apply entry_vadd_outer.
      * rewrite Hpn. unfold n. rewrite <- HD. nia.
      * apply lookup_powers. lia.
      * apply lookup_powers. lia.
    + assert (is_Some (s_xty st !! r)) as [v Hvr].
      { apply lookup_lt_is_Some. rewrite <- HD in Hr. lia. }
      rewrite (lookup_vadd _ _ _ v (fpow x r ⊗ y)); [by rewrite Hvr | done |].
      unfold scaled. rewrite list_lookup_fmap, lookup_powers by lia. reflexivity.
  - intros Hmax. simpl. apply int_add_id. rewrite <- HN in *. lia.
  - intros q Hq. by apply Hframe.
Qed.


(** C4. [f.Merge(b)] panics exactly when the two degrees differ; the panic
    is the degree mismatch, raised before anything is written: the store,
    and with it N, XᵀX and XᵀY of f, is the one before the call. *)
Theorem Merge_panics_iff_degrees_differ h p q f g :
  wf_heap h → fittings h !! p = Some f → fittings h !! q = Some g →
  ((∃ e h', Merge p q h = Panicked e h') ↔ Degree f ≠ Degree g) ∧
  (Degree f ≠ Degree g →
   Merge p q h = Panicked (DifferentDegree (Degree f) (Degree g)) h ∧
   view (final_heap (Merge p q h)) p = view h p).
Proof.
  intros Hwf Hp Hq.
  pose proof (Merge_cases h p q f Hwf Hp) as Hc. rewrite Hq in Hc.
  destruct (decide (Degree f = Degree g)) as [E|NE].
  - destruct Hc as (h' & Hrun). split.
    + split; [|done]. intros (e & h'' & Hbad). rewrite Hrun in Hbad. discriminate.
    + intros Hne. done.
  - split.
    + split; [done|]. intros _. eauto.
    + intros _. split; [exact Hc|]. rewrite Hc. reflexivity.
Qed.

Lemma Add_frame h p x y q :
  wf_heap h → is_Some (fittings h !! p) → q ≠ p →
  ∃ h', Add p x y h = Ok tt h' ∧ wf_heap h' ∧
        view h' q = view h q ∧ fittings h' !! q = fittings h !! q.
Proof.
  intros Hwf [f Hp] Hq.
  destruct (wf_open _ _ _ Hwf Hp) as (lx & ly & _ & _ & _ & _ & Hv).
  destruct (Add_spec h p _ x y Hwf Hv) as (h' & Hrun & Hwf' & _ & Hframe & _).
  exists h'. split; [done|]. split; [done|]. by apply Hframe.
Qed.

(** Whatever [Merge] does, it touches no fitter but its receiver. *)
Lemma Merge_frame h p r q :
  wf_heap h → is_Some (fittings h !! p) → q ≠ p →
  view (final_heap (Merge p r h)) q = view h q ∧
  fittings (final_heap (Merge p r h)) !! q = fittings h !! q.
Proof.
  intros Hwf [f Hp] Hq.
  pose proof (Merge_cases h p r f Hwf Hp) as Hc.
  destruct (fittings h !! r) as [g|] eqn:Hr.
  - destruct (decide (Degree f = Degree g)) as [E|NE].
    + destruct (wf_open _ _ _ Hwf Hp) as (lx & ly & _ & _ & _ & _ & Hvp).
      destruct (wf_open _ _ _ Hwf Hr) as (gx & gy & _ & _ & _ & _ & Hvr).
      destruct (Merge_spec h p r _ _ Hwf Hvp Hvr E) as (h' & Hrun & _ & _ & Hframe & _).
      rewrite Hrun. simpl. by apply Hframe.
    + rewrite Hc. done.
  - rewrite Hc. done.
Qed.

(** C8. [Copy] returns a new fitter with the same N, Degree, XᵀX and XᵀY
    as the original, held in arrays of its own.  After the copy, [Add] or
    [Merge] on the copy leaves the original as it was (its struct and the
    contents of its caches), and [Add] or [Merge] on the original leaves
    the copy as it was. *)
Theorem Copy_is_independent h p st :
  wf_heap h → view h p = Some st →
  ∃ b h1,
    Copy p h = Ok b h1 ∧ b ≠ p ∧ wf_heap h1 ∧
    view h1 b = Some st ∧ view h1 p = Some st ∧
    fittings h1 !! p = fittings h !! p ∧
    (∀ fp fb, fittings h1 !! p = Some fp → fittings h1 !! b = Some fb →
       ∀ a c, a ∈ owned fp → c ∈ owned fb → a ≠ c) ∧
    (∀ x y, ∃ h2, Add b x y h1 = Ok tt h2 ∧
       view h2 p = Some st ∧ fittings h2 !! p = fittings h !! p ∧
       view h2 b = Some (add_point st x y)) ∧
    (∀ q, view (final_heap (Merge b q h1)) p = Some st ∧
          fittings (final_heap (Merge b q h1)) !! p = fittings h !! p) ∧
    (∀ x y, ∃ h2, Add p x y h1 = Ok tt h2 ∧
       view h2 b = Some st ∧ fittings h2 !! b = fittings h1 !! b ∧
       view h2 p = Some (add_point st x y)) ∧
    (∀ q, view (final_heap (Merge p q h1)) b = Some st ∧
          fittings (final_heap (Merge p q h1)) !! b = fittings h1 !! b).
Proof.
  intros Hwf Hv.
  destruct (Copy_spec h p st Hwf Hv)
    as (b & h1 & Hrun & Eb & Eh & Hb & Hbp & Hwf1 & Hvb & Hframe).
  destruct (Hframe p (not_eq_sym Hbp)) as [Hvp Hfp].
  assert (is_Some (fittings h1 !! b)) as Hsb.
  { destruct (view_inv _ _ _ Hwf1 Hvb) as (fb & Hfb & _). eauto. }
  assert (is_Some (fittings h1 !! p)) as Hsp.
  { rewrite Hfp. destruct (view_inv _ _ _ Hwf Hv) as (f & Hf & _). eauto. }
  exists b, h1.
  split; [exact Hrun|]. split; [exact Hbp|]. split; [exact Hwf1|].
  split; [exact Hvb|]. split; [by rewrite Hvp|]. split; [exact Hfp|].
  split. { intros fp fb Hp1 Hb1. by apply (wf_sep _ Hwf1 p b). }
  split; [|split; [|split]].
  - intros x y.
    destruct (Add_spec h1 b st x y Hwf1 Hvb) as (h2 & Hrun2 & _ & Hv2 & Hframe2 & _).
    exists h2. split; [exact Hrun2|].
    destruct (Hframe2 p (not_eq_sym Hbp)) as [-> ->].
    rewrite Hvp, Hfp. done.
  - intros q.
    destruct (Merge_frame h1 b q p Hwf1 Hsb (not_eq_sym Hbp)) as [-> ->].
    rewrite Hvp, Hfp. done.
  - intros x y.
    assert (view h1 p = Some st) as Hvp1 by (by rewrite Hvp).
    destruct (Add_spec h1 p st x y Hwf1 Hvp1) as (h2 & Hrun2 & _ & Hv2 & Hframe2 & _).
    exists h2. split; [exact Hrun2|].
    destruct (Hframe2 b Hbp) as [-> ->]. done.
  - intros q.
    destruct (Merge_frame h1 p q b Hwf1 Hsp Hbp) as [-> ->]. done.
Qed.

(** C10. [NewFitting(xs, ys, degree)] takes one y for each x: it is
    [NewFitting] without points followed by [Add(xs[i], ys[i])] for
    i = 0, 1, …, len(xs)-1 in this order, so what [ys] holds beyond
    len(xs) is ignored and the new fitter has N = len(xs).  When [ys] is
    shorter than [xs] it panics with an index out of range. *)
Theorem NewFitting_one_y_per_x h xs ys d :
  wf_heap h → 0 ≤ d → (d + 1) * (d + 1) ≤ int_max →
  Z.of_nat (length xs) ≤ int_max →
  ((length xs ≤ length ys)%nat →
     ∃ b h' st,
       NewFitting xs ys d h = Ok b h' ∧
       NewFitting xs ys d h =
         (let* b := NewFitting [] [] d in
          run Add_all b (zip xs ys) in
          ret b) h ∧
       length (zip xs ys) = length xs ∧
       (∀ n x y, xs !! n = Some x → ys !! n = Some y → zip xs ys !! n = Some (x, y)) ∧
       NewFitting xs (take (length xs) ys) d h = Ok b h' ∧
       view h' b = Some st ∧
       st = add_points (empty_stats d) (zip xs ys) ∧
       s_N st = Z.of_nat (length xs) ∧ s_Degree st = d ∧
       wf_heap h' ∧ (∀ q, q ≠ b → view h' q = view h q)) ∧
  ((length ys < length xs)%nat →
     ∃ h', NewFitting xs ys d h = Panicked IndexOutOfRange h').
Proof.
  intros Hwf Hd Hm Hn. split.
  - intros Hle.
    destruct (NewFitting_spec h xs ys d Hwf Hd Hm Hn Hle)
      as (b & h' & Hrun & Eb & Eh & Hb & Hwf' & Hv & Hframe).
    assert (length (zip xs ys) = length xs) as Hlen.
    { rewrite length_zip_with. lia. }
    exists b, h', (add_points (empty_stats d) (zip xs ys)).
    split; [exact Hrun|].
    split; [by apply NewFitting_as_Add_all|].
    split; [exact Hlen|].
    split. { intros n x y Hx Hy. rewrite lookup_zip_with, Hx. simpl. by rewrite Hy. }
    split.
    { destruct (NewFitting_spec h xs (take (length xs) ys) d Hwf Hd Hm Hn)
        as (b2 & h2 & Hrun2 & Eb2 & Eh2 & _).
      { rewrite length_take. lia. }
      rewrite Hrun2. rewrite zip_with_take_r in Eh2. congruence. }
    split; [exact Hv|]. split; [reflexivity|].
    split. { rewrite add_points_N by lia. by rewrite Hlen. }
    split; [apply add_points_Degree|].
    split; [exact Hwf'|].
    intros q Hq. by apply Hframe.
  - intros Hlt.
    destruct (NewFitting_run h xs ys d Hwf Hd Hm Hn)
      as (b & a1 & a2 & _ & _ & _ & _ & _ & _ & _ & Hrun).
    cbv zeta in Hrun. rewrite decide_False in Hrun by lia. eauto.
Qed.

(** C5, amended. For a fitter of degree d ≤ 2 holding N ≥ d+1 points, [Solve]
    returns, in a new slice and without touching any fitter, the closed
    forms of [solve1], [solve2] or [solve3] on the cached system; for
    d = 0 that is XᵀY[0] / XᵀX[0][0].  In exact arithmetic these closed
    forms are Cramer's rule, det(A with column c replaced by XᵀY) / det A
    for A = XᵀX, they solve the normal equations XᵀX·β = XᵀY whenever
    det A is not zero, and for d = 0 the result is the sum of the added
    y values over their number, their mean. *)
Theorem Solve_quick_path_cramer h p st :
  wf_heap h → view h p = Some st →
  s_Degree st ≤ 2 → s_Degree st + 1 ≤ s_N st →
  let n := Z.to_nat (s_Degree st + 1) in
  let beta := closed_form (s_xtx st) (s_xty st) in
  ∃ s h',
    Solve p h = Ok s h' ∧ contents h' s = Some beta ∧ length beta = n ∧
    wf_heap h' ∧ (∀ q, view h' q = view h q) ∧
    (s_Degree st = 0 →
       ∃ v0 y0, s_xtx st = [v0] ∧ s_xty st = [y0] ∧ beta = [y0 ⊘ v0]) ∧
    (∀ fopp finv : F → F,
       field_theory fzero fone fadd fmul fsub fopp fdiv finv eq →
       beta = cramer n (s_xtx st) (s_xty st) ∧
       (det n (s_xtx st) ≠ fzero → mat_vec n (s_xtx st) beta = s_xty st) ∧
       (∀ pts, st = add_points (empty_stats 0) pts →
               beta = [fsum (map snd pts) ⊘ fcount (length pts)])).
Proof.
  intros Hwf Hv Hd2 HN n beta.
  destruct (view_inv _ _ _ Hwf Hv) as (f & Hp & HNf & HD & Hx & Hy & Hlx & Hly).
  pose proof (wf_shaped _ Hwf _ _ Hp) as Hsh.
  pose proof Hsh as (Hd & Hm & Hsx & Hsy).
  rewrite <- HD, <- HNf in *.
  destruct (Solve_returns h p f _ _ Hwf Hp Hx Hy ltac:(lia))
    as (s & h' & Hrun & Hc & Hlen & _ & Hwf' & _ & Hframe).
  assert (solution f (s_xtx st) (s_xty st) = beta) as Esol.
  { unfold solution. rewrite decide_True by lia. reflexivity. }
  rewrite Esol in Hc.
  assert (length (s_xty st) = n) as Hny by (unfold n; lia).
  assert (length (s_xtx st) = (n * n)%nat) as Hnx by (unfold n; nia).
  assert (1 ≤ n ≤ 3)%nat as Hn by (unfold n; lia).
  exists s, h'.
  split; [exact Hrun|]. split; [exact Hc|].
  split; [by apply closed_form_length|].
  split; [exact Hwf'|]. split; [exact Hframe|]. split.
  - intros E0. unfold beta.
    assert (n = 1%nat) as En by (unfold n; lia). rewrite En in *.
    destruct (s_xty st) as [|y0 [|]]; try discriminate.
    destruct (s_xtx st) as [|v0 [|]]; try discriminate.
    eauto.
  - intros fopp finv Fth. split; [|split].
    + unfold beta. rewrite <- Hny.
      apply (closed_form_cramer fopp finv Fth); rewrite Hny; [lia | done].
    + unfold beta. rewrite <- Hny.
      apply (closed_form_solves fopp finv Fth); rewrite Hny; [lia | done].
    + intros pts ->. unfold beta. apply (closed_form_mean fopp finv Fth).
Qed.

(** X2.  With at least one point [Solve] always returns: on the quick
    path the closed form, otherwise what gonum's solver left in [beta],
    whether or not the solver reported an error, followed by zeros.  The
    result has degree+1 entries and no fitter is changed. *)
Lemma Solve_returns_with_points h p st :
  wf_heap h → view h p = Some st → 1 ≤ s_N st →
  ∃ s h' beta,
    Solve p h = Ok s h' ∧ contents h' s = Some beta ∧
    length beta = Z.to_nat (s_Degree st + 1) ∧
    wf_heap h' ∧ (∀ q, view h' q = view h q).
Proof.
  intros Hwf Hv HN.
  destruct (view_inv _ _ _ Hwf Hv) as (f & Hp & HNf & HD & Hx & Hy & Hlx & Hly).
  rewrite <- HD, <- HNf in *.
  destruct (Solve_returns h p f _ _ Hwf Hp Hx Hy HN)
    as (s & h' & Hrun & Hc & Hlen & _ & Hwf' & _ & Hframe).
  exists s, h', (solution f (s_xtx st) (s_xty st)).
  split; [done|]. split; [done|]. split; [|split; [exact Hwf' | exact Hframe]].
  apply solution_length; try done. exact (wf_shaped _ Hwf _ _ Hp).
Qed.

(** A one-column block is a prefix. *)
Lemma block_column n (l : list F) : (n ≤ length l)%nat → block n 1 1 l = take n l.
Proof.
  intros Hn. unfold block. rewrite flat_map_concat_map.
  assert (∀ a, concat (map (λ r, map (λ c, default fzero (l !! (r * 1 + c)%nat)) (seq 0 1))
                           (seq a n))
               = map (λ r, default fzero (l !! r)) (seq a n)) as ->.
  { clear. induction n as [|n IH]; intros a; [done|].
    simpl. rewrite IH. do 3 f_equal. lia. }
  apply list_eq. intros k.
  destruct (decide (k < n)%nat) as [Hk|Hk].
  - rewrite lookup_take_lt by done.
    assert (is_Some (l !! k)) as [v Hv] by (apply lookup_lt_is_Some; lia).
    rewrite list_lookup_fmap, lookup_seq_lt by done. simpl. by rewrite Hv.
  - rewrite lookup_take_ge by lia.
    apply lookup_ge_None_2. rewrite length_map, length_seq. lia.
Qed.

(** X1.  With fewer points than coefficients, but at least one, the
    first N coefficients are the solver's answer for the leading N×N
    block of the normal equations and the others are zero. *)
Lemma Solve_underdetermined_block h p st :
  wf_heap h → view h p = Some st → 1 ≤ s_N st < s_Degree st + 1 →
  let n := Z.to_nat (s_N st) in
  let m := Z.to_nat (s_Degree st + 1) in
  ∃ s h',
    Solve p h = Ok s h' ∧
    contents h' s =
      Some (map (mat_solve n (block n n m (s_xtx st)) (take n (s_xty st))) (seq 0 n)
            ++ replicate (m - n) fzero) ∧
    wf_heap h' ∧ (∀ q, view h' q = view h q).
Proof.
  intros Hwf Hv HN n m.
  destruct (view_inv _ _ _ Hwf Hv) as (f & Hp & HNf & HD & Hx & Hy & Hlx & Hly).
  pose proof (wf_shaped _ Hwf _ _ Hp) as (Hd & Hm & Hsx & Hsy).
  destruct (Solve_returns h p f _ _ Hwf Hp Hx Hy ltac:(lia))
    as (s & h' & Hrun & Hc & Hlen & _ & Hwf' & _ & Hframe).
  exists s, h'. split; [done|]. split; [|split; [exact Hwf' | exact Hframe]].
  rewrite Hc. f_equal. unfold solution. rewrite decide_False by lia.
  rewrite HD, HNf.
  replace (Z.min (s_Degree st + 1) (s_N st)) with (s_N st) by lia.
  unfold solved_block. fold n m.
  rewrite block_column by (unfold n; lia). reflexivity.
Qed.

(** C6, at [N = 0].  A fitter without points is under-determined for
    every degree, and [Solve] does not return on it: the leading block is
    0×0, and gonum's [Slice] panics. *)
Theorem Solve_without_points_panics h p st :
  wf_heap h → view h p = Some st → s_N st = 0 →
  s_N st < s_Degree st + 1 ∧
  ∃ e h', Solve p h = Panicked e h'.
Proof.
  intros Hwf Hv HN.
  destruct (view_inv _ _ _ Hwf Hv) as (f & Hp & HNf & HD & _).
  pose proof (wf_shaped _ Hwf _ _ Hp) as (Hd & _).
  split; [rewrite <- HD; lia|].
  exists SliceBoundsOutOfRange, h. apply (Solve_no_points h p f); [done | done | lia].
Qed.

End Claims.

(* ------------------------------------------------------------------ *)
(** * Examples *)

Section Examples.
Context {F : Type} {arith : Arith F}.

Lemma wf_empty : wf_heap (empty_heap (F:=F)).
Proof.
  split; intros *; unfold empty_heap; simpl; try (intros ?);
    rewrite ?lookup_empty; intros; simplify_eq.
Qed.

Lemma after_NewFitting_spec (xs ys : list F) d :
  0 ≤ d → (d + 1) * (d + 1) ≤ int_max →
  Z.of_nat (length xs) ≤ int_max → (length xs ≤ length ys)%nat →
  NewFitting xs ys d empty_heap = Ok first_fitter (after_NewFitting xs ys d) ∧
  wf_heap (after_NewFitting xs ys d) ∧
  view (after_NewFitting xs ys d) first_fitter = Some (points_stats xs ys d).
Proof.
  intros Hd Hm Hn Hle.
  destruct (NewFitting_spec empty_heap xs ys d wf_empty Hd Hm Hn Hle)
    as (b & h' & Hrun & Eb & Eh & Hb & Hwf' & Hv & Hframe).
  unfold after_NewFitting. rewrite Hrun. simpl. subst b.
  change (fresh_fitter empty_heap) with first_fitter in *. done.
Qed.

Lemma after_two_spec (xsA ysA : list F) d (xsB ysB : list F) d' :
  0 ≤ d → (d + 1) * (d + 1) ≤ int_max →
  0 ≤ d' → (d' + 1) * (d' + 1) ≤ int_max →
  Z.of_nat (length xsA) ≤ int_max → (length xsA ≤ length ysA)%nat →
  Z.of_nat (length xsB) ≤ int_max → (length xsB ≤ length ysB)%nat →
  wf_heap (after_two xsA ysA d xsB ysB d') ∧
  view (after_two xsA ysA d xsB ysB d') first_fitter = Some (points_stats xsA ysA d) ∧
  view (after_two xsA ysA d xsB ysB d') second_fitter = Some (points_stats xsB ysB d').
Proof.
  intros Hd Hm Hd' Hm' HnA HleA HnB HleB.
  destruct (after_NewFitting_spec xsA ysA d Hd Hm HnA HleA) as (HrunA & HwfA & HvA).
  destruct (NewFitting_spec _ xsB ysB d' HwfA Hd' Hm' HnB HleB)
    as (b & h' & Hrun & Eb & Eh & Hb & Hwf' & Hv & Hframe).
  unfold after_two. rewrite Hrun. simpl.
  assert (b = second_fitter) as ->.
  { rewrite Eb. unfold fresh_fitter.
    destruct (NewFitting_spec empty_heap xsA ysA d wf_empty Hd Hm HnA HleA)
      as (b1 & h1 & Hrun1 & Eb1 & Eh1 & _).
    unfold after_NewFitting. rewrite Hrun1. simpl. rewrite Eh1. simpl.
    rewrite dom_insert_L, dom_empty_L. subst b1. reflexivity. }
  split; [done|]. split; [|done].
  destruct (Hframe first_fitter) as [-> _]; done.
Qed.

End Examples.

Ltac side := first [done | simpl; unfold int_max; lia].

(** C7, on a fitter that was just created.  [NewFitting(nil, nil, 2)]
    followed by [Solve] panics, whatever gonum's solver would do: the
    solver is never reached. *)
Theorem Solve_panics_on_new_fitter (solver : LinSolver float) :
  bind (NewFitting [] [] 2) (Solve (solver := solver)) empty_heap
  = Panicked SliceBoundsOutOfRange (after_NewFitting [] [] 2).
Proof. vm_compute. reflexivity. Qed.

(** C9, as stated, fails: the coefficients are not 0 and 16. *)
Lemma S2_fit_is_not_16x :
  ¬ ∃ s h', bind (NewFitting S2_xs S2_ys 1) (Solve (solver := cramer_solver)) empty_heap
              = Ok s h' ∧
            contents h' s = Some [0; 16]%float.
Proof.
  intros (s & h' & Hrun & Hc).
  vm_compute in Hrun. injection Hrun as <- <-.
  apply (f_equal (λ o, match o with
                       | Some (b0 :: _) => PrimFloat.ltb b0 0
                       | _ => false
                       end)) in Hc.
  vm_compute in Hc. discriminate.
Qed.

(** C9, amended.  For the points (0,0), (1,15), (2,33), (3,50) the
    degree-1 fit has XᵀX = [4 6; 6 14] and XᵀY = [98; 231], and [Solve]
    returns β₀ = -14/20 and β₁ = 336/20: the line y = 16.8x - 0.7.  In
    float64 these are the doubles next to -0.7 and 16.8; in exact
    arithmetic they are -7/10 and 84/5.  Four points and two coefficients
    take the quick path, so gonum's solver plays no part. *)
Theorem S2_least_squares_line
    (float_solver : LinSolver float) (exact_solver : LinSolver Qcanon.Qc) :
  (∃ s h', bind (NewFitting S2_xs S2_ys 1) (Solve (solver := float_solver)) empty_heap
             = Ok s h' ∧
           view h' first_fitter
             = Some (mkStats 4 1 [4; 6; 6; 14]%float [98; 231]%float) ∧
           contents h' s = Some [(-0x1.6666666666666p-1)%float; 0x1.0cccccccccccdp+4%float] ∧
           contents h' s = Some [PrimFloat.div (-14) 20; PrimFloat.div 336 20]) ∧
  (∃ s h', bind (NewFitting S2_xs_exact S2_ys_exact 1) (Solve (solver := exact_solver))
                empty_heap = Ok s h' ∧
           option_map (map Qcanon.this) (contents h' s)
             = Some [QArith_base.Qmake (-7) 10; QArith_base.Qmake 84 5]).
Proof.
  split.
  - eexists _, _. split; [vm_compute; reflexivity|].
    split; [vm_compute; reflexivity|]. split; vm_compute; reflexivity.
  - eexists _, _. split; [vm_compute; reflexivity|]. vm_compute. reflexivity.
Qed.


(** C5, as stated, fails in float64: for the points (x, x²) at
    x = 1000, …, 1003 and degree 2 every cached sum is exact and
    β = (0, 0, 1) satisfies XᵀX·β = XᵀY exactly, yet the closed form
    returns (-0, -512, 1), which does not. *)
Lemma Solve_quick_path_misses_the_solution_in_float64 :
  ∃ s h' st,
    bind (NewFitting squares_xs squares_ys 2) (Solve (solver := cramer_solver)) empty_heap
      = Ok s h' ∧
    view h' first_fitter = Some st ∧
    s_Degree st ≤ 2 ∧ s_Degree st + 1 ≤ s_N st ∧
    contents h' s = Some [-0; -512; 1]%float ∧
    mat_vec 3 (s_xtx st) [0; 0; 1]%float = s_xty st ∧
    mat_vec 3 (s_xtx st) [-0; -512; 1]%float ≠ s_xty st.
Proof.
  eexists _, _, _.
  split; [vm_compute; reflexivity|]. split; [vm_compute; reflexivity|].
  split; [vm_compute; discriminate|]. split; [vm_compute; discriminate|].
  split; [vm_compute; reflexivity|]. split; [vm_compute; reflexivity|].
  intros E.
  apply (f_equal (λ l, match l with
                       | v :: _ => PrimFloat.ltb v 4012014
                       | _ => false
                       end)) in E.
  vm_compute in E. discriminate.
Qed.

(** ** The theorems at concrete fitters *)

Lemma line_heap_ok :
  wf_heap (after_NewFitting line_xs line_ys 1) ∧
  view (after_NewFitting line_xs line_ys 1) first_fitter
    = Some (points_stats line_xs line_ys 1).
Proof. apply after_NewFitting_spec; side. Qed.

(** [Add(3, 2)] on the fitter of the line example. *)
Lemma Add_accumulates_point_witness :
  wf_heap (after_NewFitting line_xs line_ys 1) ∧
  view (after_NewFitting line_xs line_ys 1) first_fitter
    = Some (points_stats line_xs line_ys 1) ∧
  ∃ h' st',
    Add first_fitter 3%float 2%float (after_NewFitting line_xs line_ys 1) = Ok tt h' ∧
    view h' first_fitter = Some st' ∧
    s_xtx st' = [3; 6; 6; 14]%float ∧ s_xty st' = [3; 8]%float ∧
    s_N st' = 3 ∧ s_Degree st' = 1.
Proof.
  destruct line_heap_ok as [Hwf Hv].
  split; [exact Hwf|]. split; [exact Hv|].
  destruct (Add_accumulates_point _ first_fitter _ 3%float 2%float Hwf Hv)
    as (h' & st' & Hrun & Hv' & Hx & Hy & _ & HN & _ & HD & _).
  exists h', st'.
  split; [exact Hrun|]. split; [exact Hv'|].
  split; [rewrite Hx; vm_compute; reflexivity|].
  split; [rewrite Hy; vm_compute; reflexivity|].
  split; [rewrite HN; vm_compute; reflexivity | rewrite HD; vm_compute; reflexivity].
Defined.



Lemma mixed_degrees_ok :
  let h := after_two line_xs line_ys 1 S2_xs S2_ys 2 in
  wf_heap h ∧
  fittings h !! first_fitter = Some (mkFitting 2 1 (Slice 1%positive 4 4) (Slice 2%positive 2 2)) ∧
  fittings h !! second_fitter = Some (mkFitting 4 2 (Slice 3%positive 9 9) (Slice 4%positive 3 3)).
Proof.
  intros h. split; [apply after_two_spec; side|].
  split; vm_compute; reflexivity.
Qed.

(** Merging a fitter of degree 2 into one of degree 1. *)
Lemma Merge_panics_iff_degrees_differ_witness :
  let h := after_two line_xs line_ys 1 S2_xs S2_ys 2 in
  wf_heap h ∧
  fittings h !! first_fitter = Some (mkFitting 2 1 (Slice 1%positive 4 4) (Slice 2%positive 2 2)) ∧
  fittings h !! second_fitter = Some (mkFitting 4 2 (Slice 3%positive 9 9) (Slice 4%positive 3 3)) ∧
  Merge first_fitter second_fitter h = Panicked (DifferentDegree 1 2) h.
Proof.
  intros h. destruct mixed_degrees_ok as (Hwf & H1 & H2). fold h in Hwf, H1, H2.
  split; [exact Hwf|]. split; [exact H1|]. split; [exact H2|].
  destruct (Merge_panics_iff_degrees_differ h first_fitter second_fitter _ _ Hwf H1 H2)
    as [_ Hpanic].
  apply Hpanic. simpl. lia.
Defined.

Lemma S2_exact_ok :
  wf_heap (after_NewFitting S2_xs_exact S2_ys_exact 1) ∧
  view (after_NewFitting S2_xs_exact S2_ys_exact 1) first_fitter
    = Some (points_stats S2_xs_exact S2_ys_exact 1).
Proof. apply after_NewFitting_spec; side. Qed.

(** S2 in exact arithmetic: [Solve] returns -7/10 and 84/5, and they
    satisfy the normal equations. *)
Lemma Solve_quick_path_cramer_witness :
  let h := after_NewFitting S2_xs_exact S2_ys_exact 1 in
  let st := points_stats S2_xs_exact S2_ys_exact 1 in
  wf_heap h ∧ view h first_fitter = Some st ∧
  s_Degree st ≤ 2 ∧ s_Degree st + 1 ≤ s_N st ∧
  ∃ s h' beta,
    Solve (solver := cramer_solver) first_fitter h = Ok s h' ∧
    contents h' s = Some beta ∧
    map Qcanon.this beta = [QArith_base.Qmake (-7) 10; QArith_base.Qmake 84 5] ∧
    beta = cramer 2 (s_xtx st) (s_xty st) ∧
    mat_vec 2 (s_xtx st) beta = s_xty st.
Proof.
  intros h st. destruct S2_exact_ok as [Hwf Hv]. fold h st in Hwf, Hv.
  assert (s_Degree st ≤ 2) as Hd by (vm_compute; discriminate).
  assert (s_Degree st + 1 ≤ s_N st) as HN by (vm_compute; discriminate).
  split; [exact Hwf|]. split; [exact Hv|]. split; [exact Hd|]. split; [exact HN|].
  destruct (Solve_quick_path_cramer (solver := cramer_solver) h first_fitter st Hwf Hv Hd HN)
    as (s & h' & Hrun & Hc & _ & _ & _ & _ & Hexact).
  destruct (Hexact Qcanon.Qcopp Qcanon.Qcinv Qcanon.Qcft) as (Hcramer & Hsolves & _).
  exists s, h', (closed_form (s_xtx st) (s_xty st)).
  split; [exact Hrun|]. split; [exact Hc|].
  split; [vm_compute; reflexivity|]. split; [exact Hcramer|].
  apply Hsolves. intros E. apply (f_equal Qcanon.this) in E.
  vm_compute in E. discriminate.
Defined.

Lemma no_points_ok :
  wf_heap (after_NewFitting (F:=float) [] [] 2) ∧
  view (after_NewFitting (F:=float) [] [] 2) first_fitter = Some (points_stats [] [] 2).
Proof. apply after_NewFitting_spec; side. Qed.

(** A degree-2 fitter created without points. *)
Lemma Solve_without_points_panics_witness :
  let h := after_NewFitting (F:=float) [] [] 2 in
  wf_heap h ∧ view h first_fitter = Some (points_stats [] [] 2) ∧
  s_N (points_stats (F:=float) [] [] 2) = 0 ∧
  Solve (solver := refusing_solver) first_fitter h = Panicked SliceBoundsOutOfRange h.
Proof.
  intros h. destruct no_points_ok as [Hwf Hv]. fold h in Hwf, Hv.
  split; [exact Hwf|]. split; [exact Hv|]. split; [reflexivity|].
  destruct (Solve_without_points_panics (solver := refusing_solver) h first_fitter _ Hwf Hv eq_refl)
    as (_ & e & h' & Hrun).
  rewrite Hrun. vm_compute in Hrun. injection Hrun as <- <-. reflexivity.
Defined.

(** A copy of the fitter of the line example, then a point added to the
    copy and another to the original. *)
Lemma Copy_is_independent_witness :
  let h := after_NewFitting line_xs line_ys 1 in
  let st := points_stats line_xs line_ys 1 in
  wf_heap h ∧ view h first_fitter = Some st ∧
  ∃ b h1,
    Copy first_fitter h = Ok b h1 ∧ b = second_fitter ∧
    view h1 b = Some st ∧ view h1 first_fitter = Some st ∧
    (∃ h2, Add b 3%float 2%float h1 = Ok tt h2 ∧
           view h2 first_fitter = Some st ∧ view h2 b = Some (add_point st 3%float 2%float)) ∧
    (∃ h2, Add first_fitter 3%float 2%float h1 = Ok tt h2 ∧
           view h2 b = Some st ∧
           view h2 first_fitter = Some (add_point st 3%float 2%float)).
Proof.
  intros h st. destruct line_heap_ok as [Hwf Hv]. fold h st in Hwf, Hv.
  split; [exact Hwf|]. split; [exact Hv|].
  destruct (Copy_is_independent h first_fitter st Hwf Hv)
    as (b & h1 & Hrun & Hne & Hwf1 & Hvb & Hvp & _ & _ & HaddB & _ & HaddP & _).
  exists b, h1.
  split; [exact Hrun|].
  split. { vm_compute in Hrun. by injection Hrun as <- _. }
  split; [exact Hvb|]. split; [exact Hvp|]. split.
  - destruct (HaddB 3%float 2%float) as (h2 & Hrun2 & Hp2 & _ & Hb2). eauto.
  - destruct (HaddP 3%float 2%float) as (h2 & Hrun2 & Hb2 & _ & Hp2). eauto.
Defined.

(** One x and two ys: the second y is ignored.  Two xs and one y: index
    out of range. *)
Lemma NewFitting_one_y_per_x_witness :
  wf_heap (empty_heap (F:=float)) ∧
  (∃ b h' st,
     NewFitting [3]%float [2; 9]%float 1 empty_heap = Ok b h' ∧
     NewFitting [3]%float [2]%float 1 empty_heap = Ok b h' ∧
     view h' b = Some st ∧ s_N st = 1 ∧
     st = add_point (empty_stats 1) 3%float 2%float) ∧
  (∃ h', NewFitting [3; 4]%float [2]%float 1 empty_heap = Panicked IndexOutOfRange h').
Proof.
  split; [apply wf_empty|]. split.
  - destruct (NewFitting_one_y_per_x empty_heap [3]%float [2; 9]%float 1 wf_empty)
      as [Hok _]; try side.
    destruct Hok as (b & h' & st & Hrun & _ & _ & _ & Hrun' & Hv & Est & HN & _); [side|].
    exists b, h', st. split; [exact Hrun|]. split; [exact Hrun'|].
    split; [exact Hv|]. split; [exact HN|]. exact Est.
  - destruct (NewFitting_one_y_per_x empty_heap [3; 4]%float [2]%float 1 wf_empty)
      as [_ Hbad]; try side.
    apply Hbad. side.
Defined.

(* ------------------------------------------------------------------ *)
(** * Further properties of the fitter *)

Section SolveFacts.

Context {F : Type} {arith : Arith F}.
Local Open Scope arith_scope.

Implicit Types (h : heap (F:=F)) (p q : loc) (st : stats (F:=F)).

(** A full block is the matrix itself. *)
Lemma block_full n m (l : list F) : length l = (n * m)%nat → block n m m l = l.
Proof.
  revert l. induction n as [|n IH]; intros l Hl.
  - destruct l; [done|discriminate].
  - assert (block (S n) m m l
            = block n m m l ++ map (λ j, default fzero (l !! (n * m + j)%nat)) (seq 0 m)) as ->.
    { unfold block. rewrite seq_S, flat_map_app. simpl. by rewrite app_nil_r. }
    rewrite <- (block_take n m m (n * m) l) by (intros r c Hr Hc; nia).
    rewrite IH by (rewrite length_take; lia).
    transitivity (take (n * m) l ++ drop (n * m) l); [|apply take_drop]. f_equal.
    apply list_eq. intros k.
    destruct (decide (k < m)%nat) as [Hk|Hk].
    + rewrite list_lookup_fmap, lookup_seq_lt by done. simpl.
      rewrite lookup_drop.
      assert (is_Some (l !! (n * m + k)%nat)) as [v Hv]
        by (apply lookup_lt_is_Some; lia).
      by rewrite Hv.
    + rewrite lookup_ge_None_2 by (rewrite length_map, length_seq; lia).
      symmetry. apply lookup_ge_None_2. rewrite length_drop. lia.
Qed.

(** X3.  With degree at least 3 and at least degree+1 points [Solve]
    takes no quick path: it hands the whole cached system XᵀX·β = XᵀY to
    gonum's solver and returns the solver's answer, all degree+1 entries
    of it, whether or not the solver reported an error.  No fitter is
    changed. *)
Theorem Solve_high_degree_full_system (solver : LinSolver F) h p st :
  wf_heap h → view h p = Some st →
  3 ≤ s_Degree st → s_Degree st + 1 ≤ s_N st →
  let m := Z.to_nat (s_Degree st + 1) in
  ∃ s h',
    Solve p h = Ok s h' ∧
    contents h' s = Some (map (mat_solve m (s_xtx st) (s_xty st)) (seq 0 m)) ∧
    wf_heap h' ∧ (∀ q, view h' q = view h q).
Proof.
  intros Hwf Hv Hd HN m.
  destruct (view_inv _ _ _ Hwf Hv) as (f & Hp & HNf & HD & Hx & Hy & Hlx & Hly).
  pose proof (wf_shaped _ Hwf _ _ Hp) as (Hd0 & Hm & Hsx & Hsy).
  rewrite <- HD, <- HNf in *.
  destruct (Solve_returns h p f _ _ Hwf Hp Hx Hy ltac:(lia))
    as (s & h' & Hrun & Hc & _ & _ & Hwf' & _ & Hframe).
  exists s, h'. split; [exact Hrun|]. split; [|split; [exact Hwf'|exact Hframe]].
  rewrite Hc. f_equal. unfold solution. rewrite decide_False by lia.
  replace (Z.min (Degree f + 1) (N f)) with (Degree f + 1) by lia.
  assert (m = Z.to_nat (Degree f + 1)) as <- by (unfold m; by rewrite HD).
  unfold solved_block. rewrite Nat.sub_diag. simpl. rewrite app_nil_r.
  rewrite block_full by (unfold m; nia).
  rewrite block_column by (unfold m; lia).
  rewrite firstn_all2 by (unfold m; lia). reflexivity.
Qed.

(** X4.  On the quick path (degree at most 2, at least degree+1 points)
    gonum's solver is never consulted: [Solve] gives the same result in
    the same store whatever the solver is. *)
Theorem Solve_quick_path_ignores_solver (solver1 solver2 : LinSolver F) h p st :
  wf_heap h → view h p = Some st →
  s_Degree st ≤ 2 → s_Degree st + 1 ≤ s_N st →
  Solve (solver := solver1) p h = Solve (solver := solver2) p h ∧
  ∃ s h', Solve (solver := solver1) p h = Ok s h'.
Proof.
  intros Hwf Hv Hd HN.
  destruct (view_inv _ _ _ Hwf Hv) as (f & Hp & HNf & HD & Hx & Hy & _).
  rewrite <- HD, <- HNf in *.
  rewrite (Solve_quick (solver := solver1) h p f _ _ Hwf Hp Hx Hy Hd HN).
  rewrite (Solve_quick (solver := solver2) h p f _ _ Hwf Hp Hx Hy Hd HN).
  eauto.
Qed.

(** X5.  The coefficients [Solve] returns depend only on what the fitter
    holds: two fitters with the same N, Degree, XᵀX and XᵀY, in the same
    store or in different ones, solve to the same coefficients.  So a
    second [Solve] repeats the first, and a copy solves like its
    original. *)
Theorem Solve_depends_on_statistics_only (solver : LinSolver F) h1 h2 p q st :
  wf_heap h1 → wf_heap h2 →
  view h1 p = Some st → view h2 q = Some st → 1 ≤ s_N st →
  ∃ s1 h1' s2 h2' beta,
    Solve p h1 = Ok s1 h1' ∧ Solve q h2 = Ok s2 h2' ∧
    contents h1' s1 = Some beta ∧ contents h2' s2 = Some beta ∧
    length beta = Z.to_nat (s_Degree st + 1).
Proof.
  intros Hwf1 Hwf2 Hv1 Hv2 HN.
  destruct (view_inv _ _ _ Hwf1 Hv1) as (f & Hp & HNf & HD & Hx & Hy & Hlx & Hly).
  destruct (view_inv _ _ _ Hwf2 Hv2) as (g & Hq & HNg & HDg & Hgx & Hgy & _).
  destruct (Solve_returns h1 p f _ _ Hwf1 Hp Hx Hy ltac:(lia))
    as (s1 & h1' & Hrun1 & Hc1 & _).
  destruct (Solve_returns h2 q g _ _ Hwf2 Hq Hgx Hgy ltac:(lia))
    as (s2 & h2' & Hrun2 & Hc2 & _).
  exists s1, h1', s2, h2', (solution f (s_xtx st) (s_xty st)).
  split; [exact Hrun1|]. split; [exact Hrun2|]. split; [exact Hc1|]. split.
  - rewrite Hc2. f_equal. unfold solution. rewrite HNf, HD, HNg, HDg. reflexivity.
  - rewrite <- HD. apply solution_length; [exact (wf_shaped _ Hwf1 _ _ Hp) | lia | done | done].
Qed.

End SolveFacts.
(** ** float64 addition and multiplication commute *)

Lemma SFadd_comm prec emax x y :
  SpecFloat.SFadd prec emax x y = SpecFloat.SFadd prec emax y x.
Proof.
  destruct x as [sx|sx| |sx mx ex], y as [sy|sy| |sy my ey]; simpl; try reflexivity;
    try (destruct sx, sy; reflexivity).
  rewrite (Z.min_comm ey ex). f_equal. apply Z.add_comm.
Qed.

Lemma SFmul_comm prec emax x y :
  SpecFloat.SFmul prec emax x y = SpecFloat.SFmul prec emax y x.
Proof.
  destruct x as [sx|sx| |sx mx ex], y as [sy|sy| |sy my ey]; simpl; try reflexivity;
    try (rewrite (Bool.xorb_comm sx sy); reflexivity).
  rewrite (Bool.xorb_comm sy sx), (Pos.mul_comm my mx), (Z.add_comm ey ex). reflexivity.
Qed.

Lemma float64_add_comm (x y : float) : PrimFloat.add x y = PrimFloat.add y x.
Proof.
  apply FloatAxioms.Prim2SF_inj. rewrite !FloatAxioms.add_spec. apply SFadd_comm.
Qed.

Lemma float64_mul_comm (x y : float) : PrimFloat.mul x y = PrimFloat.mul y x.
Proof.
  apply FloatAxioms.Prim2SF_inj. rewrite !FloatAxioms.mul_spec. apply SFmul_comm.
Qed.

Section MergeFacts.

Context {F : Type} {arith : Arith F}.
Local Open Scope arith_scope.

Implicit Types (h : heap (F:=F)) (p q r : loc) (st : stats (F:=F)).

Lemma vadd_diag (u : list F) : vadd u u = map (λ a, a ⊕ a) u.
Proof. unfold vadd. induction u as [|a u IH]; simpl; [done|]. by rewrite IH. Qed.

Lemma vadd_comm (u v : list F) :
  (∀ a b : F, a ⊕ b = b ⊕ a) → vadd u v = vadd v u.
Proof.
  intros Hc. unfold vadd. revert v. induction u as [|a u IH]; intros [|b v]; simpl; try done.
  f_equal; [apply Hc | apply IH].
Qed.

Lemma int_add_comm a b : int_add a b = int_add b a.
Proof. unfold int_add. f_equal. lia. Qed.

(** X6.  A fitter merged into itself: [f.Merge(f)] doubles N (as a Go
    int) and every entry of XᵀX and XᵀY, each entry being read before it
    is overwritten; Degree and the other fitters are unchanged. *)
Theorem Merge_into_itself_doubles h p st :
  wf_heap h → view h p = Some st →
  ∃ h', Merge p p h = Ok tt h' ∧ wf_heap h' ∧
        view h' p = Some (mkStats (int_add (s_N st) (s_N st)) (s_Degree st)
                                  (map (λ a, a ⊕ a) (s_xtx st))
                                  (map (λ a, a ⊕ a) (s_xty st))) ∧
        (∀ q, q ≠ p → view h' q = view h q).
Proof.
  intros Hwf Hv.
  destruct (Merge_spec h p p st st Hwf Hv Hv eq_refl) as (h' & Hrun & Hwf' & Hv' & Hframe & _).
  exists h'. split; [exact Hrun|]. split; [exact Hwf'|]. split.
  - rewrite Hv'. unfold merge_stats. by rewrite !vadd_diag.
  - intros q Hq. by apply Hframe.
Qed.

(** X7.  Merging is symmetric in what the receiver ends up with: when
    addition commutes, as float64 addition does, [f.Merge(b)] leaves in f
    exactly the N, Degree, XᵀX and XᵀY that [b.Merge(f)] leaves in b. *)
Theorem Merge_commutes h p q stp stq :
  (∀ a b : F, a ⊕ b = b ⊕ a) →
  wf_heap h → view h p = Some stp → view h q = Some stq →
  s_Degree stp = s_Degree stq →
  ∃ h1 h2 st',
    Merge p q h = Ok tt h1 ∧ Merge q p h = Ok tt h2 ∧
    view h1 p = Some st' ∧ view h2 q = Some st'.
Proof.
  intros Hc Hwf Hvp Hvq Hd.
  destruct (Merge_spec h p q stp stq Hwf Hvp Hvq Hd) as (h1 & Hrun1 & _ & Hv1 & _).
  destruct (Merge_spec h q p stq stp Hwf Hvq Hvp (eq_sym Hd)) as (h2 & Hrun2 & _ & Hv2 & _).
  exists h1, h2, (merge_stats stp stq).
  split; [exact Hrun1|]. split; [exact Hrun2|]. split; [exact Hv1|].
  rewrite Hv2. f_equal. unfold merge_stats.
  rewrite (int_add_comm (s_N stq)), Hd.
  by rewrite (vadd_comm (s_xtx stq)), (vadd_comm (s_xty stq)).
Qed.

(** X8.  Merging is associative when addition is: merging b and then c
    into f leaves in f what merging c into b first and then b into f
    leaves there.  In float64 the two agree up to rounding. *)
Theorem Merge_associates h p q r stp stq str :
  (∀ a b c : F, a ⊕ (b ⊕ c) = (a ⊕ b) ⊕ c) →
  wf_heap h → p ≠ q → p ≠ r →
  view h p = Some stp → view h q = Some stq → view h r = Some str →
  s_Degree stp = s_Degree stq → s_Degree stq = s_Degree str →
  ∃ h1 h1' h2 h2' st',
    Merge p q h = Ok tt h1 ∧ Merge p r h1 = Ok tt h1' ∧
    Merge q r h = Ok tt h2 ∧ Merge p q h2 = Ok tt h2' ∧
    view h1' p = Some st' ∧ view h2' p = Some st'.
Proof.
  intros Ha Hwf Hpq Hpr Hvp Hvq Hvr Hd1 Hd2.
  destruct (Merge_spec h p q stp stq Hwf Hvp Hvq Hd1)
    as (h1 & Hrun1 & Hwf1 & Hv1 & Hframe1 & _).
  assert (view h1 r = Some str) as Hvr1.
  { destruct (Hframe1 r (not_eq_sym Hpr)) as [-> _]. exact Hvr. }
  destruct (Merge_spec h1 p r _ str Hwf1 Hv1 Hvr1) as (h1' & Hrun1' & _ & Hv1' & _).
  { simpl. congruence. }
  destruct (Merge_spec h q r stq str Hwf Hvq Hvr Hd2)
    as (h2 & Hrun2 & Hwf2 & Hv2 & Hframe2 & _).
  assert (view h2 p = Some stp) as Hvp2.
  { destruct (Hframe2 p Hpq) as [-> _]. exact Hvp. }
  destruct (Merge_spec h2 p q stp _ Hwf2 Hvp2 Hv2) as (h2' & Hrun2' & _ & Hv2' & _).
  { simpl. congruence. }
  exists h1, h1', h2, h2', (merge_stats (merge_stats stp stq) str).
  split; [exact Hrun1|]. split; [exact Hrun1'|].
  split; [exact Hrun2|]. split; [exact Hrun2'|]. split; [exact Hv1'|].
  rewrite Hv2'. f_equal. unfold merge_stats. simpl.
  by rewrite int_add_assoc, !(vadd_assoc Ha).
Qed.

End MergeFacts.
Section StatisticsFacts.

Context {F : Type} {arith : Arith F}.
Local Open Scope arith_scope.

Implicit Types (h : heap (F:=F)) (p q : loc) (st : stats (F:=F)) (pts : list (F * F)).

(** *** The entries of the caches as sums over the points *)

Lemma xtx_entry_add_point st x y (r c : nat) :
  stats_shaped st →
  let n := Z.to_nat (s_Degree st + 1) in
  (r < n)%nat → (c < n)%nat →
  entry n (s_xtx (add_point st x y)) r c = entry n (s_xtx st) r c ⊕ fpow x r ⊗ fpow x c.
Proof.
  intros (Hd & Hm & Hx & Hy) n Hr Hc. simpl.
  assert (length (powers (s_Degree st) x) = n) as Hpn by apply length_powers.
  rewrite <- Hpn. apply entry_vadd_outer.
  - rewrite Hpn. unfold n. nia.
  - by apply lookup_powers.
  - by apply lookup_powers.
Qed.

Lemma xty_entry_add_point st x y (r : nat) :
  stats_shaped st → (r < Z.to_nat (s_Degree st + 1))%nat →
  default fzero (s_xty (add_point st x y) !! r)
  = default fzero (s_xty st !! r) ⊕ fpow x r ⊗ y.
Proof.
  intros (Hd & Hm & Hx & Hy) Hr. simpl.
  assert (is_Some (s_xty st !! r)) as [v Hv] by (apply lookup_lt_is_Some; lia).
  rewrite (lookup_vadd _ _ _ v (fpow x r ⊗ y)); [by rewrite Hv | done |].
  unfold scaled. rewrite list_lookup_fmap, lookup_powers by done. reflexivity.
Qed.

Lemma xtx_entry_add_points st pts (r c : nat) :
  stats_shaped st →
  let n := Z.to_nat (s_Degree st + 1) in
  (r < n)%nat → (c < n)%nat →
  entry n (s_xtx (add_points st pts)) r c
  = fold_left (λ acc pt, acc ⊕ fpow pt.1 r ⊗ fpow pt.1 c) pts (entry n (s_xtx st) r c).
Proof.
  revert st. induction pts as [|pt pts IH]; intros st Hs n Hr Hc; [done|].
  change (add_points st (pt :: pts)) with (add_points (add_point st pt.1 pt.2) pts).
  specialize (IH (add_point st pt.1 pt.2) (add_point_shaped _ _ _ Hs)).
  cbv zeta in IH. change (s_Degree (add_point st pt.1 pt.2)) with (s_Degree st) in IH.
  fold n in IH. rewrite IH by done.
  cbn [fold_left]. f_equal. exact (xtx_entry_add_point st pt.1 pt.2 r c Hs Hr Hc).
Qed.

Lemma xty_entry_add_points st pts (r : nat) :
  stats_shaped st → (r < Z.to_nat (s_Degree st + 1))%nat →
  default fzero (s_xty (add_points st pts) !! r)
  = fold_left (λ acc pt, acc ⊕ fpow pt.1 r ⊗ pt.2) pts (default fzero (s_xty st !! r)).
Proof.
  revert st. induction pts as [|pt pts IH]; intros st Hs Hr; [done|].
  change (add_points st (pt :: pts)) with (add_points (add_point st pt.1 pt.2) pts).
  specialize (IH (add_point st pt.1 pt.2) (add_point_shaped _ _ _ Hs)).
  change (s_Degree (add_point st pt.1 pt.2)) with (s_Degree st) in IH.
  rewrite IH by done.
  cbn [fold_left]. f_equal. exact (xty_entry_add_point st pt.1 pt.2 r Hs Hr).
Qed.

Lemma entry_zeros n k (r c : nat) : entry n (replicate k (fzero : F)) r c = fzero.
Proof.
  unfold entry. destruct (replicate k fzero !! _) as [v|] eqn:E; [|done].
  apply lookup_replicate in E as [-> _]. done.
Qed.

Lemma default_zeros k (r : nat) : default fzero (replicate k (fzero : F) !! r) = fzero.
Proof.
  destruct (replicate k fzero !! _) as [v|] eqn:E; [|done].
  apply lookup_replicate in E as [-> _]. done.
Qed.

(** What the caches hold after the points [pts] were added to a new
    fitter of degree [d]. *)
Lemma power_sums d pts (r c : nat) :
  0 ≤ d → (d + 1) * (d + 1) ≤ int_max →
  (Z.of_nat r ≤ d) → (Z.of_nat c ≤ d) →
  let st := add_points (empty_stats d) pts in
  entry (Z.to_nat (d + 1)) (s_xtx st) r c = sum_over pts (λ pt, fpow pt.1 r ⊗ fpow pt.1 c) ∧
  default fzero (s_xty st !! r) = sum_over pts (λ pt, fpow pt.1 r ⊗ pt.2).
Proof.
  intros Hd Hm Hr Hc st. unfold st, sum_over.
  pose proof (empty_stats_shaped d Hd Hm) as Hs. split.
  - pose proof (xtx_entry_add_points (empty_stats d) pts r c Hs) as E.
    cbv zeta in E. change (s_Degree (empty_stats d)) with d in E.
    rewrite E by lia. unfold empty_stats at 1. cbn [s_xtx]. by rewrite entry_zeros.
  - pose proof (xty_entry_add_points (empty_stats d) pts r Hs) as E.
    change (s_Degree (empty_stats d)) with d in E.
    rewrite E by lia. unfold empty_stats at 1. cbn [s_xty]. by rewrite default_zeros.
Qed.

(** X9.  What [NewFitting] leaves in the caches: entry (r, c) of XᵀX is
    the sum of x^r·x^c over the points and entry r of XᵀY is the sum of
    x^r·y, each added up from zero in the order of the points, with the
    powers multiplied up from 1.  This holds in float64 as it stands,
    rounding included. *)
Theorem NewFitting_caches_are_power_sums h (xs ys : list F) d :
  wf_heap h → 0 ≤ d → (d + 1) * (d + 1) ≤ int_max →
  Z.of_nat (length xs) ≤ int_max → (length xs ≤ length ys)%nat →
  ∃ b h' st,
    NewFitting xs ys d h = Ok b h' ∧ view h' b = Some st ∧
    length (s_xtx st) = Z.to_nat ((d + 1) * (d + 1)) ∧
    length (s_xty st) = Z.to_nat (d + 1) ∧
    ∀ r c : nat, Z.of_nat r ≤ d → Z.of_nat c ≤ d →
      s_xtx st !! (r * Z.to_nat (d + 1) + c)%nat
        = Some (sum_over (zip xs ys) (λ pt, fpow pt.1 r ⊗ fpow pt.1 c)) ∧
      s_xty st !! r = Some (sum_over (zip xs ys) (λ pt, fpow pt.1 r ⊗ pt.2)).
Proof.
  intros Hwf Hd Hm Hn Hle.
  destruct (NewFitting_spec h xs ys d Hwf Hd Hm Hn Hle)
    as (b & h' & Hrun & _ & _ & _ & _ & Hv & _).
  pose proof (add_points_shaped _ (zip xs ys) (empty_stats_shaped d Hd Hm))
    as (_ & _ & Hx & Hy).
  rewrite add_points_Degree in Hx, Hy. simpl in Hx, Hy.
  exists b, h', (add_points (empty_stats d) (zip xs ys)).
  split; [exact Hrun|]. split; [exact Hv|]. split; [lia|]. split; [lia|].
  intros r c Hr Hc.
  destruct (power_sums d (zip xs ys) r c Hd Hm Hr Hc) as [Ex Ey].
  cbv zeta in Ex, Ey. unfold entry in Ex. split.
  - destruct (lookup_lt_is_Some_2 (s_xtx (add_points (empty_stats d) (zip xs ys)))
                (r * Z.to_nat (d + 1) + c)%nat) as [v Ev]; [nia|].
    rewrite Ev in Ex |- *. simpl in Ex. by rewrite Ex.
  - destruct (lookup_lt_is_Some_2 (s_xty (add_points (empty_stats d) (zip xs ys))) r)
      as [v Ev]; [lia|].
    rewrite Ev in Ey |- *. simpl in Ey. by rewrite Ey.
Qed.

End StatisticsFacts.
Section ShapeOfTheCaches.

Context {F : Type} {arith : Arith F}.
Local Open Scope arith_scope.

Implicit Types (h : heap (F:=F)) (p q : loc) (st : stats (F:=F)) (pts : list (F * F)).

Lemma entry_vadd n (A B : list F) (r c : nat) :
  length A = (n * n)%nat → length B = (n * n)%nat → (r < n)%nat → (c < n)%nat →
  entry n (vadd A B) r c = entry n A r c ⊕ entry n B r c.
Proof.
  intros HA HB Hr Hc. unfold entry.
  destruct (lookup_lt_is_Some_2 A (r * n + c)%nat) as [a Ea]; [nia|].
  destruct (lookup_lt_is_Some_2 B (r * n + c)%nat) as [b Eb]; [nia|].
  by rewrite (lookup_vadd _ _ _ a b Ea Eb), Ea, Eb.
Qed.

Lemma fold_left_ext_in {A B} (f g : A → B → A) (l : list B) a :
  (∀ acc b, f acc b = g acc b) → fold_left f l a = fold_left g l a.
Proof.
  intros E. revert a. induction l as [|b l IH]; intros a; [done|].
  simpl. rewrite E. apply IH.
Qed.

(** X10.  The cached matrix of a fitter made by [NewFitting] is
    symmetric, entry (r, c) equal to entry (c, r) bit for bit, whenever
    multiplication commutes, as float64 multiplication does. *)
Theorem NewFitting_XtX_is_symmetric h (xs ys : list F) d :
  (∀ a b : F, a ⊗ b = b ⊗ a) →
  wf_heap h → 0 ≤ d → (d + 1) * (d + 1) ≤ int_max →
  Z.of_nat (length xs) ≤ int_max → (length xs ≤ length ys)%nat →
  ∃ b h' st,
    NewFitting xs ys d h = Ok b h' ∧ view h' b = Some st ∧
    symmetric (Z.to_nat (d + 1)) (s_xtx st).
Proof.
  intros Hc Hwf Hd Hm Hn Hle.
  destruct (NewFitting_spec h xs ys d Hwf Hd Hm Hn Hle)
    as (b & h' & Hrun & _ & _ & _ & _ & Hv & _).
  exists b, h', (add_points (empty_stats d) (zip xs ys)).
  split; [exact Hrun|]. split; [exact Hv|].
  intros r c Hr Hcc.
  destruct (power_sums d (zip xs ys) r c Hd Hm ltac:(lia) ltac:(lia)) as [-> _].
  destruct (power_sums d (zip xs ys) c r Hd Hm ltac:(lia) ltac:(lia)) as [-> _].
  unfold sum_over. apply fold_left_ext_in. intros acc pt. by rewrite Hc.
Qed.

(** X11.  [Add] and [Merge] keep the cached matrix symmetric when
    multiplication commutes: if XᵀX of the receiver (and, for [Merge],
    of the argument) is symmetric before the call, XᵀX of the receiver is
    symmetric after it. *)
Theorem Add_and_Merge_keep_XtX_symmetric h p st :
  (∀ a b : F, a ⊗ b = b ⊗ a) →
  wf_heap h → view h p = Some st →
  let n := Z.to_nat (s_Degree st + 1) in
  symmetric n (s_xtx st) →
  (∀ x y, ∃ h' st', Add p x y h = Ok tt h' ∧ view h' p = Some st' ∧
                    symmetric n (s_xtx st')) ∧
  (∀ q stq, view h q = Some stq → s_Degree stq = s_Degree st →
            symmetric n (s_xtx stq) →
            ∃ h' st', Merge p q h = Ok tt h' ∧ view h' p = Some st' ∧
                      symmetric n (s_xtx st')).
Proof.
  intros Hc Hwf Hv n Hsym. unfold n in *. clear n.
  set (n := Z.to_nat (s_Degree st + 1)) in *.
  destruct (view_inv _ _ _ Hwf Hv) as (f & Hp & HN & HD & Hx & Hy & Hlx & Hly).
  pose proof (wf_shaped _ Hwf _ _ Hp) as (Hd & Hm & Hsx & Hsy).
  assert (stats_shaped st) as Hs.
  { unfold stats_shaped. rewrite <- HD. repeat split; lia. }
  split.
  - intros x y.
    destruct (Add_spec h p st x y Hwf Hv) as (h' & Hrun & _ & Hv' & _).
    exists h', (add_point st x y). split; [exact Hrun|]. split; [exact Hv'|].
    intros r c Hr Hcc.
    pose proof (xtx_entry_add_point st x y r c Hs Hr Hcc) as E1.
    pose proof (xtx_entry_add_point st x y c r Hs Hcc Hr) as E2.
    cbv zeta in E1, E2. fold n in E1, E2.
    by rewrite E1, E2, (Hsym r c Hr Hcc), Hc.
  - intros q stq Hvq Hdq Hsymq.
    destruct (view_inv _ _ _ Hwf Hvq) as (g & Hq & HNg & HDg & Hgx & Hgy & Hlgx & Hlgy).
    pose proof (wf_shaped _ Hwf _ _ Hq) as (_ & _ & Hsgx & Hsgy).
    destruct (Merge_spec h p q st stq Hwf Hv Hvq (eq_sym Hdq)) as (h' & Hrun & _ & Hv' & _).
    exists h', (merge_stats st stq). split; [exact Hrun|]. split; [exact Hv'|].
    intros r c Hr Hcc. simpl.
    assert (length (s_xtx st) = (n * n)%nat) as L1 by (unfold n; rewrite <- HD; nia).
    assert (length (s_xtx stq) = (n * n)%nat) as L2.
    { unfold n. rewrite <- Hdq, <- HDg. nia. }
    rewrite !entry_vadd by done.
    by rewrite (Hsym r c Hr Hcc), (Hsymq r c Hr Hcc).
Qed.

Lemma fpow_add (x : F) (r c : nat) :
  (∀ a b c : F, a ⊗ (b ⊗ c) = (a ⊗ b) ⊗ c) → (∀ a : F, a ⊗ fone = a) →
  fpow x r ⊗ fpow x c = fpow x (r + c).
Proof.
  intros Ha H1. induction c as [|c IH].
  - rewrite Nat.add_0_r. simpl. apply H1.
  - rewrite Nat.add_succ_r. simpl. by rewrite Ha, IH.
Qed.

(** X12.  In exact arithmetic (multiplication associative with 1 as
    right unit) entry (r, c) of XᵀX is the sum of x^(r+c) over the
    points, so the matrix is constant along its anti-diagonals: entries
    with the same r + c are equal. *)
Theorem NewFitting_XtX_is_Hankel h (xs ys : list F) d :
  (∀ a b c : F, a ⊗ (b ⊗ c) = (a ⊗ b) ⊗ c) → (∀ a : F, a ⊗ fone = a) →
  wf_heap h → 0 ≤ d → (d + 1) * (d + 1) ≤ int_max →
  Z.of_nat (length xs) ≤ int_max → (length xs ≤ length ys)%nat →
  ∃ b h' st,
    NewFitting xs ys d h = Ok b h' ∧ view h' b = Some st ∧
    ∀ r c : nat, Z.of_nat r ≤ d → Z.of_nat c ≤ d →
      entry (Z.to_nat (d + 1)) (s_xtx st) r c
        = sum_over (zip xs ys) (λ pt, fpow pt.1 (r + c)) ∧
      ∀ r' c' : nat, Z.of_nat r' ≤ d → Z.of_nat c' ≤ d → (r + c = r' + c')%nat →
        entry (Z.to_nat (d + 1)) (s_xtx st) r c = entry (Z.to_nat (d + 1)) (s_xtx st) r' c'.
Proof.
  intros Ha H1 Hwf Hd Hm Hn Hle.
  destruct (NewFitting_spec h xs ys d Hwf Hd Hm Hn Hle)
    as (b & h' & Hrun & _ & _ & _ & _ & Hv & _).
  exists b, h', (add_points (empty_stats d) (zip xs ys)).
  split; [exact Hrun|]. split; [exact Hv|].
  assert (∀ r c : nat, Z.of_nat r ≤ d → Z.of_nat c ≤ d →
            entry (Z.to_nat (d + 1)) (s_xtx (add_points (empty_stats d) (zip xs ys))) r c
            = sum_over (zip xs ys) (λ pt, fpow pt.1 (r + c))) as Hsum.
  { intros r c Hr Hc.
    destruct (power_sums d (zip xs ys) r c Hd Hm Hr Hc) as [-> _].
    unfold sum_over. apply fold_left_ext_in. intros acc pt. by rewrite fpow_add. }
  intros r c Hr Hc. split; [by apply Hsum|].
  intros r' c' Hr' Hc' E. rewrite !Hsum by done. by rewrite E.
Qed.

Lemma fold_left_fsum (l : list F) (g : F → F) a :
  (∀ v, g v = v) →
  fold_left (λ acc v, acc ⊕ g v) l a = fold_left fadd l a.
Proof. intros E. apply fold_left_ext_in. intros acc v. by rewrite E. Qed.

Lemma sum_over_map pts (g : F * F → F) :
  sum_over pts g = fsum (map g pts).
Proof.
  unfold sum_over, fsum. generalize (fzero : F).
  induction pts as [|pt pts IH]; intros a; [done|]. simpl. apply IH.
Qed.

Lemma fold_left_count pts (a : F) :
  fold_left (λ acc (_ : F * F), acc ⊕ fone) pts a
  = fold_left fadd (replicate (length pts) fone) a.
Proof. revert a. induction pts as [|pt pts IH]; intros a; [done|]. simpl. apply IH. Qed.

Lemma map_snd_zip_take (xs ys : list F) :
  map snd (zip xs ys) = take (length xs) ys.
Proof.
  revert ys. induction xs as [|x xs IH]; intros [|y ys]; simpl; try done.
  by rewrite IH.
Qed.

Lemma lookup_entry n (A : list F) (r c : nat) :
  (r * n + c < length A)%nat → A !! (r * n + c)%nat = Some (entry n A r c).
Proof.
  intros Hl. unfold entry.
  destruct (lookup_lt_is_Some_2 A (r * n + c)%nat Hl) as [v ->]. done.
Qed.

(** X13.  When 1 is a left unit of multiplication, the first entry of
    XᵀX counts the points, 1 + 1 + … + 1 once per point, and the first
    entry of XᵀY is the sum of the y values that were paired with an
    x. *)
Theorem NewFitting_counts_and_sums h (xs ys : list F) d :
  (∀ a : F, fone ⊗ a = a) →
  wf_heap h → 0 ≤ d → (d + 1) * (d + 1) ≤ int_max →
  Z.of_nat (length xs) ≤ int_max → (length xs ≤ length ys)%nat →
  ∃ b h' st,
    NewFitting xs ys d h = Ok b h' ∧ view h' b = Some st ∧
    s_xtx st !! 0%nat = Some (fcount (length xs)) ∧
    s_xty st !! 0%nat = Some (fsum (take (length xs) ys)).
Proof.
  intros H1 Hwf Hd Hm Hn Hle.
  destruct (NewFitting_spec h xs ys d Hwf Hd Hm Hn Hle)
    as (b & h' & Hrun & _ & _ & _ & _ & Hv & _).
  pose proof (add_points_shaped _ (zip xs ys) (empty_stats_shaped d Hd Hm))
    as (_ & _ & Hx & Hy).
  rewrite add_points_Degree in Hx, Hy. simpl in Hx, Hy.
  exists b, h', (add_points (empty_stats d) (zip xs ys)).
  split; [exact Hrun|]. split; [exact Hv|].
  destruct (power_sums d (zip xs ys) 0 0 Hd Hm ltac:(lia) ltac:(lia)) as [Ex Ey].
  cbv zeta in Ex, Ey.
  assert (length (zip xs ys) = length xs) as Hlen by (rewrite length_zip_with; lia).
  split.
  - rewrite (lookup_entry (Z.to_nat (d + 1)) _ 0 0) by (simpl; nia).
    rewrite Ex. f_equal. unfold sum_over, fcount, fsum. simpl.
    rewrite <- Hlen, <- fold_left_count.
    apply fold_left_ext_in. intros acc pt. by rewrite H1.
  - destruct (lookup_lt_is_Some_2 (s_xty (add_points (empty_stats d) (zip xs ys))) 0)
      as [v Ev]; [lia|].
    rewrite Ev in Ey |- *. simpl in Ey. rewrite Ey. f_equal.
    rewrite <- map_snd_zip_take, <- sum_over_map. unfold sum_over.
    apply fold_left_ext_in. intros acc pt. simpl. by rewrite H1.
Qed.

End ShapeOfTheCaches.
Section Composition.

Context {F : Type} {arith : Arith F}.
Local Open Scope arith_scope.

Implicit Types (h : heap (F:=F)) (p q : loc) (st : stats (F:=F)) (pts : list (F * F)).

Lemma list_eq_default (u v : list F) :
  length u = length v →
  (∀ k, (k < length u)%nat → default fzero (u !! k) = default fzero (v !! k)) →
  u = v.
Proof.
  intros Hl He. apply list_eq. intros k.
  destruct (decide (k < length u)%nat) as [Hk|Hk].
  - specialize (He k Hk).
    destruct (lookup_lt_is_Some_2 u k Hk) as [a Ea].
    destruct (lookup_lt_is_Some_2 v k ltac:(lia)) as [b Eb].
    rewrite Ea, Eb in *. simpl in He. by rewrite He.
  - rewrite !lookup_ge_None_2 by lia. done.
Qed.

Lemma block_entries rows cols s1 s2 (l1 l2 : list F) :
  (∀ r c, (r < rows)%nat → (c < cols)%nat →
     default fzero (l1 !! (r * s1 + c)%nat) = default fzero (l2 !! (r * s2 + c)%nat)) →
  block rows cols s1 l1 = block rows cols s2 l2.
Proof.
  intros Hext. unfold block. rewrite !flat_map_concat_map. f_equal.
  apply map_ext_in. intros r Hr%in_seq.
  apply map_ext_in. intros c Hc%in_seq.
  apply Hext; lia.
Qed.

(** X14.  The statistics of a lower degree sit inside those of a higher
    one: for the same points, XᵀX of a fitter of degree d' ≤ d is the
    leading (d'+1)×(d'+1) block of XᵀX of the fitter of degree d, and
    its XᵀY is the first d'+1 entries, bit for bit.  This is the block
    [Solve] cuts out when there are too few points. *)
Theorem lower_degree_is_leading_block h (xs ys : list F) d d' :
  wf_heap h → 0 ≤ d' ≤ d → (d + 1) * (d + 1) ≤ int_max →
  Z.of_nat (length xs) ≤ int_max → (length xs ≤ length ys)%nat →
  let n := Z.to_nat (d + 1) in
  let n' := Z.to_nat (d' + 1) in
  ∃ b h1 h2 st st',
    NewFitting xs ys d h = Ok b h1 ∧ NewFitting xs ys d' h = Ok b h2 ∧
    view h1 b = Some st ∧ view h2 b = Some st' ∧
    s_xtx st' = block n' n' n (s_xtx st) ∧
    s_xty st' = take n' (s_xty st).
Proof.
  intros Hwf Hd' Hm Hn Hle n n'.
  assert ((d' + 1) * (d' + 1) ≤ int_max) as Hm' by nia.
  destruct (NewFitting_spec h xs ys d Hwf ltac:(lia) Hm Hn Hle)
    as (b & h1 & Hrun1 & Eb1 & _ & _ & _ & Hv1 & _).
  destruct (NewFitting_spec h xs ys d' Hwf ltac:(lia) Hm' Hn Hle)
    as (b2 & h2 & Hrun2 & Eb2 & _ & _ & _ & Hv2 & _).
  assert (b2 = b) as -> by congruence.
  set (pts := zip xs ys) in *.
  pose proof (add_points_shaped _ pts (empty_stats_shaped d ltac:(lia) Hm))
    as (_ & _ & Hx & Hy).
  pose proof (add_points_shaped _ pts (empty_stats_shaped d' ltac:(lia) Hm'))
    as (_ & _ & Hx' & Hy').
  rewrite add_points_Degree in Hx, Hy, Hx', Hy'. simpl in Hx, Hy, Hx', Hy'.
  exists b, h1, h2, (add_points (empty_stats d) pts), (add_points (empty_stats d') pts).
  split; [exact Hrun1|]. split; [exact Hrun2|]. split; [exact Hv1|]. split; [exact Hv2|].
  split.
  - rewrite <- (block_full n' n' (s_xtx (add_points (empty_stats d') pts)))
      by (unfold n'; nia).
    apply block_entries. intros r c Hr Hc.
    destruct (power_sums d' pts r c ltac:(lia) Hm' ltac:(unfold n' in *; lia)
                ltac:(unfold n' in *; lia)) as [E' _].
    destruct (power_sums d pts r c ltac:(lia) Hm ltac:(unfold n' in *; lia)
                ltac:(unfold n' in *; lia)) as [E _].
    cbv zeta in E, E'. unfold entry in E, E'. fold n in E. fold n' in E'.
    by rewrite E, E'.
  - apply list_eq_default.
    + rewrite length_take. unfold n'. lia.
    + intros k Hk.
      assert (k < n')%nat as Hk' by (unfold n'; lia).
      rewrite lookup_take_lt by done.
      destruct (power_sums d' pts k 0 ltac:(lia) Hm' ltac:(unfold n' in *; lia)
                  ltac:(lia)) as [_ E'].
      destruct (power_sums d pts k 0 ltac:(lia) Hm ltac:(unfold n' in *; lia)
                  ltac:(lia)) as [_ E].
      cbv zeta in E, E'. by rewrite E, E'.
Qed.

(** *** The order of the points *)

Lemma vadd_swap (A U V : list F) :
  (∀ a b c : F, a ⊕ (b ⊕ c) = (a ⊕ b) ⊕ c) → (∀ a b : F, a ⊕ b = b ⊕ a) →
  vadd (vadd A U) V = vadd (vadd A V) U.
Proof.
  intros Ha Hc. unfold vadd. revert U V.
  induction A as [|a A IH]; intros [|u U] [|v V]; simpl; try done.
  f_equal; [|apply IH].
  by rewrite <- !Ha, (Hc u v).
Qed.

Lemma add_point_swap st (x1 y1 x2 y2 : F) :
  (∀ a b c : F, a ⊕ (b ⊕ c) = (a ⊕ b) ⊕ c) → (∀ a b : F, a ⊕ b = b ⊕ a) →
  add_point (add_point st x1 y1) x2 y2 = add_point (add_point st x2 y2) x1 y1.
Proof.
  intros Ha Hc. unfold add_point. simpl. f_equal; by apply vadd_swap.
Qed.

Lemma add_points_permutation pts pts' :
  (∀ a b c : F, a ⊕ (b ⊕ c) = (a ⊕ b) ⊕ c) → (∀ a b : F, a ⊕ b = b ⊕ a) →
  pts ≡ₚ pts' → ∀ st, add_points st pts = add_points st pts'.
Proof.
  intros Ha Hc Hp. induction Hp as [|pt l l' _ IH|pt1 pt2 l|l l' l'' _ IH1 _ IH2]; intros st.
  - done.
  - apply IH.
  - change (add_points (add_point (add_point st pt2.1 pt2.2) pt1.1 pt1.2) l
            = add_points (add_point (add_point st pt1.1 pt1.2) pt2.1 pt2.2) l).
    by rewrite add_point_swap.
  - by rewrite IH1, IH2.
Qed.

(** X15.  In exact arithmetic (addition associative and commutative) the
    order in which the points are given does not matter: [NewFitting] on
    the same points in another order returns the same fitter in the same
    store.  In float64 the two agree up to rounding. *)
Theorem NewFitting_order_of_points_is_irrelevant h (xs ys xs' ys' : list F) d :
  (∀ a b c : F, a ⊕ (b ⊕ c) = (a ⊕ b) ⊕ c) → (∀ a b : F, a ⊕ b = b ⊕ a) →
  wf_heap h → 0 ≤ d → (d + 1) * (d + 1) ≤ int_max →
  Z.of_nat (length xs) ≤ int_max →
  (length xs ≤ length ys)%nat → (length xs' ≤ length ys')%nat →
  zip xs ys ≡ₚ zip xs' ys' →
  ∃ b h' st,
    NewFitting xs ys d h = Ok b h' ∧ NewFitting xs' ys' d h = Ok b h' ∧
    view h' b = Some st.
Proof.
  intros Ha Hc Hwf Hd Hm Hn Hle Hle' Hperm.
  assert (length xs' = length xs) as Hlen.
  { apply Permutation_length in Hperm. rewrite !length_zip_with in Hperm. lia. }
  destruct (NewFitting_spec h xs ys d Hwf Hd Hm Hn Hle)
    as (b & h' & Hrun & Eb & Eh & _ & _ & Hv & _).
  destruct (NewFitting_spec h xs' ys' d Hwf Hd Hm ltac:(lia) Hle')
    as (b2 & h2 & Hrun2 & Eb2 & Eh2 & _).
  exists b, h', (add_points (empty_stats d) (zip xs ys)).
  split; [exact Hrun|]. split; [|exact Hv].
  rewrite Hrun2. subst b b2 h' h2.
  by rewrite (add_points_permutation _ _ Ha Hc Hperm).
Qed.

Lemma solution_ext (solver : LinSolver F) (f g : Fitting) (v w : list F) :
  N f = N g → Degree f = Degree g → solution f v w = solution g v w.
Proof. intros E1 E2. unfold solution. by rewrite E1, E2. Qed.

(** X16.  Fitting two sets of points apart, merging and solving gives,
    in exact arithmetic (addition associative with zero as right unit),
    the coefficients of one fit over all the points:
    [a := NewFitting(A); b := NewFitting(B); a.Merge(b); a.Solve()]
    returns what [NewFitting(A ++ B).Solve()] returns. *)
Theorem merged_fit_solves_like_one_fit (solver : LinSolver F) h
    (xsA ysA xsB ysB : list F) d :
  (∀ a b c : F, a ⊕ (b ⊕ c) = (a ⊕ b) ⊕ c) → (∀ a : F, a ⊕ fzero = a) →
  wf_heap h → 0 ≤ d → (d + 1) * (d + 1) ≤ int_max →
  length xsA = length ysA → (length xsB ≤ length ysB)%nat →
  (1 ≤ length xsA + length xsB)%nat →
  Z.of_nat (length xsA + length xsB) ≤ int_max →
  ∃ s1 h1 s2 h2 beta,
    bind (NewFitting xsA ysA d) (λ a,
      bind (NewFitting xsB ysB d) (λ b,
        bind (Merge a b) (λ _, Solve a))) h = Ok s1 h1 ∧
    bind (NewFitting (xsA ++ xsB) (ysA ++ ysB) d) Solve h = Ok s2 h2 ∧
    contents h1 s1 = Some beta ∧ contents h2 s2 = Some beta ∧
    length beta = Z.to_nat (d + 1).
Proof.
  intros Ha H0 Hwf Hd Hm HlA HlB H1 Hn.
  destruct (NewFitting_spec h xsA ysA d Hwf Hd Hm ltac:(lia) ltac:(lia))
    as (a & hA & HrunA & _ & _ & HaF & HwfA & HvA & _).
  destruct (NewFitting_spec hA xsB ysB d HwfA Hd Hm ltac:(lia) HlB)
    as (b & hB & HrunB & _ & _ & HbF & HwfB & HvB & HframeB).
  assert (a ≠ b) as Hab.
  { intros ->. apply HbF.
    destruct (view_inv _ _ _ HwfA HvA) as (f & Hf & _).
    apply elem_of_dom. eauto. }
  destruct (HframeB a Hab) as [HvA' _]. rewrite HvA in HvA'.
  destruct (Merge_spec hB a b _ _ HwfB HvA' HvB) as (hM & HrunM & HwfM & HvM & _).
  { by rewrite !add_points_Degree. }
  rewrite (merge_stats_app Ha H0) in HvM by done.
  destruct (NewFitting_spec h (xsA ++ xsB) (ysA ++ ysB) d Hwf Hd Hm)
    as (c & hC & HrunC & _ & _ & _ & HwfC & HvC & _).
  { rewrite length_app. lia. }
  { rewrite !length_app. lia. }
  rewrite zip_with_app in HvC by done.
  set (st := add_points (empty_stats d) (zip xsA ysA ++ zip xsB ysB)) in *.
  assert (1 ≤ s_N st) as HN.
  { unfold st. rewrite add_points_N; rewrite length_app, !length_zip_with; lia. }
  destruct (view_inv _ _ _ HwfM HvM) as (f & Hp & HNf & HD & Hx & Hy & Hlx & Hly).
  destruct (view_inv _ _ _ HwfC HvC) as (g & Hq & HNg & HDg & Hgx & Hgy & _).
  destruct (Solve_returns hM a f _ _ HwfM Hp Hx Hy ltac:(lia))
    as (s1 & h1 & Hrun1 & Hc1 & _).
  destruct (Solve_returns hC c g _ _ HwfC Hq Hgx Hgy ltac:(lia))
    as (s2 & h2 & Hrun2 & Hc2 & _).
  exists s1, h1, s2, h2, (solution f (s_xtx st) (s_xty st)).
  split.
  { rewrite (bind_Ok _ _ _ _ _ HrunA), (bind_Ok _ _ _ _ _ HrunB),
      (bind_Ok _ _ _ _ _ HrunM). exact Hrun1. }
  split. { rewrite (bind_Ok _ _ _ _ _ HrunC). exact Hrun2. }
  split; [exact Hc1|]. split.
  - rewrite Hc2. f_equal. apply solution_ext; congruence.
  - replace d with (Degree f) by (rewrite HD; apply add_points_Degree).
    apply solution_length; [exact (wf_shaped _ HwfM _ _ Hp) | lia | done | done].
Qed.

End Composition.
Section Edges.

Context {F : Type} {arith : Arith F}.
Local Open Scope arith_scope.

Implicit Types (h : heap (F:=F)) (p q : loc).

(** X17.  A degree below -1 asks [make] for a slice of negative length:
    [NewFitting] panics with "makeslice: len out of range" whatever the
    points are, after XᵀX was allocated and before any fitter exists. *)
Theorem NewFitting_negative_degree_panics h (xs ys : list F) d :
  d < -1 → (d + 1) * (d + 1) ≤ int_max →
  ∃ h', NewFitting xs ys d h = Panicked MakeSliceOutOfRange h' ∧
        fittings h' = fittings h.
Proof.
  intros Hd Hm. pose proof int_bounds as (Hb1 & Hb2 & Hb3).
  assert (int_add d 1 = d + 1) as Em by (apply int_add_id; nia).
  assert (int_mul (d + 1) (d + 1) = (d + 1) * (d + 1)) as Emm by (apply int_mul_id; nia).
  unfold NewFitting. cbv zeta. rewrite Em, Emm.
  erewrite bind_Ok by (apply make_Ok; nia).
  eexists. split.
  - apply bind_Panicked. unfold make. rewrite decide_False by lia. reflexivity.
  - reflexivity.
Qed.

(** X18.  A method called through a pointer to no fitter panics with a
    nil dereference and leaves the store as it was: [Add], [Copy] and
    [Solve] on such a receiver, and [Merge] with such a receiver or such
    an argument (the argument is read before anything is written). *)
Theorem methods_panic_on_nil (solver : LinSolver F) h p :
  fittings h !! p = None →
  (∀ x y, Add p x y h = Panicked NilDereference h) ∧
  Copy p h = Panicked NilDereference h ∧
  Solve p h = Panicked NilDereference h ∧
  (∀ q, Merge p q h = Panicked NilDereference h) ∧
  (∀ q, is_Some (fittings h !! q) → Merge q p h = Panicked NilDereference h).
Proof.
  intros Hp.
  assert (load p h = Panicked NilDereference h) as Hl by (unfold load; by rewrite Hp).
  split; [|split; [|split; [|split]]].
  - intros x y. unfold Add. by apply bind_Panicked.
  - unfold Copy. by apply bind_Panicked.
  - unfold Solve. by apply bind_Panicked.
  - intros q. unfold Merge. by apply bind_Panicked.
  - intros q [f Hq]. unfold Merge.
    erewrite bind_Ok by (apply load_Ok; exact Hq).
    by apply bind_Panicked.
Qed.

End Edges.
Section DegreeMinusOne.

Context {F : Type} {arith : Arith F}.
Local Open Scope arith_scope.

Implicit Types (h : heap (F:=F)) (p q : loc).

Lemma int_add_m1_1 : int_add (-1) 1 = 0.
Proof. reflexivity. Qed.

Lemma int_mul_0_0 : int_mul 0 0 = 0.
Proof. reflexivity. Qed.

(** [Add] on a fitter of degree -1 only counts. *)
Lemma Add_degree_minus_one h p f (x y : F) :
  fittings h !! p = Some f → Degree f = -1 →
  Add p x y h = Ok tt (Heap (arrays h) (<[p := set_N f (int_add (N f) 1)]> (fittings h))).
Proof.
  intros Hp Hd. unfold Add.
  erewrite bind_Ok by (apply load_Ok; exact Hp).
  cbv zeta. rewrite Hd, int_add_m1_1.
  unfold make_local. rewrite decide_True by lia. rewrite bind_ret.
  rewrite (bind_Ok _ _ _ _ _ (for_loop_empty 0 0 _ h ltac:(lia))).
  rewrite (bind_Ok _ _ _ _ _ (for_loop_empty 0 0 _ h ltac:(lia))).
  erewrite bind_Ok by (apply load_Ok; exact Hp).
  apply (store_Ok _ _ f). exact Hp.
Qed.

(** X19.  Degree -1 is accepted: [NewFitting] then returns a fitter
    with empty caches whose N counts the points, since [Add] has no
    entry to update.  [Solve] on such a fitter panics: the system has no
    unknown and gonum refuses a matrix without rows. *)
Theorem NewFitting_degree_minus_one (solver : LinSolver F) h (xs ys : list F) :
  Z.of_nat (length xs) ≤ int_max → (length xs ≤ length ys)%nat →
  ∃ b h' f,
    NewFitting xs ys (-1) h = Ok b h' ∧ fittings h' !! b = Some f ∧
    N f = Z.of_nat (length xs) ∧ Degree f = -1 ∧
    contents h' (xtx f) = Some [] ∧ contents h' (xty f) = Some [] ∧
    ∃ h'', Solve b h' = Panicked ErrZeroLength h''.
Proof.
  intros Hn Hle. pose proof int_bounds as (Hb1 & Hb2 & Hb3).
  unfold NewFitting. cbv zeta. rewrite int_add_m1_1, int_mul_0_0.
  erewrite bind_Ok by (apply make_Ok; lia).
  erewrite bind_Ok by (apply make_Ok; lia).
  unfold new_struct at 1. unfold bind at 1. cbn [arrays fittings].
  set (a1 := fresh (dom (arrays h))).
  set (arr1 := <[a1 := replicate (Z.to_nat 0) fzero]> (arrays h)).
  set (a2 := fresh (dom arr1)).
  set (arr := <[a2 := replicate (Z.to_nat 0) fzero]> arr1).
  set (b := fresh (dom (fittings h))).
  set (sx := Slice a1 (Z.to_nat 0) (Z.to_nat 0)).
  set (sy := Slice a2 (Z.to_nat 0) (Z.to_nat 0)).
  set (at_count k := Heap arr (<[b := mkFitting k (-1) sx sy]> (fittings h))).
  change (Heap arr (<[b := mkFitting 0 (-1) sx sy]> (fittings h))) with (at_count 0).
  rewrite (bind_Ok _ _ _ _ _ (for_loop_empty 0 0 _ (at_count 0) ltac:(lia))).
  rewrite (bind_Ok _ _ _ _ _ (for_loop_empty 0 0 _ (at_count 0) ltac:(lia))).
  destruct (for_loop_inv (λ i h1, h1 = at_count i) 0 (Z.of_nat (length xs))
              (λ i, bind (local_get xs i) (λ x, bind (local_get ys i) (λ y, Add b x y)))
              (at_count 0))
    as (h' & Hrun & ->); [lia | lia | lia | reflexivity | |].
  { intros i h1 Hi ->.
    destruct (lookup_lt_is_Some_2 xs (Z.to_nat i) ltac:(lia)) as [x Hx].
    destruct (lookup_lt_is_Some_2 ys (Z.to_nat i) ltac:(lia)) as [y Hy].
    eexists. split.
    - erewrite bind_Ok by (apply local_get_Ok; [lia | exact Hx]).
      erewrite bind_Ok by (apply local_get_Ok; [lia | exact Hy]).
      apply (Add_degree_minus_one _ _ (mkFitting i (-1) sx sy)); [|reflexivity].
      unfold at_count. simpl. apply lookup_insert_eq.
    - unfold at_count, set_N. simpl. rewrite insert_insert_eq.
      rewrite int_add_id by lia. reflexivity. }
  rewrite (bind_Ok _ _ _ _ _ Hrun).
  assert (a2 ≠ a1) as Hne.
  { intros E. apply (is_fresh (dom arr1)). fold a2. rewrite E.
    unfold arr1. rewrite dom_insert_L. set_solver. }
  assert (arr !! a1 = Some (replicate (Z.to_nat 0) fzero)) as H1.
  { unfold arr. rewrite lookup_insert_ne by done. apply lookup_insert_eq. }
  assert (arr !! a2 = Some (replicate (Z.to_nat 0) fzero)) as H2 by apply lookup_insert_eq.
  set (f := mkFitting (Z.of_nat (length xs)) (-1) sx sy).
  assert (fittings (at_count (Z.of_nat (length xs))) !! b = Some f) as Hb
    by apply lookup_insert_eq.
  exists b, (at_count (Z.of_nat (length xs))), f.
  split; [reflexivity|]. split; [exact Hb|]. split; [reflexivity|]. split; [reflexivity|].
  split; [|split].
  - unfold contents. change (arrays (at_count _) !! sl_arr (xtx f)) with (arr !! a1).
    rewrite H1. reflexivity.
  - unfold contents. change (arrays (at_count _) !! sl_arr (xty f)) with (arr !! a2).
    rewrite H2. reflexivity.
  - unfold Solve.
    erewrite bind_Ok by (apply load_Ok; exact Hb).
    cbv zeta. change (Degree f) with (-1). rewrite int_add_m1_1.
    change (N f) with (Z.of_nat (length xs)).
    rewrite decide_True by lia.
    erewrite bind_Ok by (apply make_Ok; lia).
    rewrite decide_False by lia. rewrite decide_False by lia. rewrite decide_False by lia.
    unfold Solve_general.
    erewrite bind_Ok by (apply load_Ok; exact Hb).
    eexists. apply bind_Panicked. unfold NewDense.
    rewrite decide_True by lia. rewrite decide_True by lia. reflexivity.
Qed.

End DegreeMinusOne.
Section Determinants.

Context {F : Type} {arith : Arith F}.
Variable fopp : F → F.
Hypothesis Rth : ring_theory fzero fone fadd fmul fsub fopp eq.
Add Ring Fring : Rth.
Local Open Scope arith_scope.

(** In a commutative ring the two formulas are the determinant. *)
Lemma determinant2_formula (a b c d : F) :
  a ⊗ d ⊖ b ⊗ c = det 2 [a; b; c; d].
Proof. cbn. ring. Qed.

Lemma determinant3_formula (a b c d e f g k i : F) :
  a ⊗ e ⊗ i ⊕ b ⊗ f ⊗ g ⊕ c ⊗ d ⊗ k ⊖ c ⊗ e ⊗ g ⊖ b ⊗ d ⊗ i ⊖ a ⊗ f ⊗ k
  = det 3 [a; b; c; d; e; f; g; k; i].
Proof. cbn. ring. Qed.

End Determinants.

Section DeterminantFacts.

Context {F : Type} {arith : Arith F}.
Local Open Scope arith_scope.

Implicit Types (h : heap (F:=F)) (s : slice).

(** Reading a slice that lies within its array. *)
Lemma index_get_read h s (l : list F) i :
  arrays h !! sl_arr s = Some l → (sl_len s ≤ length l)%nat →
  index_get s i h =
    if decide (0 ≤ i < Z.of_nat (sl_len s))
    then Ok (default fzero (l !! Z.to_nat i)) h
    else Panicked IndexOutOfRange h.
Proof.
  intros Hs Hl. unfold index_get. destruct (decide _) as [Hi|Hi]; [|done].
  rewrite Hs. simpl.
  destruct (lookup_lt_is_Some_2 l (Z.to_nat i) ltac:(lia)) as [v ->]. done.
Qed.

Ltac to_nat_literals :=
  repeat match goal with
         | |- context [Z.to_nat ?k] =>
             let n := eval vm_compute in (Z.to_nat k) in change (Z.to_nat k) with n
         end.

Ltac read_cells Hs Hl :=
  unfold bind;
  repeat (rewrite (index_get_read _ _ _ _ Hs Hl);
          destruct (decide _) as [?|?]; [cbv beta iota | first [reflexivity | lia]]).

Lemma determinant2_reads h s (l : list F) :
  arrays h !! sl_arr s = Some l → (sl_len s ≤ length l)%nat → (4 ≤ sl_len s)%nat →
  ∃ a b c d, take 4 l = [a; b; c; d] ∧ determinant2 s h = Ok (a ⊗ d ⊖ b ⊗ c) h.
Proof.
  intros Hs Hl H4.
  destruct l as [|v0 [|v1 [|v2 [|v3 l]]]]; try (simpl in Hl; lia).
  exists v0, v1, v2, v3. split; [reflexivity|].
  unfold determinant2. read_cells Hs Hl. to_nat_literals. reflexivity.
Qed.

Lemma determinant3_reads h s (l : list F) :
  arrays h !! sl_arr s = Some l → (sl_len s ≤ length l)%nat → (9 ≤ sl_len s)%nat →
  ∃ a b c d e f g k i,
    take 9 l = [a; b; c; d; e; f; g; k; i] ∧
    determinant3 s h =
      Ok (a ⊗ e ⊗ i ⊕ b ⊗ f ⊗ g ⊕ c ⊗ d ⊗ k ⊖ c ⊗ e ⊗ g ⊖ b ⊗ d ⊗ i ⊖ a ⊗ f ⊗ k) h.
Proof.
  intros Hs Hl H9.
  destruct l as [|v0 [|v1 [|v2 [|v3 [|v4 [|v5 [|v6 [|v7 [|v8 l]]]]]]]]];
    try (simpl in Hl; lia).
  exists v0, v1, v2, v3, v4, v5, v6, v7, v8. split; [reflexivity|].
  unfold determinant3. read_cells Hs Hl. to_nat_literals. reflexivity.
Qed.

(** X20.  In any arithmetic, float64 included, [determinant2] and
    [determinant3] read the first 4 and 9 elements of their argument as
    a row-major matrix, change nothing, and return a·d - b·c and
    a·e·i + b·f·g + c·d·h - c·e·g - b·d·i - a·f·h, evaluated from the
    left; on a shorter slice they panic with an index out of range.  In
    a commutative ring these values are the determinant, as expanded
    along the first row. *)
Theorem determinants_of_row_major_matrices h s (l : list F) :
  arrays h !! sl_arr s = Some l → (sl_len s ≤ length l)%nat →
  ((4 ≤ sl_len s)%nat →
     ∃ a b c d, take 4 l = [a; b; c; d] ∧ determinant2 s h = Ok (a ⊗ d ⊖ b ⊗ c) h) ∧
  ((sl_len s < 4)%nat → determinant2 s h = Panicked IndexOutOfRange h) ∧
  ((9 ≤ sl_len s)%nat →
     ∃ a b c d e f g k i,
       take 9 l = [a; b; c; d; e; f; g; k; i] ∧
       determinant3 s h =
         Ok (a ⊗ e ⊗ i ⊕ b ⊗ f ⊗ g ⊕ c ⊗ d ⊗ k ⊖ c ⊗ e ⊗ g ⊖ b ⊗ d ⊗ i ⊖ a ⊗ f ⊗ k) h) ∧
  ((sl_len s < 9)%nat → determinant3 s h = Panicked IndexOutOfRange h) ∧
  (∀ fopp : F → F, ring_theory fzero fone fadd fmul fsub fopp eq →
     ((4 ≤ sl_len s)%nat → determinant2 s h = Ok (det 2 (take 4 l)) h) ∧
     ((9 ≤ sl_len s)%nat → determinant3 s h = Ok (det 3 (take 9 l)) h)).
Proof.
  intros Hs Hl. split; [|split; [|split; [|split]]].
  - intros H4. by apply determinant2_reads.
  - intros H4. unfold determinant2. read_cells Hs Hl. exfalso. lia.
  - intros H9. by apply determinant3_reads.
  - intros H9. unfold determinant3. read_cells Hs Hl. exfalso. lia.
  - intros fopp Rth. split.
    + intros H4. destruct (determinant2_reads h s l Hs Hl H4) as (a & b & c & d & -> & ->).
      by rewrite (determinant2_formula fopp Rth).
    + intros H9.
      destruct (determinant3_reads h s l Hs Hl H9)
        as (a & b & c & d & e & f & g & k & i & -> & ->).
      by rewrite (determinant3_formula fopp Rth).
Qed.

End DeterminantFacts.
Section PrintingFacts.

Context {F : Type} {arith : Arith F} {printer : Printer F}.

Implicit Types (h : heap (F:=F)) (p : loc) (st : stats (F:=F)).

Lemma for_fold_inv {A} (I : nat → A → Prop) count i0 (body : Z → A → M (F:=F) A) acc h :
  int_min ≤ i0 → i0 + Z.of_nat count ≤ int_max →
  I 0%nat acc →
  (∀ n a, (n < count)%nat → I n a →
     ∃ a', body (i0 + Z.of_nat n) a h = Ok a' h ∧ I (S n) a') →
  ∃ a', for_fold count i0 body acc h = Ok a' h ∧ I count a'.
Proof.
  revert I i0 acc. induction count as [|c IH]; intros I i0 acc Hlo Hhi H0 Hstep.
  - exists acc. split; [reflexivity | exact H0].
  - destruct (Hstep 0%nat acc ltac:(lia) H0) as (a1 & Hb & H1).
    rewrite Z.add_0_r in Hb.
    destruct (IH (λ n, I (S n)) (i0 + 1) a1) as (a' & Hrun & HI); [lia | lia | exact H1 | |].
    + intros n a Hn Ha. destruct (Hstep (S n) a ltac:(lia) Ha) as (a2 & Hb2 & H2).
      exists a2. split; [|exact H2].
      replace (i0 + 1 + Z.of_nat n) with (i0 + Z.of_nat (S n)) by lia. exact Hb2.
    + exists a'. split; [|exact HI].
      simpl. rewrite (bind_Ok _ _ _ _ _ Hb).
      rewrite int_add_id by lia. exact Hrun.
Qed.

Lemma seq_snoc_map {B} (g : nat → B) n :
  map g (seq 0 n) ++ [g n] = map g (seq 0 (S n)).
Proof. rewrite seq_S, map_app. reflexivity. Qed.

(** The rows of a row-major matrix, as [matrixStrings] prints them. *)
Lemma matrixStrings_rows h p f (lx : list F) :
  wf_heap h → fittings h !! p = Some f →
  arrays h !! sl_arr (xtx f) = Some lx →
  let n := Z.to_nat (Degree f + 1) in
  matrixStrings p (xtx f) h
  = Ok (map (λ r, Join (map (λ c, sprintf_3_3f (entry n lx r c)) (seq 0 n)) " ") (seq 0 n)) h.
Proof.
  intros Hwf Hp Hx n.
  pose proof (wf_shaped _ Hwf _ _ Hp) as Hsh.
  destruct (shaped_bounds _ Hsh) as (Hd & Em & Hm1 & Hm2).
  destruct Hsh as (_ & _ & Hsx & _).
  destruct (wf_backed _ Hwf _ _ Hp) as [(lx' & Hx' & Hlx & _) _].
  assert (lx' = lx) as -> by congruence.
  pose proof int_bounds as (Hb1 & Hb2 & Hb3).
  unfold matrixStrings.
  erewrite bind_Ok by (apply load_Ok; exact Hp).
  cbv zeta. rewrite Em. unfold for_range. rewrite Z.sub_0_r. fold n.
  set (row r := Join (map (λ c, sprintf_3_3f (entry n lx r c)) (seq 0 n)) " ").
  destruct (for_fold_inv (λ k ss, ss = map row (seq 0 k)) n 0
              (λ i ss,
                 bind (for_fold n 0
                         (λ j line,
                            bind (index_get (xtx f) (int_add (int_mul i (Degree f + 1)) j))
                                 (λ v, ret (line ++ [sprintf_3_3f v]))) [])
                      (λ line, ret (ss ++ [Join line " "])))
              [] h) as (ss & Hrun & ->); [lia | unfold n; lia | reflexivity | | exact Hrun].
  intros r ss Hr ->.
  destruct (for_fold_inv (λ k line, line = map (λ c, sprintf_3_3f (entry n lx r c)) (seq 0 k))
              n 0
              (λ j line,
                 bind (index_get (xtx f) (int_add (int_mul (0 + Z.of_nat r) (Degree f + 1)) j))
                      (λ v, ret (line ++ [sprintf_3_3f v])))
              [] h) as (line & Hline & ->); [lia | unfold n; lia | reflexivity | |].
  - intros c line Hc ->.
    destruct (cell_index (0 + Z.of_nat r) (0 + Z.of_nat c) (Degree f + 1))
      as (Ek & Hk & Enat); [unfold n in *; lia | unfold n in *; lia | lia |].
    rewrite Ek.
    assert (Z.to_nat ((0 + Z.of_nat r) * (Degree f + 1) + (0 + Z.of_nat c))
            = (r * n + c)%nat) as Ecell.
    { rewrite Enat. unfold n. f_equal; [f_equal|]; lia. }
    destruct (lookup_lt_is_Some_2 lx (r * n + c)%nat) as [v Hv]; [lia|].
    eexists. split.
    + erewrite bind_Ok by (eapply index_get_Ok; [exact Hx | lia | rewrite Ecell; exact Hv]).
      reflexivity.
    + rewrite <- seq_snoc_map. unfold entry. by rewrite Hv.
  - eexists. split.
    + rewrite (bind_Ok _ _ _ _ _ Hline). reflexivity.
    + rewrite <- seq_snoc_map. reflexivity.
Qed.

(** X21.  [String] only reads: on any fitter of the store it returns,
    with the store untouched, 2·(Degree+1) + 2 lines joined by newlines:
    a header with N and Degree in decimal, the Degree+1 rows of XᵀX with
    their entries separated by one space, an empty line, and the entries
    of XᵀY one per line, every number as ["%3.3f"] prints it. *)
Theorem String_layout h p st :
  wf_heap h → view h p = Some st →
  let n := Z.to_nat (s_Degree st + 1) in
  ∃ lines,
    String p h = Ok (Join lines newline) h ∧
    lines = ("n=" +:+ pretty (s_N st) +:+ " degree=" +:+ pretty (s_Degree st))
            :: map (λ r, Join (map (λ c, sprintf_3_3f (entry n (s_xtx st) r c)) (seq 0 n)) " ")
                   (seq 0 n)
            ++ "" :: map sprintf_3_3f (s_xty st) ∧
    length lines = (2 * n + 2)%nat.
Proof.
  intros Hwf Hv n.
  destruct (view_inv _ _ _ Hwf Hv) as (f & Hp & HN & HD & Hx & Hy & Hlx & Hly).
  pose proof (wf_shaped _ Hwf _ _ Hp) as Hsh.
  destruct (shaped_bounds _ Hsh) as (Hd & Em & Hm1 & Hm2).
  destruct Hsh as (_ & _ & _ & Hsy).
  pose proof int_bounds as (Hb1 & Hb2 & Hb3).
  assert (n = Z.to_nat (Degree f + 1)) as En by (unfold n; by rewrite HD).
  set (hdr := "n=" +:+ pretty (s_N st) +:+ " degree=" +:+ pretty (s_Degree st)).
  set (rows := map (λ r, Join (map (λ c, sprintf_3_3f (entry n (s_xtx st) r c)) (seq 0 n)) " ")
                   (seq 0 n)).
  exists (hdr :: rows ++ "" :: map sprintf_3_3f (s_xty st)).
  split; [|split; [reflexivity|]].
  - unfold String.
    erewrite bind_Ok by (apply load_Ok; exact Hp).
    erewrite bind_Ok by (apply load_Ok; exact Hp).
    rewrite (bind_Ok _ _ _ _ _ (matrixStrings_rows h p f _ Hwf Hp Hx)).
    erewrite bind_Ok by (apply load_Ok; exact Hp).
    cbv zeta. rewrite Em. unfold for_range. rewrite Z.sub_0_r. rewrite <- En.
    rewrite HN, HD. fold hdr rows.
    set (top := (([] ++ [hdr]) ++ rows) ++ [""]).
    destruct (for_fold_inv (λ k ss, ss = top ++ map sprintf_3_3f (take k (s_xty st))) n 0
                (λ i ss, bind (load p) (λ fr, bind (index_get (xty fr) i)
                                                (λ v, ret (ss ++ [sprintf_3_3f v]))))
                top h) as (ss & Hrun & ->); [lia | lia | by rewrite app_nil_r | |].
    + intros k ss Hk ->.
      destruct (lookup_lt_is_Some_2 (s_xty st) k) as [v Hvk]; [lia|].
      eexists. split.
      * erewrite bind_Ok by (apply load_Ok; exact Hp).
        erewrite bind_Ok by (eapply index_get_Ok; [exact Hy | lia | rewrite Z.add_0_l, Nat2Z.id; exact Hvk]).
        reflexivity.
      * rewrite (take_S_r _ _ _ Hvk), map_app, app_assoc. reflexivity.
    + rewrite (bind_Ok _ _ _ _ _ Hrun). unfold ret. f_equal. f_equal.
      rewrite firstn_all2 by lia. unfold top. simpl. by rewrite <- app_assoc.
  - simpl. rewrite length_app. simpl. unfold rows.
    rewrite !length_map, length_seq. lia.
Qed.

End PrintingFacts.
Section FreshResults.

Context {F : Type} {arith : Arith F}.
Local Open Scope arith_scope.

Implicit Types (h : heap (F:=F)) (p q : loc) (st : stats (F:=F)).

(** X22.  Without points [NewFitting] returns an empty fitter: N = 0 and
    every entry of XᵀX and XᵀY zero, whatever [ys] holds; the fitters
    that were there are unchanged. *)
Theorem NewFitting_without_points h (ys : list F) d :
  wf_heap h → 0 ≤ d → (d + 1) * (d + 1) ≤ int_max →
  ∃ b h',
    NewFitting [] ys d h = Ok b h' ∧
    view h' b = Some (mkStats 0 d (replicate (Z.to_nat ((d + 1) * (d + 1))) fzero)
                                  (replicate (Z.to_nat (d + 1)) fzero)) ∧
    wf_heap h' ∧ view h b = None ∧ (∀ q, q ≠ b → view h' q = view h q).
Proof.
  intros Hwf Hd Hm. pose proof int_bounds as (Hb1 & Hb2 & Hb3).
  destruct (NewFitting_spec h [] ys d Hwf Hd Hm ltac:(simpl; lia) ltac:(simpl; lia))
    as (b & h' & Hrun & _ & _ & Hb & Hwf' & Hv & Hframe).
  exists b, h'. split; [exact Hrun|]. split; [exact Hv|]. split; [exact Hwf'|]. split.
  - apply view_None. by apply not_elem_of_dom.
  - intros q Hq. by apply Hframe.
Qed.

(** X23.  The slice [Solve] returns is its own: its array is new, so
    writing to any of its degree+1 elements changes no fitter. *)
Theorem Solve_result_is_not_shared (solver : LinSolver F) h p st :
  wf_heap h → view h p = Some st → 1 ≤ s_N st →
  ∃ s h',
    Solve p h = Ok s h' ∧ (sl_arr s ∉ dom (arrays h)) ∧
    ∀ i (v : F), 0 ≤ i ≤ s_Degree st →
      ∃ h'', index_set s i v h' = Ok tt h'' ∧ ∀ q, view h'' q = view h q.
Proof.
  intros Hwf Hv HN.
  destruct (view_inv _ _ _ Hwf Hv) as (f & Hp & HNf & HD & Hx & Hy & _).
  destruct (Solve_returns h p f _ _ Hwf Hp Hx Hy ltac:(lia))
    as (s & h' & Hrun & Hc & Hlen & Hfresh & Hwf' & Hfit & Hframe).
  pose proof (wf_shaped _ Hwf _ _ Hp) as (Hd & _).
  exists s, h'. split; [exact Hrun|]. split; [exact Hfresh|].
  intros i v Hi.
  unfold contents in Hc.
  destruct (arrays h' !! sl_arr s) as [l|] eqn:Hl; [|discriminate].
  eexists. split.
  - apply (index_set_Ok _ _ _ l); [exact Hl | rewrite Hlen; lia].
  - intros q. rewrite <- Hframe. unfold view. simpl.
    destruct (fittings h' !! q) as [g|] eqn:Hq; [|reflexivity]. simpl.
    assert (fittings h !! q = Some g) as Hq0 by (by rewrite <- Hfit).
    destruct (wf_backed _ Hwf _ _ Hq0) as [Hbx%backed_dom Hby%backed_dom].
    unfold contents. simpl.
    rewrite !lookup_insert_ne by (intros E; rewrite E in Hfresh; done).
    reflexivity.
Qed.

End FreshResults.

(* ------------------------------------------------------------------ *)
(** ** The further properties at concrete fitters *)

Lemma after_three_spec {F : Type} {arith : Arith F}
    (xsA ysA : list F) dA (xsB ysB : list F) dB (xsC ysC : list F) dC :
  0 ≤ dA → (dA + 1) * (dA + 1) ≤ int_max →
  0 ≤ dB → (dB + 1) * (dB + 1) ≤ int_max →
  0 ≤ dC → (dC + 1) * (dC + 1) ≤ int_max →
  Z.of_nat (length xsA) ≤ int_max → (length xsA ≤ length ysA)%nat →
  Z.of_nat (length xsB) ≤ int_max → (length xsB ≤ length ysB)%nat →
  Z.of_nat (length xsC) ≤ int_max → (length xsC ≤ length ysC)%nat →
  let h := after_three xsA ysA dA xsB ysB dB xsC ysC dC in
  wf_heap h ∧
  view h first_fitter = Some (points_stats xsA ysA dA) ∧
  view h second_fitter = Some (points_stats xsB ysB dB) ∧
  view h third_fitter = Some (points_stats xsC ysC dC).
Proof.
  intros HdA HmA HdB HmB HdC HmC HnA HleA HnB HleB HnC HleC h.
  destruct (after_two_spec xsA ysA dA xsB ysB dB HdA HmA HdB HmB HnA HleA HnB HleB)
    as (Hwf2 & Hv1 & Hv2).
  destruct (NewFitting_spec _ xsC ysC dC Hwf2 HdC HmC HnC HleC)
    as (b & h' & Hrun & Eb & Eh & Hb & Hwf' & Hv & Hframe).
  assert (b ≠ first_fitter) as Hb1.
  { intros ->. apply Hb. destruct (view_inv _ _ _ Hwf2 Hv1) as (f & Hf & _).
    apply elem_of_dom. eauto. }
  assert (b ≠ second_fitter) as Hb2.
  { intros ->. apply Hb. destruct (view_inv _ _ _ Hwf2 Hv2) as (f & Hf & _).
    apply elem_of_dom. eauto. }
  unfold h, after_three. rewrite Hrun. simpl.
  assert (b = third_fitter) as ->.
  { rewrite Eb. unfold fresh_fitter.
    assert (dom (fittings (after_two xsA ysA dA xsB ysB dB))
            = {[first_fitter; second_fitter]}) as ->.
    { destruct (after_NewFitting_spec xsA ysA dA HdA HmA HnA HleA) as (HrunA & HwfA & _).
      destruct (NewFitting_spec _ xsB ysB dB HwfA HdB HmB HnB HleB)
        as (b2 & h2 & Hrun2 & Eb2 & Eh2 & _).
      destruct (NewFitting_spec empty_heap xsA ysA dA wf_empty HdA HmA HnA HleA)
        as (b1 & h1 & Hrun1 & Eb1 & Eh1 & _).
      unfold after_two. rewrite Hrun2. simpl. rewrite Eh2. simpl.
      unfold after_NewFitting. rewrite Hrun1. simpl. rewrite Eh1. simpl.
      rewrite !dom_insert_L, dom_empty_L.
      assert (b1 = first_fitter) as -> by (subst b1; reflexivity).
      assert (b2 = second_fitter) as ->.
      { subst b2. unfold fresh_fitter, after_NewFitting. rewrite Hrun1. simpl.
        rewrite Eh1. simpl. rewrite dom_insert_L, dom_empty_L. reflexivity. }
      set_solver. }
    reflexivity. }
  split; [exact Hwf'|].
  split; [destruct (Hframe first_fitter) as [-> _]; done|].
  split; [destruct (Hframe second_fitter) as [-> _]; done|].
  exact Hv.
Qed.

Lemma one_point_ok :
  wf_heap (after_NewFitting [2]%float [5]%float 2) ∧
  view (after_NewFitting [2]%float [5]%float 2) first_fitter
    = Some (points_stats [2]%float [5]%float 2).
Proof. apply after_NewFitting_spec; side. Qed.

(** One point and degree 2: a·1 = 5, and two zeros. *)
Lemma Solve_underdetermined_block_witness :
  let h := after_NewFitting [2]%float [5]%float 2 in
  let st := points_stats [2]%float [5]%float 2 in
  wf_heap h ∧ view h first_fitter = Some st ∧ 1 ≤ s_N st < s_Degree st + 1 ∧
  ∃ s h', Solve (solver := cramer_solver) first_fitter h = Ok s h' ∧
          contents h' s = Some [5; 0; 0]%float.
Proof.
  intros h st. destruct one_point_ok as [Hwf Hv]. fold h st in Hwf, Hv.
  assert (1 ≤ s_N st < s_Degree st + 1) as HN by (vm_compute; split; [discriminate|reflexivity]).
  split; [exact Hwf|]. split; [exact Hv|]. split; [exact HN|].
  destruct (Solve_underdetermined_block (solver := cramer_solver) h first_fitter st Hwf Hv HN)
    as (s & h' & Hrun & Hc & _).
  exists s, h'. split; [exact Hrun|]. rewrite Hc. vm_compute. reflexivity.
Defined.

(** The line example: two points and degree 1. *)
Lemma Solve_returns_with_points_witness :
  let h := after_NewFitting line_xs line_ys 1 in
  let st := points_stats line_xs line_ys 1 in
  wf_heap h ∧ view h first_fitter = Some st ∧ 1 ≤ s_N st ∧
  ∃ s h' beta, Solve (solver := refusing_solver) first_fitter h = Ok s h' ∧
               contents h' s = Some beta ∧ length beta = 2%nat ∧
               ∀ q, view h' q = view h q.
Proof.
  intros h st. destruct line_heap_ok as [Hwf Hv]. fold h st in Hwf, Hv.
  assert (1 ≤ s_N st) as HN by (vm_compute; discriminate).
  split; [exact Hwf|]. split; [exact Hv|]. split; [exact HN|].
  destruct (Solve_returns_with_points (solver := refusing_solver) h first_fitter st Hwf Hv HN)
    as (s & h' & beta & Hrun & Hc & Hlen & _ & Hframe).
  exists s, h', beta. split; [exact Hrun|]. split; [exact Hc|]. split; [exact Hlen|exact Hframe].
Defined.

Lemma S2_cubic_ok :
  wf_heap (after_NewFitting S2_xs_exact S2_ys_exact 3) ∧
  view (after_NewFitting S2_xs_exact S2_ys_exact 3) first_fitter
    = Some (points_stats S2_xs_exact S2_ys_exact 3).
Proof. apply after_NewFitting_spec; side. Qed.

(** The four points of S2 and degree 3, in exact arithmetic with Cramer's
    rule as the solver: the cubic through the four points,
    (73/6)x + (7/2)x² - (2/3)x³. *)
Lemma Solve_high_degree_full_system_witness :
  let h := after_NewFitting S2_xs_exact S2_ys_exact 3 in
  let st := points_stats S2_xs_exact S2_ys_exact 3 in
  wf_heap h ∧ view h first_fitter = Some st ∧
  3 ≤ s_Degree st ∧ s_Degree st + 1 ≤ s_N st ∧
  ∃ s h', Solve (solver := cramer_solver) first_fitter h = Ok s h' ∧
          option_map (map Qcanon.this) (contents h' s)
          = Some [QArith_base.Qmake 0 1; QArith_base.Qmake 73 6;
                  QArith_base.Qmake 7 2; QArith_base.Qmake (-2) 3].
Proof.
  intros h st. destruct S2_cubic_ok as [Hwf Hv]. fold h st in Hwf, Hv.
  assert (3 ≤ s_Degree st) as Hd by (vm_compute; discriminate).
  assert (s_Degree st + 1 ≤ s_N st) as HN by (vm_compute; discriminate).
  split; [exact Hwf|]. split; [exact Hv|]. split; [exact Hd|]. split; [exact HN|].
  destruct (Solve_high_degree_full_system cramer_solver h first_fitter st Hwf Hv Hd HN)
    as (s & h' & Hrun & Hc & _).
  exists s, h'. split; [exact Hrun|]. rewrite Hc. vm_compute. reflexivity.
Defined.

Lemma S2_float_ok :
  wf_heap (after_NewFitting S2_xs S2_ys 1) ∧
  view (after_NewFitting S2_xs S2_ys 1) first_fitter = Some (points_stats S2_xs S2_ys 1).
Proof. apply after_NewFitting_spec; side. Qed.

(** S2 with degree 1: Cramer's rule and the refusing solver give the same
    run. *)
Lemma Solve_quick_path_ignores_solver_witness :
  let h := after_NewFitting S2_xs S2_ys 1 in
  let st := points_stats S2_xs S2_ys 1 in
  wf_heap h ∧ view h first_fitter = Some st ∧
  s_Degree st ≤ 2 ∧ s_Degree st + 1 ≤ s_N st ∧
  Solve (solver := cramer_solver) first_fitter h
  = Solve (solver := refusing_solver) first_fitter h.
Proof.
  intros h st. destruct S2_float_ok as [Hwf Hv]. fold h st in Hwf, Hv.
  assert (s_Degree st ≤ 2) as Hd by (vm_compute; discriminate).
  assert (s_Degree st + 1 ≤ s_N st) as HN by (vm_compute; discriminate).
  split; [exact Hwf|]. split; [exact Hv|]. split; [exact Hd|]. split; [exact HN|].
  exact (proj1 (Solve_quick_path_ignores_solver cramer_solver refusing_solver
                  h first_fitter st Hwf Hv Hd HN)).
Defined.

(** The line example and its copy solve to the same coefficients. *)
Lemma Solve_depends_on_statistics_only_witness :
  let h := after_NewFitting line_xs line_ys 1 in
  let st := points_stats line_xs line_ys 1 in
  wf_heap h ∧ view h first_fitter = Some st ∧ 1 ≤ s_N st ∧
  ∃ b h2, Copy first_fitter h = Ok b h2 ∧ wf_heap h2 ∧ view h2 b = Some st ∧
  ∃ s1 h1' s2 h2' beta,
    Solve (solver := cramer_solver) first_fitter h = Ok s1 h1' ∧
    Solve (solver := cramer_solver) b h2 = Ok s2 h2' ∧
    contents h1' s1 = Some beta ∧ contents h2' s2 = Some beta.
Proof.
  intros h st. destruct line_heap_ok as [Hwf Hv]. fold h st in Hwf, Hv.
  destruct (Copy_spec h first_fitter st Hwf Hv)
    as (b & h2 & Hrun & _ & _ & _ & _ & Hwf2 & Hv2 & _).
  assert (1 ≤ s_N st) as HN by (vm_compute; discriminate).
  split; [exact Hwf|]. split; [exact Hv|]. split; [exact HN|].
  exists b, h2. split; [exact Hrun|]. split; [exact Hwf2|]. split; [exact Hv2|].
  destruct (Solve_depends_on_statistics_only cramer_solver h h2 first_fitter b st
              Hwf Hwf2 Hv Hv2 HN) as (s1 & h1' & s2 & h2' & beta & R1 & R2 & C1 & C2 & _).
  exists s1, h1', s2, h2', beta.
  split; [exact R1|]. split; [exact R2|]. split; [exact C1|exact C2].
Defined.

(** The line example merged into itself. *)
Lemma Merge_into_itself_doubles_witness :
  let h := after_NewFitting line_xs line_ys 1 in
  wf_heap h ∧ view h first_fitter = Some (points_stats line_xs line_ys 1) ∧
  ∃ h', Merge first_fitter first_fitter h = Ok tt h' ∧
        view h' first_fitter = Some (mkStats 4 1 [4; 6; 6; 10]%float [2; 4]%float).
Proof.
  intros h. destruct line_heap_ok as [Hwf Hv]. fold h in Hwf, Hv.
  split; [exact Hwf|]. split; [exact Hv|].
  destruct (Merge_into_itself_doubles h first_fitter _ Hwf Hv) as (h' & Hrun & _ & Hv' & _).
  exists h'. split; [exact Hrun|]. rewrite Hv'. vm_compute. reflexivity.
Defined.

Lemma two_lines_ok :
  let h := after_two line_xs line_ys 1 S2_xs S2_ys 1 in
  wf_heap h ∧
  view h first_fitter = Some (points_stats line_xs line_ys 1) ∧
  view h second_fitter = Some (points_stats S2_xs S2_ys 1).
Proof. apply after_two_spec; side. Qed.

(** The line example and S2, both of degree 1, in float64. *)
Lemma Merge_commutes_witness :
  let h := after_two line_xs line_ys 1 S2_xs S2_ys 1 in
  wf_heap h ∧
  view h first_fitter = Some (points_stats line_xs line_ys 1) ∧
  view h second_fitter = Some (points_stats S2_xs S2_ys 1) ∧
  ∃ h1 h2,
    Merge first_fitter second_fitter h = Ok tt h1 ∧
    Merge second_fitter first_fitter h = Ok tt h2 ∧
    view h1 first_fitter = view h2 second_fitter ∧
    view h1 first_fitter = Some (mkStats 6 1 [6; 9; 9; 19]%float [99; 233]%float).
Proof.
  intros h. destruct two_lines_ok as (Hwf & Hv1 & Hv2). fold h in Hwf, Hv1, Hv2.
  split; [exact Hwf|]. split; [exact Hv1|]. split; [exact Hv2|].
  destruct (Merge_commutes (arith := float64_arith) h first_fitter second_fitter _ _
              float64_add_comm Hwf Hv1 Hv2)
    as (h1 & h2 & st' & R1 & R2 & V1 & V2).
  { vm_compute. reflexivity. }
  exists h1, h2. split; [exact R1|]. split; [exact R2|]. split; [by rewrite V1, V2|].
  destruct (Merge_spec h first_fitter second_fitter _ _ Hwf Hv1 Hv2) as (h1' & R1' & _ & V1' & _).
  { vm_compute. reflexivity. }
  rewrite R1 in R1'. injection R1' as <-. rewrite V1'. vm_compute. reflexivity.
Defined.

Lemma three_exact_ok :
  let h := after_three [rat 0 1] [rat 0 1] 1 [rat 1 1] [rat 15 1] 1
                       [rat 2 1; rat 3 1] [rat 33 1; rat 50 1] 1 in
  wf_heap h ∧
  view h first_fitter = Some (points_stats [rat 0 1] [rat 0 1] 1) ∧
  view h second_fitter = Some (points_stats [rat 1 1] [rat 15 1] 1) ∧
  view h third_fitter = Some (points_stats [rat 2 1; rat 3 1] [rat 33 1; rat 50 1] 1).
Proof. apply after_three_spec; side. Qed.

(** The four points of S2 spread over three fitters, in exact
    arithmetic: merged either way, the first fitter holds the statistics
    of the four points. *)
Lemma Merge_associates_witness :
  let h := after_three [rat 0 1] [rat 0 1] 1 [rat 1 1] [rat 15 1] 1
                       [rat 2 1; rat 3 1] [rat 33 1; rat 50 1] 1 in
  wf_heap h ∧
  view h first_fitter = Some (points_stats [rat 0 1] [rat 0 1] 1) ∧
  view h second_fitter = Some (points_stats [rat 1 1] [rat 15 1] 1) ∧
  view h third_fitter = Some (points_stats [rat 2 1; rat 3 1] [rat 33 1; rat 50 1] 1) ∧
  ∃ h1 h1' h2 h2',
    Merge first_fitter second_fitter h = Ok tt h1 ∧
    Merge first_fitter third_fitter h1 = Ok tt h1' ∧
    Merge second_fitter third_fitter h = Ok tt h2 ∧
    Merge first_fitter second_fitter h2 = Ok tt h2' ∧
    view h1' first_fitter = view h2' first_fitter.
Proof.
  intros h. destruct three_exact_ok as (Hwf & Hv1 & Hv2 & Hv3). fold h in Hwf, Hv1, Hv2, Hv3.
  split; [exact Hwf|]. split; [exact Hv1|]. split; [exact Hv2|]. split; [exact Hv3|].
  assert (first_fitter ≠ second_fitter) as N12 by discriminate.
  assert (first_fitter ≠ third_fitter) as N13 by discriminate.
  destruct (Merge_associates (arith := exact_arith) h first_fitter second_fitter third_fitter
              _ _ _ Qcanon.Qcplus_assoc Hwf N12 N13 Hv1 Hv2 Hv3
              ltac:(vm_compute; reflexivity) ltac:(vm_compute; reflexivity))
    as (h1 & h1' & h2 & h2' & st' & R1 & R2 & R3 & R4 & V1 & V2).
  exists h1, h1', h2, h2'.
  split; [exact R1|]. split; [exact R2|]. split; [exact R3|]. split; [exact R4|].
  by rewrite V1, V2.
Defined.

(** S2 with degree 1 in float64. *)
Lemma NewFitting_caches_are_power_sums_witness :
  wf_heap (empty_heap (F:=float)) ∧
  ∃ b h' st,
    NewFitting S2_xs S2_ys 1 empty_heap = Ok b h' ∧ view h' b = Some st ∧
    s_xtx st !! 1%nat = Some (0 + 0 + 1 + 2 + 3)%float ∧
    s_xty st !! 1%nat = Some (0 + 0 * 0 + 1 * 15 + 2 * 33 + 3 * 50)%float.
Proof.
  split; [apply wf_empty|].
  destruct (NewFitting_caches_are_power_sums (arith := float64_arith) empty_heap S2_xs S2_ys 1
              wf_empty ltac:(side) ltac:(side) ltac:(side) ltac:(side))
    as (b & h' & st & Hrun & Hv & _ & _ & Hsum).
  exists b, h', st. split; [exact Hrun|]. split; [exact Hv|].
  destruct (Hsum 0%nat 1%nat ltac:(lia) ltac:(lia)) as [Ex _].
  destruct (Hsum 1%nat 0%nat ltac:(lia) ltac:(lia)) as [_ Ey].
  split.
  - etransitivity; [exact Ex|]. vm_compute. reflexivity.
  - etransitivity; [exact Ey|]. vm_compute. reflexivity.
Defined.

Lemma NewFitting_XtX_is_symmetric_witness :
  wf_heap (empty_heap (F:=float)) ∧
  ∃ b h' st,
    NewFitting S2_xs S2_ys 2 empty_heap = Ok b h' ∧ view h' b = Some st ∧
    symmetric 3 (s_xtx st).
Proof.
  split; [apply wf_empty|].
  destruct (NewFitting_XtX_is_symmetric (arith := float64_arith) empty_heap S2_xs S2_ys 2
              float64_mul_comm wf_empty ltac:(side) ltac:(side) ltac:(side) ltac:(side))
    as (b & h' & st & Hrun & Hv & Hsym).
  exists b, h', st. split; [exact Hrun|]. split; [exact Hv|]. exact Hsym.
Defined.

Lemma line_XtX_symmetric : symmetric 2 (s_xtx (points_stats line_xs line_ys 1)).
Proof.
  intros r c Hr Hc.
  destruct r as [|[|r]], c as [|[|c]]; try lia; vm_compute; reflexivity.
Qed.

Lemma S2_XtX_symmetric : symmetric 2 (s_xtx (points_stats S2_xs S2_ys 1)).
Proof.
  intros r c Hr Hc.
  destruct r as [|[|r]], c as [|[|c]]; try lia; vm_compute; reflexivity.
Qed.

(** A point added to the fitter of the line example, and S2 merged into
    it. *)
Lemma Add_and_Merge_keep_XtX_symmetric_witness :
  let h := after_two line_xs line_ys 1 S2_xs S2_ys 1 in
  wf_heap h ∧
  view h first_fitter = Some (points_stats line_xs line_ys 1) ∧
  symmetric 2 (s_xtx (points_stats line_xs line_ys 1)) ∧
  (∃ h' st', Add first_fitter 3%float 2%float h = Ok tt h' ∧
             view h' first_fitter = Some st' ∧ symmetric 2 (s_xtx st')) ∧
  (∃ h' st', Merge first_fitter second_fitter h = Ok tt h' ∧
             view h' first_fitter = Some st' ∧ symmetric 2 (s_xtx st')).
Proof.
  intros h. destruct two_lines_ok as (Hwf & Hv1 & Hv2). fold h in Hwf, Hv1, Hv2.
  split; [exact Hwf|]. split; [exact Hv1|]. split; [exact line_XtX_symmetric|].
  destruct (Add_and_Merge_keep_XtX_symmetric (arith := float64_arith) h first_fitter _
              float64_mul_comm Hwf Hv1 line_XtX_symmetric) as [HAdd HMerge].
  split; [exact (HAdd 3%float 2%float)|].
  exact (HMerge second_fitter _ Hv2 eq_refl S2_XtX_symmetric).
Defined.

(** S2 with degree 2 in exact arithmetic: entry (0, 2) and entry (1, 1)
    are both 0² + 1² + 2² + 3² = 14. *)
Lemma NewFitting_XtX_is_Hankel_witness :
  wf_heap (empty_heap (F:=Qcanon.Qc)) ∧
  ∃ b h' st,
    NewFitting S2_xs_exact S2_ys_exact 2 empty_heap = Ok b h' ∧ view h' b = Some st ∧
    entry 3 (s_xtx st) 0 2 = entry 3 (s_xtx st) 1 1 ∧
    entry 3 (s_xtx st) 0 2 = rat 14 1.
Proof.
  split; [apply wf_empty|].
  destruct (NewFitting_XtX_is_Hankel (arith := exact_arith) empty_heap
              S2_xs_exact S2_ys_exact 2 Qcanon.Qcmult_assoc Qcanon.Qcmult_1_r wf_empty
              ltac:(side) ltac:(side) ltac:(side) ltac:(side))
    as (b & h' & st & Hrun & Hv & Hh).
  exists b, h', st. split; [exact Hrun|]. split; [exact Hv|].
  destruct (Hh 0%nat 2%nat ltac:(lia) ltac:(lia)) as [Esum Heq].
  split.
  - apply Heq; lia.
  - etransitivity; [exact Esum|]. apply Qcanon.Qc_is_canon. vm_compute. reflexivity.
Defined.

(** S2 in exact arithmetic: four points, and 0 + 15 + 33 + 50 = 98. *)
Lemma NewFitting_counts_and_sums_witness :
  wf_heap (empty_heap (F:=Qcanon.Qc)) ∧
  ∃ b h' st,
    NewFitting S2_xs_exact S2_ys_exact 1 empty_heap = Ok b h' ∧ view h' b = Some st ∧
    s_xtx st !! 0%nat = Some (rat 4 1) ∧ s_xty st !! 0%nat = Some (rat 98 1).
Proof.
  split; [apply wf_empty|].
  destruct (NewFitting_counts_and_sums (arith := exact_arith) empty_heap
              S2_xs_exact S2_ys_exact 1 Qcanon.Qcmult_1_l wf_empty
              ltac:(side) ltac:(side) ltac:(side) ltac:(side))
    as (b & h' & st & Hrun & Hv & Ex & Ey).
  exists b, h', st. split; [exact Hrun|]. split; [exact Hv|]. split.
  - rewrite Ex. f_equal; try (apply Qcanon.Qc_is_canon; vm_compute; reflexivity).
  - rewrite Ey. f_equal; try (apply Qcanon.Qc_is_canon; vm_compute; reflexivity).
Defined.

(** S2 with degree 2 and with degree 1, in float64. *)
Lemma lower_degree_is_leading_block_witness :
  wf_heap (empty_heap (F:=float)) ∧
  ∃ b h1 h2 st st',
    NewFitting S2_xs S2_ys 2 empty_heap = Ok b h1 ∧
    NewFitting S2_xs S2_ys 1 empty_heap = Ok b h2 ∧
    view h1 b = Some st ∧ view h2 b = Some st' ∧
    s_xtx st' = block 2 2 3 (s_xtx st) ∧ s_xty st' = take 2 (s_xty st).
Proof.
  split; [apply wf_empty|].
  destruct (lower_degree_is_leading_block (arith := float64_arith) empty_heap S2_xs S2_ys 2 1
              wf_empty ltac:(lia) ltac:(side) ltac:(side) ltac:(side))
    as (b & h1 & h2 & st & st' & R1 & R2 & V1 & V2 & Ex & Ey).
  exists b, h1, h2, st, st'.
  split; [exact R1|]. split; [exact R2|]. split; [exact V1|]. split; [exact V2|].
  split; [exact Ex|exact Ey].
Defined.

(** Two points given in either order, in exact arithmetic. *)
Lemma NewFitting_order_of_points_is_irrelevant_witness :
  wf_heap (empty_heap (F:=Qcanon.Qc)) ∧
  zip [rat 1 1; rat 2 1] [rat 15 1; rat 33 1] ≡ₚ zip [rat 2 1; rat 1 1] [rat 33 1; rat 15 1] ∧
  ∃ b h',
    NewFitting [rat 1 1; rat 2 1] [rat 15 1; rat 33 1] 1 empty_heap = Ok b h' ∧
    NewFitting [rat 2 1; rat 1 1] [rat 33 1; rat 15 1] 1 empty_heap = Ok b h'.
Proof.
  assert (zip [rat 1 1; rat 2 1] [rat 15 1; rat 33 1]
          ≡ₚ zip [rat 2 1; rat 1 1] [rat 33 1; rat 15 1]) as Hperm by apply perm_swap.
  split; [apply wf_empty|]. split; [exact Hperm|].
  destruct (NewFitting_order_of_points_is_irrelevant (arith := exact_arith) empty_heap
              [rat 1 1; rat 2 1] [rat 15 1; rat 33 1] [rat 2 1; rat 1 1] [rat 33 1; rat 15 1] 1
              Qcanon.Qcplus_assoc Qcanon.Qcplus_comm wf_empty
              ltac:(side) ltac:(side) ltac:(side) ltac:(side) ltac:(side) Hperm)
    as (b & h' & st & R1 & R2 & _).
  exists b, h'. split; [exact R1|exact R2].
Defined.

(** S2 in exact arithmetic, fitted in two halves and merged, and fitted
    at once: both solve to -7/10 and 84/5. *)
Lemma merged_fit_solves_like_one_fit_witness :
  wf_heap (empty_heap (F:=Qcanon.Qc)) ∧
  ∃ s1 h1 s2 h2 beta,
    bind (NewFitting [rat 0 1; rat 1 1] [rat 0 1; rat 15 1] 1) (λ a,
      bind (NewFitting [rat 2 1; rat 3 1] [rat 33 1; rat 50 1] 1) (λ b,
        bind (Merge a b) (λ _, Solve (solver := cramer_solver) a))) empty_heap = Ok s1 h1 ∧
    bind (NewFitting S2_xs_exact S2_ys_exact 1) (Solve (solver := cramer_solver)) empty_heap
      = Ok s2 h2 ∧
    contents h1 s1 = Some beta ∧ contents h2 s2 = Some beta ∧
    map Qcanon.this beta = [QArith_base.Qmake (-7) 10; QArith_base.Qmake 84 5].
Proof.
  split; [apply wf_empty|].
  destruct (merged_fit_solves_like_one_fit (arith := exact_arith) cramer_solver empty_heap
              [rat 0 1; rat 1 1] [rat 0 1; rat 15 1] [rat 2 1; rat 3 1] [rat 33 1; rat 50 1] 1
              Qcanon.Qcplus_assoc Qcanon.Qcplus_0_r wf_empty
              ltac:(side) ltac:(side) ltac:(reflexivity) ltac:(side) ltac:(side) ltac:(side))
    as (s1 & h1 & s2 & h2 & beta & R1 & R2 & C1 & C2 & _).
  exists s1, h1, s2, h2, beta.
  split; [exact R1|]. split; [exact R2|]. split; [exact C1|]. split; [exact C2|].
  change ([rat 0 1; rat 1 1] ++ [rat 2 1; rat 3 1]) with S2_xs_exact in R2.
  change ([rat 0 1; rat 15 1] ++ [rat 33 1; rat 50 1]) with S2_ys_exact in R2.
  vm_compute in R2. injection R2 as <- <-.
  vm_compute in C2. injection C2 as <-. reflexivity.
Defined.

(** Degree -2. *)
Lemma NewFitting_negative_degree_panics_witness :
  -2 < -1 ∧ (-2 + 1) * (-2 + 1) ≤ int_max ∧
  ∃ h', NewFitting S2_xs S2_ys (-2) empty_heap = Panicked MakeSliceOutOfRange h' ∧
        fittings h' = ∅.
Proof.
  assert (-2 < -1) as H1 by lia.
  assert ((-2 + 1) * (-2 + 1) ≤ int_max) as H2 by (unfold int_max; lia).
  split; [exact H1|]. split; [exact H2|].
  exact (NewFitting_negative_degree_panics (arith := float64_arith) empty_heap S2_xs S2_ys (-2) H1 H2).
Defined.

(** A pointer in a program without fitters. *)
Lemma methods_panic_on_nil_witness :
  fittings (empty_heap (F:=float)) !! first_fitter = None ∧
  Add first_fitter 3%float 2%float empty_heap = Panicked NilDereference empty_heap ∧
  Copy first_fitter (empty_heap (F:=float)) = Panicked NilDereference empty_heap ∧
  Solve (solver := refusing_solver) first_fitter (empty_heap (F:=float))
    = Panicked NilDereference empty_heap.
Proof.
  assert (fittings (empty_heap (F:=float)) !! first_fitter = None) as Hnil by reflexivity.
  split; [exact Hnil|].
  destruct (methods_panic_on_nil (arith := float64_arith) refusing_solver empty_heap
              first_fitter Hnil) as (HAdd & HCopy & HSolve & _).
  split; [exact (HAdd 3%float 2%float)|]. split; [exact HCopy|exact HSolve].
Defined.

(** Two points and degree -1. *)
Lemma NewFitting_degree_minus_one_witness :
  Z.of_nat (length [1; 2]%float) ≤ int_max ∧
  (length [1; 2]%float ≤ length [3; 4]%float)%nat ∧
  ∃ b h' f,
    NewFitting [1; 2]%float [3; 4]%float (-1) empty_heap = Ok b h' ∧
    fittings h' !! b = Some f ∧ N f = 2 ∧
    ∃ h'', Solve (solver := cramer_solver) b h' = Panicked ErrZeroLength h''.
Proof.
  assert (Z.of_nat (length [1; 2]%float) ≤ int_max) as H1 by (simpl; unfold int_max; lia).
  assert (length [1; 2]%float ≤ length [3; 4]%float)%nat as H2 by (simpl; lia).
  split; [exact H1|]. split; [exact H2|].
  destruct (NewFitting_degree_minus_one (arith := float64_arith) cramer_solver empty_heap
              [1; 2]%float [3; 4]%float H1 H2)
    as (b & h' & f & Hrun & Hb & HN & _ & _ & _ & Hsolve).
  exists b, h', f. split; [exact Hrun|]. split; [exact Hb|]. split; [exact HN|exact Hsolve].
Defined.

(** XᵀX of S2 with degree 1: 4·14 - 6·6 = 20, in float64 and in exact
    arithmetic, where it is the determinant. *)
Lemma determinants_of_row_major_matrices_witness :
  (let h := after_NewFitting S2_xs S2_ys 1 in
   let s := Slice 1%positive 4 4 in
   let l := [4; 6; 6; 14]%float in
   arrays h !! sl_arr s = Some l ∧ (sl_len s ≤ length l)%nat ∧
   determinant2 s h = Ok 20%float h ∧
   determinant3 s h = Panicked IndexOutOfRange h) ∧
  (let h := after_NewFitting S2_xs_exact S2_ys_exact 1 in
   let s := Slice 1%positive 4 4 in
   let l := [rat 4 1; rat 6 1; rat 6 1; rat 14 1] in
   arrays h !! sl_arr s = Some l ∧ (sl_len s ≤ length l)%nat ∧
   determinant2 s h = Ok (det 2 l) h ∧ det 2 l = rat 20 1).
Proof.
  split.
  - intros h s l.
    assert (arrays h !! sl_arr s = Some l) as Hs by (vm_compute; reflexivity).
    assert (sl_len s ≤ length l)%nat as Hl by (simpl; lia).
    split; [exact Hs|]. split; [exact Hl|].
    destruct (determinants_of_row_major_matrices (arith := float64_arith) h s l Hs Hl)
      as (H2 & _ & _ & H3 & _).
    split.
    + destruct (H2 ltac:(simpl; lia)) as (a & b & c & d & E & ->).
      injection E as <- <- <- <-. vm_compute. reflexivity.
    + apply H3. simpl. lia.
  - intros h s l.
    assert (arrays h !! sl_arr s = Some l) as Hs by (vm_compute; reflexivity).
    assert (sl_len s ≤ length l)%nat as Hl by (simpl; lia).
    split; [exact Hs|]. split; [exact Hl|].
    destruct (determinants_of_row_major_matrices (arith := exact_arith) h s l Hs Hl)
      as (_ & _ & _ & _ & Hring).
    destruct (Hring Qcanon.Qcopp Qcanon.Qcrt) as [H2 _].
    split; [apply H2; simpl; lia|].
    apply Qcanon.Qc_is_canon. vm_compute. reflexivity.
Defined.

Lemma ones_ok :
  wf_heap (after_NewFitting [1]%float [1]%float 3) ∧
  view (after_NewFitting [1]%float [1]%float 3) first_fitter
    = Some (points_stats [1]%float [1]%float 3).
Proof. apply after_NewFitting_spec; side. Qed.

(** The example of the documentation of [String]: the point (1, 1) and
    degree 3. *)
Lemma String_layout_witness :
  let h := after_NewFitting [1]%float [1]%float 3 in
  wf_heap h ∧ view h first_fitter = Some (points_stats [1]%float [1]%float 3) ∧
  String (printer := float64_printer) first_fitter h
  = Ok (Join ["n=1 degree=3";
              "1.000 1.000 1.000 1.000";
              "1.000 1.000 1.000 1.000";
              "1.000 1.000 1.000 1.000";
              "1.000 1.000 1.000 1.000";
              "";
              "1.000"; "1.000"; "1.000"; "1.000"] newline) h.
Proof.
  intros h. destruct ones_ok as [Hwf Hv]. fold h in Hwf, Hv.
  split; [exact Hwf|]. split; [exact Hv|].
  destruct (String_layout (printer := float64_printer) h first_fitter _ Hwf Hv)
    as (lines & Hrun & -> & _).
  rewrite Hrun. f_equal.
Defined.

(** Degree 1 and no x, in float64. *)
Lemma NewFitting_without_points_witness :
  wf_heap (empty_heap (F:=float)) ∧
  ∃ b h',
    NewFitting [] [7; 8]%float 1 empty_heap = Ok b h' ∧
    view h' b = Some (mkStats 0 1 [0; 0; 0; 0]%float [0; 0]%float).
Proof.
  split; [apply wf_empty|].
  destruct (NewFitting_without_points (arith := float64_arith) empty_heap [7; 8]%float 1
              wf_empty ltac:(lia) ltac:(unfold int_max; lia))
    as (b & h' & Hrun & Hv & _).
  exists b, h'. split; [exact Hrun | exact Hv].
Defined.

(** The coefficients of the line example, overwritten by the caller. *)
Lemma Solve_result_is_not_shared_witness :
  let h := after_NewFitting line_xs line_ys 1 in
  let st := points_stats line_xs line_ys 1 in
  wf_heap h ∧ view h first_fitter = Some st ∧ 1 ≤ s_N st ∧
  ∃ s h' h'',
    Solve (solver := cramer_solver) first_fitter h = Ok s h' ∧
    index_set s 0 9%float h' = Ok tt h'' ∧
    view h'' first_fitter = Some st.
Proof.
  intros h st. destruct line_heap_ok as [Hwf Hv]. fold h st in Hwf, Hv.
  assert (1 ≤ s_N st) as HN by (vm_compute; discriminate).
  split; [exact Hwf|]. split; [exact Hv|]. split; [exact HN|].
  destruct (Solve_result_is_not_shared (arith := float64_arith) cramer_solver h first_fitter st
              Hwf Hv HN) as (s & h' & Hrun & _ & Hwrite).
  destruct (Hwrite 0 9%float ltac:(vm_compute; split; discriminate)) as (h'' & Hset & Hframe).
  exists s, h', h''. split; [exact Hrun|]. split; [exact Hset|].
  rewrite Hframe. exact Hv.
Defined.

End polyfit.
